(** * freepcb2pretty: a shallow embedding of the FreePCB -> KiCad converter

    The development follows [freepcb2pretty.py] top to bottom: Python string
    primitives, the string-record decoder [parse_string], the library and
    module model, the line reader [FreePCBfile], the parser, the transform
    passes, and the s-expression emitter.

    Conventions of the embedding.
    - Python 3 semantics ([str] is a sequence of code points, [/] is true
      division).  A Python [str] is a [string]; its characters are the code
      points below 256.
    - A raised exception is the [Raise] branch of [result]; the exception
      classes the program can raise are the constructors of [exn].  A [while]
      loop is a recursive function on a step budget; [OutOfBudget] is the answer
      of a loop whose budget ran out, and the budgets the callers pass are
      proved sufficient ([OutOfBudget] is never the answer of the program).
    - Python numbers: an [int] is a [Z].  In the parser, the emitter and the
      passes of [main] a [float] is idealised as an exact rational [Q], and
      geometry that may hold either (polyline points, bounding boxes) is
      kept in [Q], the integers embedded by [inject_Z]; rounding,
      infinities, NaN and the [OverflowError] of [float] on a huge [int]
      are outside that idealisation.  Where the result depends on them, in
      the bounding boxes and the courtyard pass, the methods are modelled a
      second time in the module [IEEE], on IEEE 754 doubles
      ([PrimFloat.float]) and unbounded [int]s.
    - Library functions of Python that the program only calls ([float] on a
      string, [repr] of a float or a string, MD5, the regular expression
      engine) are parameters of the sections that use them. *)

From Stdlib Require Import String Ascii List ZArith QArith Qminmax Lia Lqa Bool.
From Stdlib Require Import DecimalString Floats.
Import ListNotations.

Set Implicit Arguments.
Close Scope Q_scope.
Open Scope nat_scope.
Open Scope string_scope.

(** ** Exceptions and the error monad *)

Inductive exn : Type :=
| IndexError
| AssertionError
| ValueError
| AttributeError
| StructError
| OverflowError
| Exception (msg : string).

Inductive result (A : Type) : Type :=
| Ok (a : A)
| Raise (e : exn)
| OutOfBudget.

Arguments Ok {A} a.
Arguments Raise {A} e.
Arguments OutOfBudget {A}.

Definition bind {A B} (r : result A) (k : A -> result B) : result B :=
  match r with
  | Ok a => k a
  | Raise e => Raise e
  | OutOfBudget => OutOfBudget
  end.

Declare Scope py_scope.
Delimit Scope py_scope with py.
Notation "x <- c ;; k" := (bind c (fun x => k))
  (at level 61, c at next level, right associativity) : py_scope.
Notation "' p <- c ;; k" := (bind c (fun x => let p := x in k))
  (at level 61, p pattern, c at next level, right associativity) : py_scope.
Open Scope py_scope.

(** [assert b] *)
Definition py_assert (b : bool) : result unit :=
  if b then Ok tt else Raise AssertionError.

Definition is_ok {A} (r : result A) : bool :=
  match r with Ok _ => true | _ => false end.

(** ** Python string primitives *)

Module PyStr.

Definition dquote : ascii := "034"%char.
Definition tab : ascii := "009"%char.
Definition newline : ascii := "010"%char.
Definition backslash : ascii := "092"%char.

(** [str.isspace] of one character, for the code points below 256. *)
Definition is_space (c : ascii) : bool :=
  let n := nat_of_ascii c in
  (((9 <=? n) && (n <=? 13)) || ((28 <=? n) && (n <=? 32))
   || (n =? 133) || (n =? 160))%nat.

Definition is_empty (s : string) : bool :=
  match s with EmptyString => true | _ => false end.

(** [s[n:]] and [s[:n]] for [n >= 0]. *)
Fixpoint drop (n : nat) (s : string) : string :=
  match n, s with
  | O, _ => s
  | S n', String _ s' => drop n' s'
  | S _, EmptyString => EmptyString
  end.

Fixpoint take (n : nat) (s : string) : string :=
  match n, s with
  | O, _ => EmptyString
  | S n', String c s' => String c (take n' s')
  | S _, EmptyString => EmptyString
  end.

(** [s[a:b]] for [0 <= a], [0 <= b]. *)
Definition slice (a b : nat) (s : string) : string :=
  take (b - a) (drop a s).

Fixpoint lstrip (s : string) : string :=
  match s with
  | String c s' => if is_space c then lstrip s' else s
  | EmptyString => EmptyString
  end.

Fixpoint rstrip (s : string) : string :=
  match s with
  | String c s' =>
      let r := rstrip s' in
      if is_empty r && is_space c then EmptyString else String c r
  | EmptyString => EmptyString
  end.

Definition strip (s : string) : string := rstrip (lstrip s).

(** [s.index(c)]: position of the first [c], [None] for [ValueError]. *)
Fixpoint index (c : ascii) (s : string) : option nat :=
  match s with
  | EmptyString => None
  | String d s' =>
      if Ascii.eqb d c then Some O
      else match index c s' with
           | Some n => Some (S n)
           | None => None
           end
  end.

(** [s.partition(c)] for a one-character separator: the text before the
    first [c], whether [c] was found, and the text after it. *)
Fixpoint partition (c : ascii) (s : string) : string * bool * string :=
  match s with
  | EmptyString => (EmptyString, false, EmptyString)
  | String d s' =>
      if Ascii.eqb d c then (EmptyString, true, s')
      else let '(a, f, b) := partition c s' in (String d a, f, b)
  end.

Definition startswith_char (c : ascii) (s : string) : bool :=
  match s with
  | String d _ => Ascii.eqb d c
  | EmptyString => false
  end.

Fixpoint last_char (s : string) : option ascii :=
  match s with
  | EmptyString => None
  | String c EmptyString => Some c
  | String _ s' => last_char s'
  end.

Definition endswith_char (c : ascii) (s : string) : bool :=
  match last_char s with
  | Some d => Ascii.eqb d c
  | None => false
  end.

(** [s.startswith(p)] *)
Definition startswith (p s : string) : bool := String.prefix p s.

(** [s.endswith(p)] *)
Definition endswith (p s : string) : bool :=
  (String.length p <=? String.length s)%nat
  && String.eqb (drop (String.length s - String.length p) s) p.

(** [s[:-1]] *)
Fixpoint drop_last (s : string) : string :=
  match s with
  | EmptyString => EmptyString
  | String _ EmptyString => EmptyString
  | String c s' => String c (drop_last s')
  end.

(** [c in s] for a one-character [c]. *)
Fixpoint mem (c : ascii) (s : string) : bool :=
  match s with
  | EmptyString => false
  | String d s' => Ascii.eqb d c || mem c s'
  end.

(** [s.split()]: the maximal runs of non-whitespace characters.  [cur] is
    the run being read, in reverse. *)
Fixpoint rev_acc (s acc : string) : string :=
  match s with
  | EmptyString => acc
  | String c s' => rev_acc s' (String c acc)
  end.

Definition flush (cur : string) (k : list string) : list string :=
  match cur with
  | EmptyString => k
  | _ => rev_acc cur EmptyString :: k
  end.

Fixpoint split_aux (s cur : string) : list string :=
  match s with
  | EmptyString => flush cur []
  | String c s' =>
      if is_space c then flush cur (split_aux s' EmptyString)
      else split_aux s' (String c cur)
  end.

Definition split (s : string) : list string := split_aux s EmptyString.

(** [int(s)] on a string: surrounding whitespace, an optional sign, and
    decimal digits that may be separated by single underscores.  [None]
    stands for [ValueError]. *)
Definition digit_val (c : ascii) : option Z :=
  let n := nat_of_ascii c in
  if ((48 <=? n) && (n <=? 57))%nat then Some (Z.of_nat (n - 48)) else None.

Fixpoint digits (s : string) (acc : Z) (after_digit : bool) : option Z :=
  match s with
  | EmptyString => if after_digit then Some acc else None
  | String c s' =>
      match digit_val c with
      | Some d => digits s' (acc * 10 + d)%Z true
      | None =>
          if Ascii.eqb c "_"%char && after_digit then digits s' acc false
          else None
      end
  end.

Definition int (s : string) : option Z :=
  match strip s with
  | String "-"%char s' => option_map Z.opp (digits s' 0%Z false)
  | String "+"%char s' => digits s' 0%Z false
  | s' => digits s' 0%Z false
  end.

(** [[int(i) for i in value.split()]], [None] for [ValueError]. *)
Fixpoint ints (l : list string) : option (list Z) :=
  match l with
  | [] => Some []
  | x :: l' =>
      match int x with
      | Some z => option_map (cons z) (ints l')
      | None => None
      end
  end.

(** ["%d" % z] *)
Definition of_Z (z : Z) : string := NilZero.string_of_int (Z.to_int z).

(** ["\n".join(l)] and friends. *)
Fixpoint join (sep : string) (l : list string) : string :=
  match l with
  | [] => EmptyString
  | [x] => x
  | x :: l' => x ++ sep ++ join sep l'
  end.

End PyStr.

(** ** [parse_string]: the string-record decoder *)

Definition parse_string (s : string) : result (string * nat) :=
  match s with
  | EmptyString => Raise IndexError
  | String c0 s1 =>
      if negb (Ascii.eqb c0 PyStr.dquote) then
        let '(str, _, _) := PyStr.partition " "%char s in
        Ok (PyStr.strip str, String.length str + 1)%nat
      else
        match PyStr.index PyStr.dquote s1 with
        | None => Ok (s1, String.length s)
        | Some i =>
            let second_quote := (i + 1)%nat in
            let beyond := PyStr.drop (second_quote + 1) s in
            let beyond_stripped := PyStr.lstrip beyond in
            let extra_garbage :=
              (String.length beyond - String.length beyond_stripped)%nat in
            Ok (PyStr.slice 1 second_quote s,
                (second_quote + 1 + extra_garbage)%nat)
        end
  end.

(** ** The data model *)

(** [to_mm] and [from_mm]: nanometers to millimeters and back. *)
Definition to_mm (n : Q) : Q := (n / 1000000)%Q.
Definition from_mm (n : Q) : Q := (n * 1000000)%Q.

(** The options object [args] that [main] builds and every [Pin] keeps a
    reference to.  A compiled regular expression is the predicate
    [fun name => regex.match (name) is not None]. *)
Record Options : Type := {
  roundedpads : option string;
  rpexceptions : list (string -> bool);
  rcexceptions : list (string -> bool);
  strip_lmn_opt : bool;
  threedmap : option (list string);
  courtyard : option Q;
  hashtime : bool
}.

Record Pad : Type := {
  Shape : Z;
  Width : Z;
  Len1 : Z;
  Len2 : Z;
  CornRad : Z
}.

Record Pin : Type := {
  pin_opts : Options;
  ModName : string;
  PinName : string;
  DrillDiam : Z;
  Coords : Z * Z;
  Angle : Z;
  TopPad : option Pad;
  InnerPad : option Pad;
  BottomPad : option Pad
}.

Record Polyline : Type := {
  Points : list (Q * Q);
  Linewidth : option Q;
  Closed : bool;
  Layer : string;
  KicadLinewidth : Q
}.

Inductive Graphic : Type :=
| GPolyline (p : Polyline)
| GPin (p : Pin).

Record PCBmodule : Type := {
  ThreeDName : option string;
  ThreeDScale : list Q;
  ThreeDOffset : list Q;
  ThreeDRot : list Q;
  Name : string;
  Author : string;
  Source : string;
  Description : string;
  Units : option string;
  SelectionRect : option string;
  RefText : option string;
  ValText : string;
  Centroid : string;
  Graphics : list Graphic;
  tedit : Q
}.

Record Library : Type := {
  Modules : list PCBmodule
}.

(** Attribute assignments [self.X = v]. *)
Definition set_ThreeDName v (m : PCBmodule) : PCBmodule :=
  {| ThreeDName := v; ThreeDScale := ThreeDScale m;
     ThreeDOffset := ThreeDOffset m; ThreeDRot := ThreeDRot m;
     Name := Name m; Author := Author m; Source := Source m;
     Description := Description m; Units := Units m;
     SelectionRect := SelectionRect m; RefText := RefText m;
     ValText := ValText m; Centroid := Centroid m; Graphics := Graphics m;
     tedit := tedit m |}.

Definition set_ThreeDScale v (m : PCBmodule) : PCBmodule :=
  {| ThreeDName := ThreeDName m; ThreeDScale := v;
     ThreeDOffset := ThreeDOffset m; ThreeDRot := ThreeDRot m;
     Name := Name m; Author := Author m; Source := Source m;
     Description := Description m; Units := Units m;
     SelectionRect := SelectionRect m; RefText := RefText m;
     ValText := ValText m; Centroid := Centroid m; Graphics := Graphics m;
     tedit := tedit m |}.

Definition set_ThreeDOffset v (m : PCBmodule) : PCBmodule :=
  {| ThreeDName := ThreeDName m; ThreeDScale := ThreeDScale m;
     ThreeDOffset := v; ThreeDRot := ThreeDRot m;
     Name := Name m; Author := Author m; Source := Source m;
     Description := Description m; Units := Units m;
     SelectionRect := SelectionRect m; RefText := RefText m;
     ValText := ValText m; Centroid := Centroid m; Graphics := Graphics m;
     tedit := tedit m |}.

Definition set_ThreeDRot v (m : PCBmodule) : PCBmodule :=
  {| ThreeDName := ThreeDName m; ThreeDScale := ThreeDScale m;
     ThreeDOffset := ThreeDOffset m; ThreeDRot := v;
     Name := Name m; Author := Author m; Source := Source m;
     Description := Description m; Units := Units m;
     SelectionRect := SelectionRect m; RefText := RefText m;
     ValText := ValText m; Centroid := Centroid m; Graphics := Graphics m;
     tedit := tedit m |}.

Definition set_Name v (m : PCBmodule) : PCBmodule :=
  {| ThreeDName := ThreeDName m; ThreeDScale := ThreeDScale m;
     ThreeDOffset := ThreeDOffset m; ThreeDRot := ThreeDRot m;
     Name := v; Author := Author m; Source := Source m;
     Description := Description m; Units := Units m;
     SelectionRect := SelectionRect m; RefText := RefText m;
     ValText := ValText m; Centroid := Centroid m; Graphics := Graphics m;
     tedit := tedit m |}.

Definition set_Author v (m : PCBmodule) : PCBmodule :=
  {| ThreeDName := ThreeDName m; ThreeDScale := ThreeDScale m;
     ThreeDOffset := ThreeDOffset m; ThreeDRot := ThreeDRot m;
     Name := Name m; Author := v; Source := Source m;
     Description := Description m; Units := Units m;
     SelectionRect := SelectionRect m; RefText := RefText m;
     ValText := ValText m; Centroid := Centroid m; Graphics := Graphics m;
     tedit := tedit m |}.

Definition set_Source v (m : PCBmodule) : PCBmodule :=
  {| ThreeDName := ThreeDName m; ThreeDScale := ThreeDScale m;
     ThreeDOffset := ThreeDOffset m; ThreeDRot := ThreeDRot m;
     Name := Name m; Author := Author m; Source := v;
     Description := Description m; Units := Units m;
     SelectionRect := SelectionRect m; RefText := RefText m;
     ValText := ValText m; Centroid := Centroid m; Graphics := Graphics m;
     tedit := tedit m |}.

Definition set_Description v (m : PCBmodule) : PCBmodule :=
  {| ThreeDName := ThreeDName m; ThreeDScale := ThreeDScale m;
     ThreeDOffset := ThreeDOffset m; ThreeDRot := ThreeDRot m;
     Name := Name m; Author := Author m; Source := Source m;
     Description := v; Units := Units m;
     SelectionRect := SelectionRect m; RefText := RefText m;
     ValText := ValText m; Centroid := Centroid m; Graphics := Graphics m;
     tedit := tedit m |}.

Definition set_Units v (m : PCBmodule) : PCBmodule :=
  {| ThreeDName := ThreeDName m; ThreeDScale := ThreeDScale m;
     ThreeDOffset := ThreeDOffset m; ThreeDRot := ThreeDRot m;
     Name := Name m; Author := Author m; Source := Source m;
     Description := Description m; Units := v;
     SelectionRect := SelectionRect m; RefText := RefText m;
     ValText := ValText m; Centroid := Centroid m; Graphics := Graphics m;
     tedit := tedit m |}.

Definition set_SelectionRect v (m : PCBmodule) : PCBmodule :=
  {| ThreeDName := ThreeDName m; ThreeDScale := ThreeDScale m;
     ThreeDOffset := ThreeDOffset m; ThreeDRot := ThreeDRot m;
     Name := Name m; Author := Author m; Source := Source m;
     Description := Description m; Units := Units m;
     SelectionRect := v; RefText := RefText m;
     ValText := ValText m; Centroid := Centroid m; Graphics := Graphics m;
     tedit := tedit m |}.

Definition set_RefText v (m : PCBmodule) : PCBmodule :=
  {| ThreeDName := ThreeDName m; ThreeDScale := ThreeDScale m;
     ThreeDOffset := ThreeDOffset m; ThreeDRot := ThreeDRot m;
     Name := Name m; Author := Author m; Source := Source m;
     Description := Description m; Units := Units m;
     SelectionRect := SelectionRect m; RefText := v;
     ValText := ValText m; Centroid := Centroid m; Graphics := Graphics m;
     tedit := tedit m |}.

Definition set_ValText v (m : PCBmodule) : PCBmodule :=
  {| ThreeDName := ThreeDName m; ThreeDScale := ThreeDScale m;
     ThreeDOffset := ThreeDOffset m; ThreeDRot := ThreeDRot m;
     Name := Name m; Author := Author m; Source := Source m;
     Description := Description m; Units := Units m;
     SelectionRect := SelectionRect m; RefText := RefText m;
     ValText := v; Centroid := Centroid m; Graphics := Graphics m;
     tedit := tedit m |}.

Definition set_Centroid v (m : PCBmodule) : PCBmodule :=
  {| ThreeDName := ThreeDName m; ThreeDScale := ThreeDScale m;
     ThreeDOffset := ThreeDOffset m; ThreeDRot := ThreeDRot m;
     Name := Name m; Author := Author m; Source := Source m;
     Description := Description m; Units := Units m;
     SelectionRect := SelectionRect m; RefText := RefText m;
     ValText := ValText m; Centroid := v; Graphics := Graphics m;
     tedit := tedit m |}.

Definition set_Graphics v (m : PCBmodule) : PCBmodule :=
  {| ThreeDName := ThreeDName m; ThreeDScale := ThreeDScale m;
     ThreeDOffset := ThreeDOffset m; ThreeDRot := ThreeDRot m;
     Name := Name m; Author := Author m; Source := Source m;
     Description := Description m; Units := Units m;
     SelectionRect := SelectionRect m; RefText := RefText m;
     ValText := ValText m; Centroid := Centroid m; Graphics := v;
     tedit := tedit m |}.

Definition set_tedit v (m : PCBmodule) : PCBmodule :=
  {| ThreeDName := ThreeDName m; ThreeDScale := ThreeDScale m;
     ThreeDOffset := ThreeDOffset m; ThreeDRot := ThreeDRot m;
     Name := Name m; Author := Author m; Source := Source m;
     Description := Description m; Units := Units m;
     SelectionRect := SelectionRect m; RefText := RefText m;
     ValText := ValText m; Centroid := Centroid m; Graphics := Graphics m;
     tedit := v |}.

Definition set_Points v (p : Polyline) : Polyline :=
  {| Points := v; Linewidth := Linewidth p; Closed := Closed p;
     Layer := Layer p; KicadLinewidth := KicadLinewidth p |}.

Definition set_Closed v (p : Polyline) : Polyline :=
  {| Points := Points p; Linewidth := Linewidth p; Closed := v;
     Layer := Layer p; KicadLinewidth := KicadLinewidth p |}.

Definition set_TopPad v (p : Pin) : Pin :=
  {| pin_opts := pin_opts p; ModName := ModName p; PinName := PinName p;
     DrillDiam := DrillDiam p; Coords := Coords p; Angle := Angle p;
     TopPad := v; InnerPad := InnerPad p; BottomPad := BottomPad p |}.

Definition set_InnerPad v (p : Pin) : Pin :=
  {| pin_opts := pin_opts p; ModName := ModName p; PinName := PinName p;
     DrillDiam := DrillDiam p; Coords := Coords p; Angle := Angle p;
     TopPad := TopPad p; InnerPad := v; BottomPad := BottomPad p |}.

Definition set_BottomPad v (p : Pin) : Pin :=
  {| pin_opts := pin_opts p; ModName := ModName p; PinName := PinName p;
     DrillDiam := DrillDiam p; Coords := Coords p; Angle := Angle p;
     TopPad := TopPad p; InnerPad := InnerPad p; BottomPad := v |}.

(** ** [FreePCBfile]: the line reader

    [File] is the stack of the lines still to be read.  The program keeps it
    as a reversed Python list and reads [self.File[-1]]; here the head of the
    list is that last element, so [pop ()] removes the head. *)

Record FreePCBfile : Type := {
  File : list string;
  Lineno : Z
}.

Definition FreePCBfile_init (lines : list string) : FreePCBfile :=
  {| File := map PyStr.rstrip lines; Lineno := 1 |}.

Definition quoted (s : string) : string :=
  String PyStr.dquote (s ++ String PyStr.dquote EmptyString).

Definition is_blank (line : string) : bool := PyStr.is_empty (PyStr.strip line).

(** [while self.File and not self.File[-1].strip (): pop, Lineno += 1] *)
Fixpoint skip_blank (file : list string) (lineno : Z) : FreePCBfile :=
  match file with
  | line :: file' =>
      if is_blank line then skip_blank file' (lineno + 1)
      else {| File := file; Lineno := lineno |}
  | [] => {| File := []; Lineno := lineno |}
  end.

(** [allow_blank] is a parameter of the method, as in the source. *)
Definition get_string (allow_blank : bool) (f : FreePCBfile)
  : result ((string * string) * FreePCBfile) :=
  let f1 := skip_blank (File f) (Lineno f) in
  match File f1 with
  | [] => Raise AssertionError
  | line :: rest =>
      let lineno := (Lineno f1 + 1)%Z in
      let '(key, _, value) := PyStr.partition ":"%char line in
      let key := PyStr.strip key in
      let value := PyStr.strip value in
      value <-
        (if PyStr.startswith_char PyStr.dquote value
            && PyStr.endswith_char PyStr.dquote value
         then '(v, _) <- parse_string value ;; Ok v
         else Ok value) ;;
      if PyStr.is_empty value then
        Raise (Exception ("Line " ++ PyStr.of_Z (lineno - 1)
                          ++ ": expected value"))
      else Ok ((key, value), {| File := rest; Lineno := lineno |})
  end.

Fixpoint halfindents (line : string) : nat :=
  match line with
  | String c line' =>
      if Ascii.eqb c PyStr.tab then 2 + halfindents line'
      else if Ascii.eqb c " "%char then 1 + halfindents line'
      else 0
  | EmptyString => 0
  end.

Definition indent_level (f : FreePCBfile) : result nat :=
  match File f with
  | [] => Raise IndexError
  | line :: _ => Ok (halfindents line / 2)
  end.

Definition at_end (f : FreePCBfile) : bool * FreePCBfile :=
  let f1 := skip_blank (File f) (Lineno f) in
  (match File f1 with [] => true | _ => false end, f1).

Definition peek_key (f : FreePCBfile) : result string :=
  match File f with
  | [] => Raise AssertionError
  | line :: _ =>
      let '(key, _, _) := PyStr.partition ":"%char line in
      Ok (PyStr.strip key)
  end.

(** ** [while] loops

    A loop body answers [Continue] when the loop goes round again and
    [Break] when the loop condition was found false; in both cases it
    carries the variables of the loop. *)

Inductive control (S : Type) : Type :=
| Continue (s : S)
| Break (s : S).

Arguments Continue {S} s.
Arguments Break {S} s.

Fixpoint while {S : Type} (fuel : nat) (body : S -> result (control S))
    (s : S) : result S :=
  match fuel with
  | O => OutOfBudget
  | S fuel' =>
      c <- body s ;;
      match c with
      | Continue s' => while fuel' body s'
      | Break s' => Ok s'
      end
  end.

(** The budget of a loop over the reader: every round pops a line. *)
Definition budget (f : FreePCBfile) : nat := S (List.length (File f)).

(** ** Parsing: [Pad], [Pin], [Polyline], [PCBmodule], [Library] *)

Definition line_error (f : FreePCBfile) (what : string) : exn :=
  Exception ("Line " ++ PyStr.of_Z (Lineno f - 1) ++ " must contain a list of "
             ++ what ++ " integers.").

Definition key_error (key : string) (f : FreePCBfile) : exn :=
  Exception ("Unexpected key " ++ quoted key ++ " on line "
             ++ PyStr.of_Z (Lineno f - 1) ++ ".").

(** [Pad.__init__ (value, file_in)] *)
Definition Pad_init (value : string) (f : FreePCBfile) : result Pad :=
  match PyStr.ints (PyStr.split value) with
  | None => Raise (line_error f "four or five")
  | Some [a; b; c; d] =>
      Ok {| Shape := a; Width := b; Len1 := c; Len2 := d; CornRad := 0 |}
  | Some [a; b; c; d; e] =>
      Ok {| Shape := a; Width := b; Len1 := c; Len2 := d; CornRad := e |}
  | Some _ => Raise (line_error f "four or five")
  end.

(** One round of [while file_in.peek_key ().endswith ("_pad")] in
    [Pin.create_from_freepcb]. *)
Definition Pin_pad_step (s : Pin * FreePCBfile)
  : result (control (Pin * FreePCBfile)) :=
  let '(p, f) := s in
  k <- peek_key f ;;
  if negb (PyStr.endswith "_pad" k) then Ok (Break (p, f))
  else
    '((key, value), f1) <- get_string false f ;;
    if String.eqb key "top_pad" then
      pad <- Pad_init value f1 ;;
      Ok (Continue (set_TopPad (Some pad) p, f1))
    else if String.eqb key "inner_pad" then
      pad <- Pad_init value f1 ;;
      Ok (Continue (set_InnerPad (Some pad) p, f1))
    else if String.eqb key "bottom_pad" then
      pad <- Pad_init value f1 ;;
      Ok (Continue (set_BottomPad (Some pad) p, f1))
    else Raise (key_error key f1).

Definition Pin_create_from_freepcb (modname : string) (opts : Options)
    (f : FreePCBfile) : result (Pin * FreePCBfile) :=
  '((key, value), f1) <- get_string false f ;;
  _ <- py_assert (String.eqb key "pin") ;;
  '(name, length) <- parse_string value ;;
  let value := PyStr.drop length value in
  match PyStr.ints (PyStr.split value) with
  | Some [drill; x; y; angle] =>
      let p := {| pin_opts := opts; ModName := modname; PinName := name;
                  DrillDiam := drill; Coords := (x, y); Angle := angle;
                  TopPad := None; InnerPad := None; BottomPad := None |} in
      while (budget f1) Pin_pad_step (p, f1)
  | _ => Raise (line_error f1 "four")
  end.

(** One round of [while file_in.peek_key () == "next_corner"] in
    [Polyline.create_from_freepcb]. *)
Definition Polyline_corner_step (s : Polyline * FreePCBfile)
  : result (control (Polyline * FreePCBfile)) :=
  let '(p, f) := s in
  k <- peek_key f ;;
  if negb (String.eqb k "next_corner") then Ok (Break (p, f))
  else
    '((key, value), f1) <- get_string false f ;;
    _ <- py_assert (String.eqb key "next_corner") ;;
    match PyStr.ints (PyStr.split value) with
    | Some [x; y; _] =>
        Ok (Continue
              (set_Points (Points p ++ [(inject_Z x, inject_Z y)])%list p, f1))
    | _ => Raise (line_error f1 "three")
    end.

Definition Polyline_create_from_freepcb (opts : Options) (f : FreePCBfile)
  : result (Polyline * FreePCBfile) :=
  '((key, value), f1) <- get_string false f ;;
  _ <- py_assert (String.eqb key "outline_polyline") ;;
  match PyStr.ints (PyStr.split value) with
  | Some [_; x; y] =>
      let p := {| Points := [(inject_Z x, inject_Z y)];
                  Linewidth := Some (15 # 100)%Q; Closed := false;
                  Layer := "F.SilkS"; KicadLinewidth := (15 # 100)%Q |} in
      '(p, f2) <- while (budget f1) Polyline_corner_step (p, f1) ;;
      k <- peek_key f2 ;;
      if String.eqb k "close_polyline" then
        '(_, f3) <- get_string false f2 ;;
        match Points p with
        | first :: _ =>
            Ok (set_Points (Points p ++ [first])%list (set_Closed true p), f3)
        | [] => Raise IndexError
        end
      else Ok (p, f2)
  | _ => Raise (line_error f1 "three")
  end.

(** The attribute values [PCBmodule.__init__] starts from.  [tedit] is
    assigned last, from the clock. *)
Definition PCBmodule_new : PCBmodule :=
  {| ThreeDName := None;
     ThreeDScale := [1%Q; 1%Q; 1%Q];
     ThreeDOffset := [0%Q; 0%Q; 0%Q];
     ThreeDRot := [0%Q; 0%Q; 0%Q];
     Name := EmptyString; Author := EmptyString; Source := EmptyString; Description := EmptyString;
     Units := None; SelectionRect := None; RefText := None;
     ValText := EmptyString; Centroid := "0 0 0 0"; Graphics := [];
     tedit := 0%Q |}.

(** Pre-indent data: one round of
    [while not file_in.indent_level () and not file_in.at_end ()]. *)
Definition header_step (s : PCBmodule * FreePCBfile)
  : result (control (PCBmodule * FreePCBfile)) :=
  let '(m, f) := s in
  lvl <- indent_level f ;;
  if negb (lvl =? 0)%nat then Ok (Break (m, f))
  else
    let '(e, f0) := at_end f in
    if e then Ok (Break (m, f0))
    else
      '((key, value), f1) <- get_string false f0 ;;
      if String.eqb key "name" then Ok (Continue (set_Name value m, f1))
      else if String.eqb key "author" then
        Ok (Continue (set_Author value m, f1))
      else if String.eqb key "source" then
        Ok (Continue (set_Source value m, f1))
      else if String.eqb key "description" then
        Ok (Continue (set_Description value m, f1))
      else Raise (key_error key f1).

(** Post-indent data: one round of
    [while file_in.indent_level () and not file_in.at_end ()]. *)
Definition body_step (opts : Options) (s : PCBmodule * FreePCBfile)
  : result (control (PCBmodule * FreePCBfile)) :=
  let '(m, f) := s in
  lvl <- indent_level f ;;
  if (lvl =? 0)%nat then Ok (Break (m, f))
  else
    let '(e, f0) := at_end f in
    if e then Ok (Break (m, f0))
    else
      key <- peek_key f0 ;;
      if String.eqb key "units" then
        '((_, value), f1) <- get_string false f0 ;;
        Ok (Continue (set_Units (Some value) m, f1))
      else if String.eqb key "sel_rect" then
        '((_, value), f1) <- get_string false f0 ;;
        Ok (Continue (set_SelectionRect (Some value) m, f1))
      else if String.eqb key "ref_text" then
        '((_, value), f1) <- get_string false f0 ;;
        Ok (Continue (set_RefText (Some value) m, f1))
      else if String.eqb key "value_text" then
        '((_, value), f1) <- get_string false f0 ;;
        Ok (Continue (set_ValText value m, f1))
      else if String.eqb key "centroid" then
        '((_, value), f1) <- get_string false f0 ;;
        Ok (Continue (set_Centroid value m, f1))
      else if String.eqb key "outline_polyline" then
        '(p, f1) <- Polyline_create_from_freepcb opts f0 ;;
        Ok (Continue (set_Graphics (Graphics m ++ [GPolyline p])%list m, f1))
      else if String.eqb key "n_pins" then
        '(_, f1) <- get_string true f0 ;;
        Ok (Continue (m, f1))
      else if String.eqb key "pin" then
        '(p, f1) <- Pin_create_from_freepcb (Name m) opts f0 ;;
        Ok (Continue (set_Graphics (Graphics m ++ [GPin p])%list m, f1))
      else Raise (key_error key f0).

Definition opt_string_eqb (o : option string) (s : string) : bool :=
  match o with
  | Some v => String.eqb v s
  | None => false
  end.

(** The truth value of an optional string: [None] and the empty string are
    false. *)
Definition opt_truthy (o : option string) : bool :=
  match o with
  | Some v => negb (PyStr.is_empty v)
  | None => false
  end.

(** [PCBmodule.__init__ (file_in, opts)]; [now] is the value [time.time ()]
    returns when the constructor reaches its last statement. *)
Definition PCBmodule_init (opts : Options) (now : Q) (f : FreePCBfile)
  : result (PCBmodule * FreePCBfile) :=
  '(m, f1) <- while (budget f) header_step (PCBmodule_new, f) ;;
  _ <- py_assert (negb (PyStr.is_empty (Name m))) ;;
  _ <- py_assert (negb (PyStr.is_empty (Author m))) ;;
  _ <- py_assert (negb (PyStr.is_empty (Source m))) ;;
  '(m, f2) <- while (budget f1) (body_step opts) (m, f1) ;;
  _ <- py_assert (opt_string_eqb (Units m) "NM") ;;
  _ <- py_assert (opt_truthy (SelectionRect m)) ;;
  _ <- py_assert (opt_truthy (RefText m)) ;;
  _ <- py_assert (String.eqb (Centroid m) "0 0 0 0") ;;
  Ok (set_tedit now m, f2).

(** [Library.__init__ (file_in, opts)]: one round of
    [while not file_in.at_end (): self.Modules.append (PCBmodule (...))].
    [clock i] is the reading of [time.time ()] taken by the constructor of
    the module with index [i]; [i] counts the modules already appended. *)
Definition Library_step (opts : Options) (clock : nat -> Q)
    (s : list PCBmodule * FreePCBfile)
  : result (control (list PCBmodule * FreePCBfile)) :=
  let '(mods, f) := s in
  let '(e, f0) := at_end f in
  if e then Ok (Break (mods, f0))
  else
    '(m, f1) <- PCBmodule_init opts (clock (List.length mods)) f0 ;;
    Ok (Continue ((mods ++ [m])%list, f1)).

Definition Library_init (f : FreePCBfile) (opts : Options)
    (clock : nat -> Q) : result Library :=
  '(mods, _) <- while (budget f) (Library_step opts clock) ([], f) ;;
  Ok {| Modules := mods |}.

(** [Library ()] *)
Definition Library_empty : Library := {| Modules := [] |}.

(** [Library.__iadd__]: the duplicate scan, then [extend]. *)
Fixpoint find_dup_in (i : PCBmodule) (others : list PCBmodule)
  : option string :=
  match others with
  | [] => None
  | j :: others' =>
      if String.eqb (Name i) (Name j) then Some (Name i)
      else find_dup_in i others'
  end.

Fixpoint find_dup (mine others : list PCBmodule) : option string :=
  match mine with
  | [] => None
  | i :: mine' =>
      match find_dup_in i others with
      | Some n => Some n
      | None => find_dup mine' others
      end
  end.

Definition Library_iadd (self other : Library) : result Library :=
  match find_dup (Modules self) (Modules other) with
  | Some n => Raise (Exception ("Duplicate module name " ++ quoted n))
  | None => Ok {| Modules := (Modules self ++ Modules other)%list |}
  end.

(** [PCBmodule.strip_lmn] and [Library.strip_lmn] *)
Definition PCBmodule_strip_lmn (m : PCBmodule) : result PCBmodule :=
  match PyStr.last_char (Name m) with
  | None => Raise IndexError
  | Some c =>
      if PyStr.mem c "LMNlmn" then Ok (set_Name (PyStr.drop_last (Name m)) m)
      else Ok m
  end.

Fixpoint Library_strip_lmn_list (l : list PCBmodule)
  : result (list PCBmodule) :=
  match l with
  | [] => Ok []
  | m :: l' =>
      m' <- PCBmodule_strip_lmn m ;;
      l'' <- Library_strip_lmn_list l' ;;
      Ok (m' :: l'')
  end.

Definition Library_strip_lmn (lib : Library) : result Library :=
  l <- Library_strip_lmn_list (Modules lib) ;;
  Ok {| Modules := l |}.

(** ** Bounding boxes and the courtyard pass *)

Definition Qltb (x y : Q) : bool := negb (Qle_bool y x).

(** [min (l)] and [max (l)]: the first smallest (largest) element;
    [ValueError] on an empty sequence. *)
Definition py_min (l : list Q) : result Q :=
  match l with
  | [] => Raise ValueError
  | x :: l' => Ok (fold_left (fun cur y => if Qltb y cur then y else cur) l' x)
  end.

Definition py_max (l : list Q) : result Q :=
  match l with
  | [] => Raise ValueError
  | x :: l' => Ok (fold_left (fun cur y => if Qltb cur y then y else cur) l' x)
  end.

(** A box is [(left, right, top, bottom)]. *)
Definition box : Type := Q * Q * Q * Q.

Definition Polyline_bounding_box (p : Polyline) : result box :=
  x_min <- py_min (map fst (Points p)) ;;
  x_max <- py_max (map fst (Points p)) ;;
  y_max <- py_max (map snd (Points p)) ;;
  y_min <- py_min (map snd (Points p)) ;;
  Ok (x_min, x_max, y_max, y_min).

(** [sx, sy = self.TopPad.Width, self.TopPad.Len1 + self.TopPad.Len2],
    swapped when the angle is 90, with [assert self.Angle == 0] otherwise. *)
Definition Pin_size (p : Pin) : result (Z * Z) :=
  match TopPad p with
  | None => Raise AttributeError
  | Some pad =>
      let sx := Width pad in
      let sy := (Len1 pad + Len2 pad)%Z in
      if (Angle p =? 90)%Z then Ok (sy, sx)
      else _ <- py_assert (Angle p =? 0)%Z ;; Ok (sx, sy)
  end.

Definition Pin_bounding_box (p : Pin) : result box :=
  '(sx, sy) <- Pin_size p ;;
  let x := inject_Z (fst (Coords p)) in
  let y := inject_Z (snd (Coords p)) in
  Ok ((x - inject_Z sy / 2)%Q, (x + inject_Z sy / 2)%Q,
      (y + inject_Z sx / 2)%Q, (y - inject_Z sx / 2)%Q).

Definition Graphic_bounding_box (g : Graphic) : result box :=
  match g with
  | GPolyline p => Polyline_bounding_box p
  | GPin p => Pin_bounding_box p
  end.

(** [[i.bounding_box () for i in self.Graphics]] *)
Fixpoint sub_boxes (l : list Graphic) : result (list box) :=
  match l with
  | [] => Ok []
  | g :: l' =>
      b <- Graphic_bounding_box g ;;
      bs <- sub_boxes l' ;;
      Ok (b :: bs)
  end.

Definition PCBmodule_bounding_box (m : PCBmodule) : result box :=
  bs <- sub_boxes (Graphics m) ;;
  let lefts := map (fun b : box => let '(l, _, _, _) := b in l) bs in
  let rights := map (fun b : box => let '(_, r, _, _) := b in r) bs in
  let tops := map (fun b : box => let '(_, _, t, _) := b in t) bs in
  let bottoms := map (fun b : box => let '(_, _, _, b) := b in b) bs in
  x_min <- py_min lefts ;;
  x_max <- py_max rights ;;
  y_max <- py_max tops ;;
  y_min <- py_min bottoms ;;
  Ok (x_min, x_max, y_max, y_min).

(** The polyline [add_courtyard] builds. *)
Definition courtyard_polyline (l r t b : Q) : Polyline :=
  {| Points := [(l, t); (r, t); (r, b); (l, b); (l, t)];
     Linewidth := None; Closed := false; Layer := "F.CrtYd";
     KicadLinewidth := (5 # 100)%Q |}.

Definition PCBmodule_add_courtyard (spacing : Q) (m : PCBmodule)
  : result PCBmodule :=
  '(l, r, t, b) <- PCBmodule_bounding_box m ;;
  let l := (l - from_mm spacing)%Q in
  let r := (r + from_mm spacing)%Q in
  let t := (t + from_mm spacing)%Q in
  let b := (b - from_mm spacing)%Q in
  let cy := courtyard_polyline l r t b in
  Ok (set_Graphics (Graphics m ++ [GPolyline cy])%list m).

(** ** The expression emitter *)

#[warnings="-register-all"]
Inductive sexp : Type :=
| Sym (s : string)
| Str (s : string)
| Int (z : Z)
| Float (q : Q)
| SList (l : list sexp).

Definition Polyline_segment (p : Polyline) (a b : Q * Q) : sexp :=
  SList [Sym "fp_line";
         SList [Sym "start"; Float (to_mm (fst a)); Float (to_mm (- snd a))];
         SList [Sym "end"; Float (to_mm (fst b)); Float (to_mm (- snd b))];
         SList [Sym "layer"; Str (Layer p)];
         SList [Sym "width"; Float (KicadLinewidth p)]].

Fixpoint Polyline_segments (p : Polyline) (last_corner : Q * Q)
    (rest : list (Q * Q)) : list sexp :=
  match rest with
  | [] => []
  | i :: rest' => Polyline_segment p last_corner i :: Polyline_segments p i rest'
  end.

Definition Polyline_kicad_sexp (p : Polyline) : result (list sexp) :=
  match Points p with
  | [] => Raise IndexError
  | last_corner :: rest => Ok (Polyline_segments p last_corner rest)
  end.

(** [can_round_pads] and [can_round_center]: no expression of the list
    matches the module name. *)
Definition can_round (exceptions : list (string -> bool)) (modname : string)
  : bool :=
  negb (existsb (fun regex => regex modname) exceptions).

Definition Pin_smd_shape (p : Pin) : result string :=
  let can_round_pads := can_round (rpexceptions (pin_opts p)) (ModName p) in
  let can_round_center := can_round (rcexceptions (pin_opts p)) (ModName p) in
  match roundedpads (pin_opts p) with
  | None => Ok "rect"
  | Some mode =>
      if negb can_round_center
         && ((fst (Coords p) =? 0)%Z && (snd (Coords p) =? 0)%Z)
      then Ok "rect"
      else if String.eqb mode "all" then
        Ok (if can_round_pads then "oval" else "rect")
      else if String.eqb mode "allbut1" then
        if can_round_pads then
          Ok (if String.eqb (PinName p) "1" then "rect" else "oval")
        else Ok "rect"
      else Raise AssertionError
  end.

Definition Pin_kicad_sexp (p : Pin) : result (list sexp) :=
  if (DrillDiam p =? 0)%Z then
    '(sx, sy) <- Pin_size p ;;
    shape <- Pin_smd_shape p ;;
    Ok [SList [Sym "pad"; Str (PinName p); Sym "smd"; Sym shape;
               SList [Sym "at"; Float (to_mm (inject_Z (fst (Coords p))));
                      Float (- to_mm (inject_Z (snd (Coords p))))];
               SList [Sym "size"; Float (to_mm (inject_Z sy));
                      Float (to_mm (inject_Z sx))];
               SList [Sym "layers"; Str "F.Cu"; Str "F.Paste"; Str "F.Mask"]]]
  else
    '(sx, sy) <- Pin_size p ;;
    let shape := if String.eqb (PinName p) "1" then "rect" else "circle" in
    Ok [SList [Sym "pad"; Str (PinName p); Sym "thru_hole"; Sym shape;
               SList [Sym "at"; Float (to_mm (inject_Z (fst (Coords p))));
                      Float (- to_mm (inject_Z (snd (Coords p))))];
               SList [Sym "size"; Float (to_mm (inject_Z sy));
                      Float (to_mm (inject_Z sx))];
               SList [Sym "drill"; Float (to_mm (inject_Z (DrillDiam p)))];
               SList [Sym "layers"; Str "*.Cu"; Str "*.Mask"]]].

(** [int (x)] of a float: truncation toward zero. *)
Definition py_int_of_float (q : Q) : Z := Z.quot (Qnum q) (Zpos (Qden q)).

(** ["%08X" % n] *)
Definition hex_digit (n : N) : ascii :=
  if (n <? 10)%N then ascii_of_N (48 + n) else ascii_of_N (55 + n).

Fixpoint hex_of_N (fuel : nat) (n : N) (acc : string) : string :=
  match fuel with
  | O => acc
  | S fuel' =>
      let acc := String (hex_digit (n mod 16)) acc in
      if (n / 16 =? 0)%N then acc else hex_of_N fuel' (n / 16) acc
  end.

Fixpoint zeros (n : nat) : string :=
  match n with
  | O => EmptyString
  | S n' => String "0"%char (zeros n')
  end.

Definition format_08X (z : Z) : string :=
  let digits := hex_of_N (S (N.to_nat (N.log2 (Z.abs_N z)))) (Z.abs_N z) EmptyString in
  if (z <? 0)%Z then
    "-" ++ zeros (7 - String.length digits) ++ digits
  else zeros (8 - String.length digits) ++ digits.

Definition font (size thickness : Q) : sexp :=
  SList [Sym "effects";
         SList [Sym "font";
                SList [Sym "size"; Float size; Float size];
                SList [Sym "thickness"; Float thickness]]].

(** The two loops of [PCBmodule.kicad_sexp] over [self.Graphics]. *)
Fixpoint polylines_sexp (l : list Graphic) : result (list sexp) :=
  match l with
  | [] => Ok []
  | GPolyline p :: l' =>
      s <- Polyline_kicad_sexp p ;;
      r <- polylines_sexp l' ;;
      Ok (s ++ r)%list
  | GPin _ :: l' => polylines_sexp l'
  end.

Fixpoint pins_sexp (l : list Graphic) : result (list sexp) :=
  match l with
  | [] => Ok []
  | GPin p :: l' =>
      s <- Pin_kicad_sexp p ;;
      r <- pins_sexp l' ;;
      Ok (s ++ r)%list
  | GPolyline _ :: l' => pins_sexp l'
  end.

Definition xyz (v : list Q) : sexp := SList (Sym "xyz" :: map Float v).

Definition PCBmodule_kicad_sexp (m : PCBmodule) : result (list sexp) :=
  let head :=
    [Sym "module";
     Str (Name m);
     SList [Sym "layer"; Str "F.Cu"];
     SList [Sym "tedit"; Str (format_08X (py_int_of_float (tedit m)))];
     SList [Sym "descr"; Str (Description m)];
     SList [Sym "attr"; Sym "smd"];
     SList [Sym "fp_text"; Sym "reference"; Str "REF**";
            SList [Sym "at"; Int 0; Int 0];
            SList [Sym "layer"; Str "F.SilkS"];
            font (8 # 10)%Q (15 # 100)%Q];
     SList [Sym "fp_text"; Sym "value"; Str (Name m);
            SList [Sym "at"; Int 0; Int 0];
            SList [Sym "layer"; Str "F.Fab"];
            font (5 # 10)%Q (1 # 10)%Q]] in
  lines <- polylines_sexp (Graphics m) ;;
  pads <- pins_sexp (Graphics m) ;;
  let model :=
    match ThreeDName m with
    | Some name =>
        [SList [Sym "model"; Str name;
                SList [Sym "at"; xyz (ThreeDOffset m)];
                SList [Sym "scale"; xyz (ThreeDScale m)];
                SList [Sym "rotate"; xyz (ThreeDRot m)]]]
    | None => []
    end in
  Ok (head ++ lines ++ pads ++ model)%list.

(** ** Serialization, the 3D map, the hash pass and [main]

    The Python library functions the program calls are the variables of the
    section: [float] applied to a string ([None] for [ValueError]), [repr] of
    a float and of a string, and the MD5 digest of a byte string. *)

Section Program.

Variable py_float : string -> option Q.
Variable float_repr : Q -> string.
Variable str_repr : string -> string.
Variable md5 : string -> string.

(** [s.encode ("unicode_escape").decode ("ascii")] *)
Definition hex2 (n : N) : string :=
  let d := fun k : N =>
    if (k <? 10)%N then ascii_of_N (48 + k) else ascii_of_N (87 + k) in
  String (d (n / 16)%N) (String (d (n mod 16)%N) EmptyString).

Definition escape_char (c : ascii) : string :=
  let n := N_of_ascii c in
  if Ascii.eqb c PyStr.backslash then
    String PyStr.backslash (String PyStr.backslash EmptyString)
  else if (n =? 9)%N then String PyStr.backslash "t"
  else if (n =? 10)%N then String PyStr.backslash "n"
  else if (n =? 13)%N then String PyStr.backslash "r"
  else if ((n <? 32) || (127 <=? n))%N then
    String PyStr.backslash ("x" ++ hex2 n)
  else String c EmptyString.

Fixpoint unicode_escape (s : string) : string :=
  match s with
  | EmptyString => EmptyString
  | String c s' => escape_char c ++ unicode_escape s'
  end.

(** [SexpDump (sexp, f)]: the text written to [f]. *)
Fixpoint SexpDump (x : sexp) : string :=
  match x with
  | SList l =>
      "(" ++ PyStr.join " " ((fix dump_all (l : list sexp) : list string :=
                                match l with
                                | [] => []
                                | i :: l' => SexpDump i :: dump_all l'
                                end) l) ++ ")"
  | Str s =>
      String PyStr.dquote (unicode_escape s ++ String PyStr.dquote EmptyString)
  | Sym s => s
  | Int z => PyStr.of_Z z
  | Float q => float_repr q
  end.

(** [str (x)] of an expression tree: [repr] of every element. *)
Fixpoint sexp_repr (x : sexp) : string :=
  match x with
  | SList l =>
      "[" ++ PyStr.join ", " ((fix repr_all (l : list sexp) : list string :=
                                 match l with
                                 | [] => []
                                 | i :: l' => sexp_repr i :: repr_all l'
                                 end) l) ++ "]"
  | Str s => str_repr s
  | Sym s => "SexpSymbol(" ++ str_repr s ++ ")"
  | Int z => PyStr.of_Z z
  | Float q => float_repr q
  end.

(** [s.encode ('utf8')] for code points below 256. *)
Fixpoint utf8 (s : string) : string :=
  match s with
  | EmptyString => EmptyString
  | String c s' =>
      let n := N_of_ascii c in
      if (n <? 128)%N then String c (utf8 s')
      else String (ascii_of_N (192 + n / 64))
             (String (ascii_of_N (128 + n mod 64)) (utf8 s'))
  end.

(** [struct.unpack ("<L", b)[0]] *)
Definition unpack_le32 (b : string) : result Z :=
  match b with
  | String b0 (String b1 (String b2 (String b3 EmptyString))) =>
      Ok (Z.of_N (N_of_ascii b0 + 256 * (N_of_ascii b1
          + 256 * (N_of_ascii b2 + 256 * N_of_ascii b3))))
  | _ => Raise StructError
  end.

(** The body of the [--hash-time] loop of [main], for one module. *)
Definition hash_time (m : PCBmodule) : result PCBmodule :=
  let m := set_tedit 0%Q m in
  x <- PCBmodule_kicad_sexp m ;;
  let md5sum := md5 (utf8 (sexp_repr (SList x))) in
  t <- unpack_le32 (PyStr.take 4 md5sum) ;;
  Ok (set_tedit (inject_Z t) m).

(** [for i in l: i = g (i)] with the first exception ending the loop. *)
Fixpoint for_each (g : PCBmodule -> result PCBmodule) (l : list PCBmodule)
  : result (list PCBmodule) :=
  match l with
  | [] => Ok []
  | m :: l' =>
      m' <- g m ;;
      l'' <- for_each g l' ;;
      Ok (m' :: l'')
  end.

(** *** [process_3dmap] *)

(** [l[index] = v] with Python's negative indices. *)
Fixpoint list_set (i : nat) (v : Q) (l : list Q) : list Q :=
  match l, i with
  | [], _ => []
  | _ :: l', O => v :: l'
  | x :: l', S i' => x :: list_set i' v l'
  end.

Definition py_setitem (l : list Q) (index : Z) (v : Q) : result (list Q) :=
  let n := Z.of_nat (List.length l) in
  let i := if (index <? 0)%Z then (index + n)%Z else index in
  if ((i <? 0) || (n <=? i))%Z then Raise IndexError
  else Ok (list_set (Z.to_nat i) v l).

(** [ord (key[3]) - ord ('x')] *)
Definition axis_index (key : string) : result Z :=
  match String.get 3 key with
  | None => Raise IndexError
  | Some c => Ok (Z.of_nat (nat_of_ascii c) - 120)%Z
  end.

(** The position in [library.Modules] of the first module called [name]:
    the object [current_module] is bound to. *)
Fixpoint find_module (name : string) (l : list PCBmodule) : option nat :=
  match l with
  | [] => None
  | i :: l' =>
      if String.eqb (Name i) name then Some O
      else option_map S (find_module name l')
  end.

(** An assignment through the reference [current_module]: the module at
    position [i] of the library is replaced by its updated value. *)
Fixpoint with_module (i : nat) (g : PCBmodule -> result PCBmodule)
    (l : list PCBmodule) : result (list PCBmodule) :=
  match l, i with
  | [], _ => Ok []
  | m :: l', O => m' <- g m ;; Ok (m' :: l')
  | m :: l', S i' => l'' <- with_module i' g l' ;; Ok (m :: l'')
  end.

Definition map_error (f : FreePCBfile) (what : string) : exn :=
  Exception ("3D map (line " ++ PyStr.of_Z (Lineno f - 1) ++ "): " ++ what).

Definition no_module (f : FreePCBfile) : exn :=
  map_error f "cannot specify parameters before module name".

(** One vector assignment, [current_module.V[index] = float (value)]. *)
Definition set_axis (get : PCBmodule -> list Q)
    (set : list Q -> PCBmodule -> PCBmodule) (key value : string)
    (m : PCBmodule) : result PCBmodule :=
  index <- axis_index key ;;
  match py_float value with
  | None => Raise ValueError
  | Some v =>
      vec <- py_setitem (get m) index v ;;
      Ok (set vec m)
  end.

Definition map_state : Type := list PCBmodule * option nat * FreePCBfile.

(** One round of [while not ff.at_end ()] in [process_3dmap].  The second
  component of the state is [current_module]. *)
Definition map_step (s : map_state) : result (control map_state) :=
let '(mods, current_module, ff) := s in
let '(e, f0) := at_end ff in
if e then Ok (Break (mods, current_module, f0))
else
  '((key, value), f1) <- get_string false f0 ;;
  if String.eqb key "mod" then
    match find_module value mods with
    | Some i => Ok (Continue (mods, Some i, f1))
    | None => Raise (map_error f1 ("couldn't find module " ++ quoted value))
    end
  else
    let assign := fun g =>
      match current_module with
      | None => Raise (no_module f1)
      | Some i =>
          mods' <- with_module i g mods ;;
          Ok (Continue (mods', current_module, f1))
      end in
    if String.eqb key "3dmod" then
      assign (fun m => Ok (set_ThreeDName (Some value) m))
    else if PyStr.startswith "rot" key then
      assign (set_axis ThreeDRot set_ThreeDRot key value)
    else if PyStr.startswith "sca" key then
      assign (set_axis ThreeDScale set_ThreeDScale key value)
    else if PyStr.startswith "off" key then
      assign (set_axis ThreeDOffset set_ThreeDOffset key value)
    else Raise (map_error f1 ("unknown key " ++ quoted key)).

(** [process_3dmap (mapfile, library)]; [mapfile] is given by its lines. *)
Definition process_3dmap (mapfile : list string) (library : Library)
: result Library :=
let ff := FreePCBfile_init mapfile in
'(mods, _, _) <- while (budget ff) map_step (Modules library, None, ff) ;;
Ok {| Modules := mods |}.

(** *** [main] *)

(** The loading loop: every input file is parsed and merged.  [clock k i]
    is the time read while the module [i] of the file [k] is built. *)
Fixpoint load (opts : Options) (infiles : list (list string))
    (clock : nat -> nat -> Q) (k : nat) (library : Library)
  : result Library :=
  match infiles with
  | [] => Ok library
  | lines :: infiles' =>
      sublibrary <- Library_init (FreePCBfile_init lines) opts (clock k) ;;
      library <- Library_iadd library sublibrary ;;
      load opts infiles' clock (S k) library
  end.

Definition when {A} (b : bool) (g : A -> result A) (a : A) : result A :=
  if b then g a else Ok a.

Definition on_modules (g : PCBmodule -> result PCBmodule) (lib : Library)
  : result Library :=
  l <- for_each g (Modules lib) ;; Ok {| Modules := l |}.

(** Everything [main] does before it writes the first file. *)
Definition convert (opts : Options) (infiles : list (list string))
    (clock : nat -> nat -> Q) : result Library :=
  library <- load opts infiles clock 0 Library_empty ;;
  library <- when (strip_lmn_opt opts) Library_strip_lmn library ;;
  library <-
    match threedmap opts with
    | Some mapfile => process_3dmap mapfile library
    | None => Ok library
    end ;;
  library <-
    match courtyard opts with
    | Some spacing => on_modules (PCBmodule_add_courtyard spacing) library
    | None => Ok library
    end ;;
  when (hashtime opts) (on_modules hash_time) library.

(** The generating loop: the files written, as (name, text) pairs in the
    order of writing, and how the loop ended.  A file is opened before its
    module is converted, so a failing module leaves an empty file. *)
Fixpoint generate (l : list PCBmodule)
  : list (string * string) * result unit :=
  match l with
  | [] => ([], Ok tt)
  | i :: l' =>
      match PCBmodule_kicad_sexp i with
      | Ok x =>
          let '(files, r) := generate l' in
          ((Name i ++ ".kicad_mod", SexpDump (SList x)) :: files, r)
      | Raise e => ([(Name i ++ ".kicad_mod", EmptyString)], Raise e)
      | OutOfBudget => ([], OutOfBudget)
      end
  end.

Definition main (opts : Options) (infiles : list (list string))
    (clock : nat -> nat -> Q) : list (string * string) * result unit :=
  match convert opts infiles clock with
  | Ok library => generate (Modules library)
  | Raise e => ([], Raise e)
  | OutOfBudget => ([], OutOfBudget)
  end.

End Program.

(** * Definitions for the statements

    What the theorems below are stated with: the policies and relations
    read off the specification, and the inputs of the examples. *)

(** The number of whitespace characters a string starts with. *)
Fixpoint leading_space (s : string) : nat :=
  match s with
  | String c s' => if PyStr.is_space c then S (leading_space s') else 0
  | EmptyString => 0
  end.

Definition lmn_letter (c : ascii) : bool :=
  existsb (Ascii.eqb c) ["L"; "M"; "N"; "l"; "m"; "n"]%char.


Definition parse_string_unquoted_claim (s : string) : Prop :=
  forall tok rest,
    s = tok ++ String " " rest -> PyStr.mem " " tok = false ->
    PyStr.startswith_char PyStr.dquote s = false ->
    parse_string s = Ok (tok, String.length tok + 1).





Definition scenario_opts : Options :=
  {| roundedpads := Some "all"; rpexceptions := []; rcexceptions := [];
     strip_lmn_opt := false; threedmap := None; courtyard := None;
     hashtime := false |}.

Definition scenario_pin : Pin :=
  {| pin_opts := scenario_opts; ModName := "R0603"; PinName := "1";
     DrillDiam := 0; Coords := (0, 0)%Z; Angle := 0;
     TopPad := Some {| Shape := 1; Width := 500000; Len1 := 250000;
                       Len2 := 250000; CornRad := 0 |};
     InnerPad := None; BottomPad := None |}.


Definition square_outline : Polyline :=
  {| Points := [(0, 0); (1000000, 0); (1000000, 1000000); (0, 1000000);
                (0, 0)]%Q;
     Linewidth := Some (15 # 100)%Q; Closed := true; Layer := "F.SilkS";
     KicadLinewidth := (15 # 100)%Q |}.

Definition square_module : PCBmodule :=
  set_Graphics [GPolyline square_outline] (set_Name "SQ" PCBmodule_new).

(** Results related by [R], their exceptions by [Re]. *)
Definition rel_result {A B} (Re : exn -> exn -> Prop) (R : A -> B -> Prop)
    (r1 : result A) (r2 : result B) : Prop :=
  match r1, r2 with
  | Ok a, Ok b => R a b
  | Raise e1, Raise e2 => Re e1 e2
  | OutOfBudget, OutOfBudget => True
  | _, _ => False
  end.

Definition rel_control {A B} (R : A -> B -> Prop) (c1 : control A)
    (c2 : control B) : Prop :=
  match c1, c2 with
  | Continue a, Continue b => R a b
  | Break a, Break b => R a b
  | _, _ => False
  end.

Definition remaining (f : FreePCBfile) : nat := List.length (File f).

Definition left_of {A} (s : A * FreePCBfile) : nat := remaining (snd s).

(** A library of one module, called M, as the parser leaves it. *)
Definition module_M : PCBmodule := set_Name "M" PCBmodule_new.

Definition library_M : Library := {| Modules := [module_M] |}.

Definition module_N : PCBmodule := set_Name "N" PCBmodule_new.

Definition library_N : Library := {| Modules := [module_N] |}.

(** The key of a line: what [peek_key] answers when the line is current. *)
Definition key_of (line : string) : string :=
  let '(key, _, _) := PyStr.partition ":"%char line in PyStr.strip key.

(** The exception that ends a parse whose input stops right after the
    record [last]: the readers of polylines and pins look ahead with
    [peek_key], which asserts that a line remains; everything else comes
    back to a loop that asks [indent_level] first. *)
Definition end_error (last : string) : exn :=
  let k := key_of last in
  if String.eqb k "outline_polyline" || String.eqb k "next_corner"
     || String.eqb k "pin" || PyStr.endswith "_pad" k
  then AssertionError else IndexError.

(** Two readers on the same text, the second with one more line [x] at the
    end of its input. *)
Definition ext (x : string) (f f' : FreePCBfile) : Prop :=
  File f' = (File f ++ [x])%list /\ Lineno f' = Lineno f.

(** The first reader is exhausted or still holds the record [last] as its
    final line. *)
Definition holds_last (last : string) (f : FreePCBfile) : Prop :=
  File f = [] \/ exists g, File f = (g ++ [last])%list.

(** The readers at the head of a loop that raises [E] on an exhausted
    reader. *)
Definition at_loop (last x : string) (E : exn) (f f' : FreePCBfile) : Prop :=
  ext x f f' /\ holds_last last f /\ (File f = [] -> end_error last = E).

(** The readers while the first still has lines. *)
Definition in_text (last x : string) (f f' : FreePCBfile) : Prop :=
  ext x f f' /\ holds_last last f /\ File f <> [].

(** The second run does what the first does, unless the first is stopped
    by the end of its input. *)
Definition sim_result {A} (last : string)
    (P : FreePCBfile -> FreePCBfile -> Prop)
    (r r' : result (A * FreePCBfile)) : Prop :=
  match r with
  | Ok (a, g) => exists g', r' = Ok (a, g') /\ P g g'
  | Raise e => r' = Raise e \/ e = end_error last
  | OutOfBudget => r' = OutOfBudget
  end.

Definition sim_control {A} (last : string)
    (Pc Pb : FreePCBfile -> FreePCBfile -> Prop)
    (r r' : result (control (A * FreePCBfile))) : Prop :=
  match r with
  | Ok (Continue (a, g)) => exists g', r' = Ok (Continue (a, g')) /\ Pc g g'
  | Ok (Break (a, g)) => exists g', r' = Ok (Break (a, g')) /\ Pb g g'
  | Raise e => r' = Raise e \/ e = end_error last
  | OutOfBudget => r' = OutOfBudget
  end.

(** Every character of the string is whitespace. *)
Fixpoint all_space (s : string) : bool :=
  match s with
  | EmptyString => true
  | String c s' => PyStr.is_space c && all_space s'
  end.


(** A library source of one footprint: a closed outline and one
    surface-mount pin.  Its last line is a pad record. *)
Definition footprint_source : list string :=
  ["name: " ++ quoted "R0603";
   "author: " ++ quoted "IPC";
   "source: " ++ quoted "IPC-7351";
   "description: " ++ quoted "chip resistor";
   "  units: NM";
   "  sel_rect: -1000000 -500000 1000000 500000";
   "  ref_text: 500000 0 0 0 50000";
   "  centroid: 0 0 0 0";
   "  outline_polyline: 100000 -1000000 -500000";
   "    next_corner: 1000000 -500000 0";
   "    next_corner: 1000000 500000 0";
   "    next_corner: -1000000 500000 0";
   "    close_polyline: 0";
   "  n_pins: 1";
   "    pin: " ++ quoted "1" ++ " 0 0 0 0";
   "      top_pad: 1 500000 250000 250000 0"].

Definition no_options : Options :=
  {| roundedpads := None; rpexceptions := []; rcexceptions := [];
     strip_lmn_opt := false; threedmap := None; courtyard := None;
     hashtime := false |}.

(** A clock that has stopped. *)
Definition epoch (_ : nat) : Q := 0%Q.

(** Two exceptions of the same class; the text of a message may differ. *)
Definition same_kind (e1 e2 : exn) : Prop :=
  match e1, e2 with
  | Exception _, Exception _ => True
  | _, _ => e1 = e2
  end.

(** Two readers that hold the same lines, whatever their line counters. *)
Definition same_text (f f' : FreePCBfile) : Prop := File f = File f'.

(** The second reader holds the lines of the first and, just before the
    lines [h], one empty line more. *)
Definition inserted (h : list string) (f f' : FreePCBfile) : Prop :=
  exists g,
    File f = (g ++ h)%list /\ File f' = (g ++ EmptyString :: h)%list.

(** Before or after the inserted line has been read. *)
Definition near (h : list string) (f f' : FreePCBfile) : Prop :=
  inserted h f f' \/ same_text f f'.

(** The same, when the current line is not the inserted one: what [at_end]
    leaves. *)
Definition near_text (h : list string) (f f' : FreePCBfile) : Prop :=
  (exists l g,
      is_blank l = false /\ File f = (l :: g ++ h)%list /\
      File f' = (l :: g ++ EmptyString :: h)%list)
  \/ same_text f f'.

Definition near_state {A} (h : list string) (s s' : A * FreePCBfile) : Prop :=
  fst s = fst s' /\ near h (snd s) (snd s').

(** A key on which the look-ahead of the polyline and pin readers does not
    act. *)
Definition passive_key (k : string) : bool :=
  negb (String.eqb k "next_corner") && negb (String.eqb k "close_polyline")
  && negb (PyStr.endswith "_pad" k).

(** A line in front of which a blank line is not seen by the parser: once
    stripped on the right as the reader stores it, it is not indented and
    its key is passive. *)
Definition blank_tolerant (line : string) : bool :=
  (halfindents (PyStr.rstrip line) / 2 =? 0)%nat
  && passive_key (key_of (PyStr.rstrip line)).

(** Two modules that differ at most in their edit time. *)
Definition same_but_tedit (m m' : PCBmodule) : Prop :=
  set_tedit 0%Q m = set_tedit 0%Q m'.

(** Two lists of modules that differ at most in the edit times. *)
Definition same_modules (l l' : list PCBmodule) : Prop :=
  map (set_tedit 0%Q) l = map (set_tedit 0%Q) l'.



(** Stand-ins for the library functions of Python, to run the program on
    examples: integers as floats, a float printed as a fraction, a digest
    made of the first sixteen bytes of the padded input. *)
Definition sample_float (s : string) : option Q :=
  option_map inject_Z (PyStr.int s).




(** * More of the program, and the definitions its properties are stated with *)

(** A point with integer coordinates. *)
Definition integral (pt : Q * Q) : Prop :=
  exists x y : Z, pt = (inject_Z x, inject_Z y).

(** What [Polyline.create_from_freepcb] guarantees of the polyline it
    returns. *)
Definition Polyline_wellformed (p : Polyline) : Prop :=
  Points p <> [] /\
  Forall integral (Points p) /\
  Layer p = "F.SilkS" /\
  KicadLinewidth p = (15 # 100)%Q /\
  (Closed p = true ->
   2 <= List.length (Points p) /\
   last (Points p) (0%Q, 0%Q) = hd (0%Q, 0%Q) (Points p)).

(** What [PCBmodule.__init__] guarantees of a graphic of the module called
    [name] that it builds under the options [opts]. *)
Definition graphic_of (name : string) (opts : Options) (g : Graphic) : Prop :=
  match g with
  | GPolyline q => Polyline_wellformed q
  | GPin p => ModName p = name /\ pin_opts p = opts
  end.

(** The 3D data of a module that no map has touched. *)
Definition no_model (m : PCBmodule) : Prop :=
  ThreeDName m = None /\ ThreeDScale m = [1%Q; 1%Q; 1%Q] /\
  ThreeDOffset m = [0%Q; 0%Q; 0%Q] /\ ThreeDRot m = [0%Q; 0%Q; 0%Q].

(** What [PCBmodule.__init__] guarantees of the module it builds. *)
Definition PCBmodule_wellformed (opts : Options) (m : PCBmodule) : Prop :=
  Name m <> EmptyString /\ Author m <> EmptyString /\
  Source m <> EmptyString /\
  Units m = Some "NM" /\ Centroid m = "0 0 0 0" /\
  opt_truthy (SelectionRect m) = true /\ opt_truthy (RefText m) = true /\
  no_model m /\
  Forall (graphic_of (Name m) opts) (Graphics m).

(** A pin that can be emitted and measured: it has a top pad and its angle
    is 0 or 90. *)
Definition usable_pin (p : Pin) : Prop :=
  TopPad p <> None /\ (Angle p = 0 \/ Angle p = 90)%Z.

(** The rounded-pad modes the argument parser of [main] can store. *)
Definition parser_mode (opts : Options) : Prop :=
  roundedpads opts = None \/ roundedpads opts = Some "all" \/
  roundedpads opts = Some "allbut1".

(** Two modules that differ at most in their 3D data, the three vectors
    having kept their lengths. *)
Definition same_but_model (m m' : PCBmodule) : Prop :=
  Name m' = Name m /\ Author m' = Author m /\ Source m' = Source m /\
  Description m' = Description m /\ Units m' = Units m /\
  SelectionRect m' = SelectionRect m /\ RefText m' = RefText m /\
  ValText m' = ValText m /\ Centroid m' = Centroid m /\
  Graphics m' = Graphics m /\ tedit m' = tedit m /\
  List.length (ThreeDScale m') = List.length (ThreeDScale m) /\
  List.length (ThreeDOffset m') = List.length (ThreeDOffset m) /\
  List.length (ThreeDRot m') = List.length (ThreeDRot m).

(** [subs] are the libraries of the files [infiles], the first of which is
    the file number [k] of the command line. *)
Fixpoint parsed_files (opts : Options) (infiles : list (list string))
    (clock : nat -> nat -> Q) (k : nat) (subs : list Library) : Prop :=
  match infiles, subs with
  | [], [] => True
  | lines :: infiles', sub :: subs' =>
      Library_init (FreePCBfile_init lines) opts (clock k) = Ok sub /\
      parsed_files opts infiles' clock (S k) subs'
  | _, _ => False
  end.

(** No two modules of the list have the same name. *)
Definition distinct_names (l : list PCBmodule) : Prop := NoDup (map Name l).

(** The file [main] writes for a module: its name, and its text, empty
    when the module cannot be emitted. *)
Definition written (float_repr : Q -> string) (m : PCBmodule)
  : string * string :=
  (Name m ++ ".kicad_mod",
   match PCBmodule_kicad_sexp m with
   | Ok x => SexpDump float_repr (SList x)
   | _ => EmptyString
   end).

(** A printable character of ASCII: from the space to the tilde. *)
Definition printable (c : ascii) : bool :=
  ((32 <=? nat_of_ascii c) && (nat_of_ascii c <=? 126))%nat.

Fixpoint all_chars (P : ascii -> bool) (s : string) : bool :=
  match s with
  | EmptyString => true
  | String c s' => P c && all_chars P s'
  end.

(** An expression tree whose symbols are printable and whose integers are
    written with printable characters. *)
Fixpoint clean (x : sexp) : bool :=
  match x with
  | Sym s => all_chars printable s
  | Str _ => true
  | Int z => all_chars printable (PyStr.of_Z z)
  | Float _ => true
  | SList l => forallb clean l
  end.

(** The value of an uppercase hexadecimal digit, and of a string of them. *)
Definition hex_digit_val (c : ascii) : option N :=
  let n := N_of_ascii c in
  if ((48 <=? n) && (n <=? 57))%N then Some (n - 48)%N
  else if ((65 <=? n) && (n <=? 70))%N then Some (n - 55)%N
  else None.

Fixpoint hex_val_from (acc : N) (s : string) : option N :=
  match s with
  | EmptyString => Some acc
  | String c s' =>
      match hex_digit_val c with
      | Some d => hex_val_from (acc * 16 + d)%N s'
      | None => None
      end
  end.

Definition hex_val (s : string) : option N := hex_val_from 0%N s.





(** A value as the 3D map writes it: a text that is not empty, does not
    start or end with white space and does not start with a double quote. *)
Definition plain_token (v : string) : bool :=
  match v, PyStr.last_char v with
  | String c _, Some d =>
      negb (PyStr.is_space c) && negb (Ascii.eqb c PyStr.dquote)
      && negb (PyStr.is_space d)
  | _, _ => false
  end.

(** The three vectors of the 3D data and the three axes, with the keys of
    the 3D map that name them. *)
Inductive vector : Type := Rot | Sca | Off.

Inductive axis : Type := X_axis | Y_axis | Z_axis.

Definition vector_key (v : vector) : string :=
  match v with Rot => "rot" | Sca => "sca" | Off => "off" end.

Definition axis_letter (a : axis) : string :=
  match a with X_axis => "x" | Y_axis => "y" | Z_axis => "z" end.

Definition axis_position (a : axis) : nat :=
  match a with X_axis => 0 | Y_axis => 1 | Z_axis => 2 end.

Definition get_vector (v : vector) : PCBmodule -> list Q :=
  match v with
  | Rot => ThreeDRot | Sca => ThreeDScale | Off => ThreeDOffset
  end.

Definition set_vector (v : vector) : list Q -> PCBmodule -> PCBmodule :=
  match v with
  | Rot => set_ThreeDRot | Sca => set_ThreeDScale | Off => set_ThreeDOffset
  end.

(** The list [l] with [x] at the position [i]. *)
Definition replace_nth {A} (i : nat) (x : A) (l : list A) : list A :=
  (firstn i l ++ x :: skipn (S i) l)%list.

(** The answer of a loop whose budget ran out. *)
Definition ran_out {A} (r : result A) : bool :=
  match r with
  | OutOfBudget => true
  | _ => false
  end.

(** *** The invariants of the loops of the parser *)

Definition corner_invariant (s : Polyline * FreePCBfile) : Prop :=
  Points (fst s) <> [] /\ Forall integral (Points (fst s)) /\
  Layer (fst s) = "F.SilkS" /\ KicadLinewidth (fst s) = (15 # 100)%Q /\
  Closed (fst s) = false.

Definition pad_invariant (modname : string) (opts : Options)
    (s : Pin * FreePCBfile) : Prop :=
  ModName (fst s) = modname /\ pin_opts (fst s) = opts.

(** The header loop touches the four header attributes only. *)
Definition header_invariant (s : PCBmodule * FreePCBfile) : Prop :=
  no_model (fst s) /\ Units (fst s) = None /\ SelectionRect (fst s) = None /\
  RefText (fst s) = None /\ Centroid (fst s) = "0 0 0 0" /\
  Graphics (fst s) = [].

(** The body loop keeps the name and the 3D data, and every graphic it
    appends is one of the module. *)
Definition body_invariant (name : string) (opts : Options)
    (s : PCBmodule * FreePCBfile) : Prop :=
  Name (fst s) = name /\ Author (fst s) <> EmptyString /\
  Source (fst s) <> EmptyString /\ no_model (fst s) /\
  Forall (graphic_of name opts) (Graphics (fst s)).

(** The library loop: the modules built so far are well formed, and the
    module at position [i] carries the time [clock i]. *)
Definition library_invariant (opts : Options) (clock : nat -> Q)
    (s : list PCBmodule * FreePCBfile) : Prop :=
  Forall (PCBmodule_wellformed opts) (fst s) /\
  forall i m, nth_error (fst s) i = Some m -> tedit m = clock i.

Definition map_invariant (mods0 : list PCBmodule) (s : map_state) : Prop :=
  Forall2 same_but_model mods0 (fst (fst s)).


(** Induction on an expression tree, the elements of a list included. *)

Section Sexp_induction.

Variable P : sexp -> Prop.
Hypothesis P_Sym : forall s, P (Sym s).
Hypothesis P_Str : forall s, P (Str s).
Hypothesis P_Int : forall z, P (Int z).
Hypothesis P_Float : forall q, P (Float q).
Hypothesis P_SList : forall l, Forall P l -> P (SList l).

Fixpoint sexp_induction (x : sexp) : P x :=
  match x with
  | Sym s => P_Sym s
  | Str s => P_Str s
  | Int z => P_Int z
  | Float q => P_Float q
  | SList l =>
      P_SList ((fix all (l : list sexp) : Forall P l :=
                  match l with
                  | [] => Forall_nil P
                  | a :: l' => Forall_cons a (sexp_induction a) (all l')
                  end) l)
  end.

End Sexp_induction.

(** ** Text forms: [indent_string] and the [__str__] methods *)

(** [s.split (c)] for a one-character separator: the texts between the
    occurrences of [c]; there is always one text at least. *)
Fixpoint split_on (c : ascii) (s : string) : list string :=
  match s with
  | EmptyString => [EmptyString]
  | String d s' =>
      if Ascii.eqb d c then EmptyString :: split_on c s'
      else match split_on c s' with
           | x :: l => String d x :: l
           | [] => [String d EmptyString]
           end
  end.

Definition nl : string := String PyStr.newline EmptyString.

(** [indent_string (s)] *)
Definition indent_string (s : string) : string :=
  let lines := split_on PyStr.newline s in
  let lines := map (fun i => "  " ++ i) lines in
  let lines :=
    map (fun i => if String.eqb i "  " then EmptyString else i) lines in
  PyStr.join nl lines.

(** What [indent_string] does to one line. *)
Definition indent_line (i : string) : string :=
  if String.eqb ("  " ++ i) "  " then EmptyString else "  " ++ i.

(** [Pad.__str__] *)
Definition Pad_str (p : Pad) : string :=
  "Pad: shape " ++ PyStr.of_Z (Shape p) ++ ", (w " ++ PyStr.of_Z (Width p)
  ++ ", L1 " ++ PyStr.of_Z (Len1 p) ++ ", L2 " ++ PyStr.of_Z (Len2 p)
  ++ "), corner " ++ PyStr.of_Z (CornRad p).

(** [str (x)] of an attribute that holds a pad or [None]. *)
Definition opt_Pad_str (o : option Pad) : string :=
  match o with
  | Some p => Pad_str p
  | None => "None"
  end.

(** [Pin.__str__] *)
Definition Pin_str (p : Pin) : string :=
  "Pin:" ++ nl
  ++ "  Name: " ++ PinName p ++ nl
  ++ "  Drill diameter: " ++ PyStr.of_Z (DrillDiam p) ++ nl
  ++ "  Angle: " ++ PyStr.of_Z (Angle p) ++ nl
  ++ "  Coords: " ++ PyStr.of_Z (fst (Coords p)) ++ ", "
  ++ PyStr.of_Z (snd (Coords p)) ++ nl
  ++ "  TopPad: " ++ opt_Pad_str (TopPad p) ++ nl
  ++ "  InnerPad: " ++ opt_Pad_str (InnerPad p) ++ nl
  ++ "  BottomPad: " ++ opt_Pad_str (BottomPad p) ++ nl.

Section Text.

Variable float_repr : Q -> string.

(** [Polyline.__str__]; ["%d"] truncates a float. *)
Definition Polyline_str (p : Polyline) : string :=
  let s :=
    "Polyline:" ++ nl ++ "  Line width: "
    ++ match Linewidth p with
       | Some w => float_repr w
       | None => "None"
       end ++ nl in
  fold_left
    (fun s i =>
       s ++ "  Point: " ++ PyStr.of_Z (py_int_of_float (fst i)) ++ ", "
       ++ PyStr.of_Z (py_int_of_float (snd i)) ++ nl)
    (Points p) s.

Definition Graphic_str (g : Graphic) : string :=
  match g with
  | GPolyline p => Polyline_str p
  | GPin p => Pin_str p
  end.




End Text.

(** ** The exception lists

    [main] reads a list of regular expressions from a file, one from every
    line that is not blank.  [re_compile] is [re.compile], [None] when it
    raises; the expression compiled is the predicate
    [fun name => regex.match (name) is not None]. *)

Section Exceptions.

Variable re_compile : string -> option (string -> bool).

(** [for line in f: line = line.strip (); if not line: continue;
    exceptions.append (re.compile (line))]; [None] when an expression does
    not compile. *)
Fixpoint read_exceptions (lines : list string)
  : option (list (string -> bool)) :=
  match lines with
  | [] => Some []
  | line :: lines' =>
      let line := PyStr.strip line in
      if PyStr.is_empty line then read_exceptions lines'
      else
        match re_compile line with
        | Some regex => option_map (cons regex) (read_exceptions lines')
        | None => None
        end
  end.

(** The list for an option that names a file, given by its lines, or is
    [None]. *)
Definition exceptions_of (file : option (list string))
  : option (list (string -> bool)) :=
  match file with
  | Some lines => read_exceptions lines
  | None => Some []
  end.

End Exceptions.

(** ** download_3d.py: [copyfile]

    A stream open for reading is the list of the bytes not yet read;
    [src.read (n)] takes [n] of them, or all that are left when they are
    fewer, as a buffered binary stream does.  A stream open for writing is
    the list of the bytes written. *)

Definition block_size : nat := 1024.

(** One round of [while True] in [copyfile (dest, src)]. *)
Definition copyfile_step (s : list Byte.byte * list Byte.byte)
  : result (control (list Byte.byte * list Byte.byte)) :=
  let '(dest, src) := s in
  let block := firstn block_size src in
  let src := skipn block_size src in
  let dest := (dest ++ block)%list in
  if (List.length block <? block_size)%nat then Ok (Break (dest, src))
  else Ok (Continue (dest, src)).

(** [copyfile (dest, src)]: the two streams afterwards.  A round reads a
    block of 1024 bytes or ends the loop, so the loop runs at most once
    more than there are bytes. *)
Definition copyfile (dest src : list Byte.byte)
  : result (list Byte.byte * list Byte.byte) :=
  while (S (List.length src)) copyfile_step (dest, src).

(** ** Sample inputs

    The footprint source followed by a blank line, and what the parser makes
    of it under no options and a clock that stands still. *)
Definition footprint_text : list string :=
  (footprint_source ++ [EmptyString])%list.

Definition footprint_parse : PCBmodule * FreePCBfile :=
  Eval vm_compute in
    match PCBmodule_init no_options 0%Q (FreePCBfile_init footprint_text) with
    | Ok r => r
    | _ => (PCBmodule_new, FreePCBfile_init [])
    end.

Definition footprint_module : PCBmodule := fst footprint_parse.

Definition footprint_library : Library := {| Modules := [footprint_module] |}.


(** * The courtyard pass in the arithmetic of the interpreter

    [add_courtyard] and the [bounding_box] methods are where the program
    computes with its numbers: it subtracts and adds the product
    [float (spacing) * 1000000.], halves pad sizes with [/] and compares
    with [min] and [max].  The module [IEEE] models these methods with the
    numbers CPython has: an [int] is a [Z], a [float] is an IEEE 754 double
    ([PrimFloat.float], whose operations round to nearest, ties to even).
    [float (n)] and [a / b] on [int]s give the nearest double and raise
    [OverflowError] beyond the largest one; [+], [-] and [*] on doubles
    raise nothing; an [int] and a [float] are compared by their exact
    values. *)

Module IEEE.

(** A Python number. *)
Inductive num : Type :=
| PyInt (n : Z)
| PyFloat (x : float).

(** [n / d] rounded to the nearest integer, ties to the even one
    ([0 <= n], [0 < d]). *)
Definition round_half_even (n d : Z) : Z :=
  let q := (n / d)%Z in
  match (2 * (n mod d) ?= d)%Z with
  | Lt => q
  | Gt => (q + 1)%Z
  | Eq => if Z.even q then q else (q + 1)%Z
  end.

(** [floor (log2 (n / d))] for positive [n] and [d]. *)
Definition ilog2 (n d : Z) : Z :=
  let e := (Z.log2 n - Z.log2 d)%Z in
  if (if 0 <=? e then d * 2 ^ e <=? n else d <=? n * 2 ^ (- e))%Z
  then e else (e - 1)%Z.

(** [n / (d * 2^e)] rounded to an integer. *)
Definition scaled (n d e : Z) : Z :=
  if (0 <=? e)%Z then round_half_even n (d * 2 ^ e)
  else round_half_even (n * 2 ^ (- e)) d.

(** The double nearest to [n / d] for positive [n] and [d]: 53 significant
    bits, the unit in the last place never below [2^-1074]; [OverflowError]
    when the rounded value reaches [2^1024]. *)
Definition nearest_double (n d : Z) : result float :=
  let e := Z.max (ilog2 n d - 52) (-1074) in
  let m := scaled n d e in
  if (2 ^ (1024 + 1074) <=? m * 2 ^ (e + 1074))%Z then Raise OverflowError
  else Ok (Z.ldexp (of_uint63 (Uint63.of_Z m)) e).

Definition float_of_Q (q : Q) : result float :=
  match Qnum q with
  | Z0 => Ok 0%float
  | Zpos n => nearest_double (Zpos n) (Zpos (Qden q))
  | Zneg n =>
      x <- nearest_double (Zpos n) (Zpos (Qden q)) ;; Ok (- x)%float
  end.

(** [float (a)] *)
Definition py_float (a : num) : result float :=
  match a with
  | PyInt n => float_of_Q (inject_Z n)
  | PyFloat x => Ok x
  end.

(** [a / b] on an [int] [a] and a positive [int] literal [b]. *)
Definition int_truediv (a : Z) (b : positive) : result float :=
  float_of_Q (a # b).

(** [a - b] and [a + b]: exact on two [int]s, in doubles otherwise, the
    [int] operand converted first. *)
Definition py_sub (a b : num) : result num :=
  match a, b with
  | PyInt x, PyInt y => Ok (PyInt (x - y))
  | _, _ => x <- py_float a ;; y <- py_float b ;; Ok (PyFloat (x - y)%float)
  end.

Definition py_add (a b : num) : result num :=
  match a, b with
  | PyInt x, PyInt y => Ok (PyInt (x + y))
  | _, _ => x <- py_float a ;; y <- py_float b ;; Ok (PyFloat (x + y)%float)
  end.

(** [n < x] and [x < n] for an [int] [n] and a [float] [x]: the comparison
    of the exact values, false against NaN. *)
Definition signed (s : bool) (m : positive) : Z :=
  if s then Zneg m else Zpos m.

Definition lt_int_float (n : Z) (x : float) : bool :=
  match Prim2SF x with
  | S754_nan => false
  | S754_infinity s => negb s
  | S754_zero _ => (n <? 0)%Z
  | S754_finite s m e =>
      if (0 <=? e)%Z then (n <? signed s m * 2 ^ e)%Z
      else (n * 2 ^ (- e) <? signed s m)%Z
  end.

Definition lt_float_int (x : float) (n : Z) : bool :=
  match Prim2SF x with
  | S754_nan => false
  | S754_infinity s => s
  | S754_zero _ => (0 <? n)%Z
  | S754_finite s m e =>
      if (0 <=? e)%Z then (signed s m * 2 ^ e <? n)%Z
      else (signed s m <? n * 2 ^ (- e))%Z
  end.

(** [a < b] *)
Definition py_lt (a b : num) : bool :=
  match a, b with
  | PyInt x, PyInt y => (x <? y)%Z
  | PyInt x, PyFloat y => lt_int_float x y
  | PyFloat x, PyInt y => lt_float_int x y
  | PyFloat x, PyFloat y => (x <? y)%float
  end.

(** [min (l)] keeps its candidate unless [item < candidate]; [max (l)]
    unless [item > candidate]. *)
Definition py_min (l : list num) : result num :=
  match l with
  | [] => Raise ValueError
  | x :: l' => Ok (fold_left (fun cur y => if py_lt y cur then y else cur) l' x)
  end.

Definition py_max (l : list num) : result num :=
  match l with
  | [] => Raise ValueError
  | x :: l' => Ok (fold_left (fun cur y => if py_lt cur y then y else cur) l' x)
  end.

(** The objects, with the numbers they hold. *)
Record Polyline : Type := {
  Points : list (num * num);
  Linewidth : option float;
  Closed : bool;
  Layer : string;
  KicadLinewidth : float
}.

Inductive Graphic : Type :=
| GPolyline (p : Polyline)
| GPin (p : Pin).

Record PCBmodule : Type := {
  ThreeDName : option string;
  ThreeDScale : list float;
  ThreeDOffset : list float;
  ThreeDRot : list float;
  Name : string;
  Author : string;
  Source : string;
  Description : string;
  Units : option string;
  SelectionRect : option string;
  RefText : option string;
  ValText : string;
  Centroid : string;
  Graphics : list Graphic;
  tedit : num
}.

Definition set_Graphics v (m : PCBmodule) : PCBmodule :=
  {| ThreeDName := ThreeDName m; ThreeDScale := ThreeDScale m;
     ThreeDOffset := ThreeDOffset m; ThreeDRot := ThreeDRot m;
     Name := Name m; Author := Author m; Source := Source m;
     Description := Description m; Units := Units m;
     SelectionRect := SelectionRect m; RefText := RefText m;
     ValText := ValText m; Centroid := Centroid m; Graphics := v;
     tedit := tedit m |}.

(** A box is [(left, right, top, bottom)]. *)
Definition box : Type := num * num * num * num.

Definition Polyline_bounding_box (p : Polyline) : result box :=
  left <- py_min (map fst (Points p)) ;;
  right <- py_max (map fst (Points p)) ;;
  top <- py_max (map snd (Points p)) ;;
  bottom <- py_min (map snd (Points p)) ;;
  Ok (left, right, top, bottom).

Definition Pin_bounding_box (p : Pin) : result box :=
  '(sx, sy) <- Pin_size p ;;
  h <- int_truediv sy 2 ;;
  left <- py_sub (PyInt (fst (Coords p))) (PyFloat h) ;;
  h <- int_truediv sy 2 ;;
  right <- py_add (PyInt (fst (Coords p))) (PyFloat h) ;;
  h <- int_truediv sx 2 ;;
  top <- py_add (PyInt (snd (Coords p))) (PyFloat h) ;;
  h <- int_truediv sx 2 ;;
  bottom <- py_sub (PyInt (snd (Coords p))) (PyFloat h) ;;
  Ok (left, right, top, bottom).

Definition Graphic_bounding_box (g : Graphic) : result box :=
  match g with
  | GPolyline p => Polyline_bounding_box p
  | GPin p => Pin_bounding_box p
  end.

(** [[i.bounding_box () for i in self.Graphics]] *)
Fixpoint sub_boxes (l : list Graphic) : result (list box) :=
  match l with
  | [] => Ok []
  | g :: l' =>
      b <- Graphic_bounding_box g ;;
      bs <- sub_boxes l' ;;
      Ok (b :: bs)
  end.

Definition PCBmodule_bounding_box (m : PCBmodule) : result box :=
  bs <- sub_boxes (Graphics m) ;;
  let lefts := map (fun b : box => let '(l, _, _, _) := b in l) bs in
  let rights := map (fun b : box => let '(_, r, _, _) := b in r) bs in
  let tops := map (fun b : box => let '(_, _, t, _) := b in t) bs in
  let bottoms := map (fun b : box => let '(_, _, _, b) := b in b) bs in
  left <- py_min lefts ;;
  right <- py_max rights ;;
  top <- py_max tops ;;
  bottom <- py_min bottoms ;;
  Ok (left, right, top, bottom).

(** [float (n) * 1000000.] *)
Definition from_mm (n : num) : result float :=
  x <- py_float n ;; Ok (x * 1000000)%float.

(** The polyline [add_courtyard] builds: [Polyline ()] with its points, its
    layer and its line width [0.05] (the double nearest to 1/20)
    assigned. *)
#[warnings="-inexact-float"]
Definition courtyard_polyline (left right top bottom : num) : Polyline :=
  {| Points := [(left, top); (right, top); (right, bottom); (left, bottom);
                (left, top)];
     Linewidth := None; Closed := false; Layer := "F.CrtYd";
     KicadLinewidth := 0.05%float |}.

Definition PCBmodule_add_courtyard (spacing : float) (m : PCBmodule)
  : result PCBmodule :=
  '(l, r, t, b) <- PCBmodule_bounding_box m ;;
  d <- from_mm (PyFloat spacing) ;;
  left <- py_sub l (PyFloat d) ;;
  d <- from_mm (PyFloat spacing) ;;
  right <- py_add r (PyFloat d) ;;
  d <- from_mm (PyFloat spacing) ;;
  top <- py_add t (PyFloat d) ;;
  d <- from_mm (PyFloat spacing) ;;
  bottom <- py_sub b (PyFloat d) ;;
  let cy := courtyard_polyline left right top bottom in
  Ok (set_Graphics (Graphics m ++ [GPolyline cy])%list m).

(** The value of a finite double, as a rational. *)
Definition value (x : float) : option Q :=
  match Prim2SF x with
  | S754_zero _ => Some 0%Q
  | S754_finite s m e => Some (inject_Z (signed s m) * 2 ^ e)%Q
  | _ => None
  end.

End IEEE.

(** The one-millimeter square as the parser leaves it: five [int] points, the
    line width [0.15]. *)
#[warnings="-inexact-float"]
Definition square_points : IEEE.Polyline :=
  {| IEEE.Points :=
       [(IEEE.PyInt 0, IEEE.PyInt 0); (IEEE.PyInt 1000000, IEEE.PyInt 0);
        (IEEE.PyInt 1000000, IEEE.PyInt 1000000);
        (IEEE.PyInt 0, IEEE.PyInt 1000000); (IEEE.PyInt 0, IEEE.PyInt 0)];
     IEEE.Linewidth := Some 0.15%float; IEEE.Closed := true;
     IEEE.Layer := "F.SilkS"; IEEE.KicadLinewidth := 0.15%float |}.

Definition square_footprint : IEEE.PCBmodule :=
  {| IEEE.ThreeDName := None;
     IEEE.ThreeDScale := [1%float; 1%float; 1%float];
     IEEE.ThreeDOffset := [0%float; 0%float; 0%float];
     IEEE.ThreeDRot := [0%float; 0%float; 0%float];
     IEEE.Name := "SQ"; IEEE.Author := EmptyString;
     IEEE.Source := EmptyString; IEEE.Description := EmptyString;
     IEEE.Units := None; IEEE.SelectionRect := None; IEEE.RefText := None;
     IEEE.ValText := EmptyString; IEEE.Centroid := "0 0 0 0";
     IEEE.Graphics := [IEEE.GPolyline square_points];
     IEEE.tedit := IEEE.PyFloat 0%float |}.

(** The spacing [--add-courtyard 2.01] stores: the double nearest to
    201/100. *)
#[warnings="-inexact-float"]
Definition spacing_2_01 : float := 2.01%float.

(** The courtyard a quarter of a millimeter around the square. *)
Definition quarter_courtyard : IEEE.Polyline :=
  IEEE.courtyard_polyline
    (IEEE.PyFloat (-250000)%float) (IEEE.PyFloat 1250000%float)
    (IEEE.PyFloat 1250000%float) (IEEE.PyFloat (-250000)%float).

(** The square with the pin of the scenario in it. *)
Definition square_with_pad : IEEE.PCBmodule :=
  IEEE.set_Graphics [IEEE.GPolyline square_points; IEEE.GPin scenario_pin]
                    square_footprint.

(** Numbers whose conversion to a double cannot overflow: any [float], and
    an [int] below [2^1023] in absolute value. *)
Definition in_range (n : Z) : Prop := (Z.abs n < 2 ^ 1023)%Z.

Definition num_in_range (a : IEEE.num) : Prop :=
  match a with
  | IEEE.PyInt n => in_range n
  | IEEE.PyFloat _ => True
  end.

Definition Pin_in_range (p : Pin) : Prop :=
  in_range (fst (Coords p)) /\ in_range (snd (Coords p)) /\
  forall pad, TopPad p = Some pad ->
    in_range (Width pad) /\ in_range (Len1 pad + Len2 pad).

Definition Graphic_in_range (g : IEEE.Graphic) : Prop :=
  match g with
  | IEEE.GPolyline q =>
      forall x y, In (x, y) (IEEE.Points q) -> num_in_range x /\ num_in_range y
  | IEEE.GPin p => Pin_in_range p
  end.

(** A box whose four sides convert to doubles. *)
Definition box_in_range (b : IEEE.box) : Prop :=
  let '(l, r, t, b) := b in
  num_in_range l /\ num_in_range r /\ num_in_range t /\ num_in_range b.

(** [below n d k]: [n / d < 2^k]. *)
Definition below (n d k : Z) : Prop :=
  if (0 <=? k)%Z then (n < d * 2 ^ k)%Z else (n * 2 ^ (- k) < d)%Z.

(** * Properties

    The results are grouped by the part of the program they are about:
    strings and [parse_string], the reader and the merge, pad shapes, the
    courtyard, the loops of the parser, the 3D map, inputs that stop after
    a record, blank lines and line counts, the clock and the hash. *)

(** ** Facts about the string primitives *)

Lemma last_char_snoc (s : string) (c : ascii) :
  PyStr.last_char (s ++ String c EmptyString) = Some c.
Proof.
  induction s as [|d s IH]; simpl; [reflexivity|].
  rewrite IH. destruct s; reflexivity.
Qed.

Lemma drop_last_snoc (s : string) (c : ascii) :
  PyStr.drop_last (s ++ String c EmptyString) = s.
Proof.
  induction s as [|d s IH]; simpl; [reflexivity|].
  rewrite IH. destruct s; reflexivity.
Qed.

Lemma string_snoc (s : string) :
  s <> EmptyString -> exists s' c, s = s' ++ String c EmptyString.
Proof.
  induction s as [|d s IH]; intros H; [congruence|].
  destruct s as [|e s].
  - exists EmptyString, d. reflexivity.
  - destruct IH as (s' & c & E); [discriminate|].
    exists (String d s'), c. simpl. now rewrite <- E.
Qed.

Lemma take_length_app (a b : string) : PyStr.take (String.length a) (a ++ b) = a.
Proof. induction a; simpl; [now destruct b | now f_equal]. Qed.

Lemma drop_length_app (a b : string) : PyStr.drop (String.length a) (a ++ b) = b.
Proof. induction a; simpl; auto. Qed.

Lemma drop_past_char (a b : string) (c : ascii) :
  PyStr.drop (S (String.length a)) (a ++ String c b) = b.
Proof. induction a; simpl; auto. Qed.

Lemma slice_inner (a b : string) (c : ascii) :
  PyStr.slice 1 (String.length a + 1) (String c (a ++ b)) = a.
Proof.
  unfold PyStr.slice.
  replace (String.length a + 1 - 1) with (String.length a) by lia.
  simpl. apply take_length_app.
Qed.

Lemma drop_beyond (a b : string) (c d : ascii) :
  PyStr.drop (String.length a + 1 + 1) (String c (a ++ String d b)) = b.
Proof.
  replace (String.length a + 1 + 1) with (S (S (String.length a))) by lia.
  apply drop_past_char.
Qed.

Lemma index_first (c : ascii) (a b : string) :
  PyStr.mem c a = false ->
  PyStr.index c (a ++ String c b) = Some (String.length a).
Proof.
  induction a as [|d a IH]; simpl; intros H.
  - now rewrite Ascii.eqb_refl.
  - apply orb_false_iff in H as [H1 H2]. rewrite H1, IH by exact H2. reflexivity.
Qed.

Lemma partition_first (c : ascii) (a b : string) :
  PyStr.mem c a = false ->
  PyStr.partition c (a ++ String c b) = (a, true, b).
Proof.
  induction a as [|d a IH]; simpl; intros H.
  - now rewrite Ascii.eqb_refl.
  - apply orb_false_iff in H as [H1 H2]. rewrite H1, IH by exact H2. reflexivity.
Qed.

Lemma partition_absent (c : ascii) (a : string) :
  PyStr.mem c a = false ->
  PyStr.partition c a = (a, false, EmptyString).
Proof.
  induction a as [|d a IH]; simpl; intros H; [reflexivity|].
  apply orb_false_iff in H as [H1 H2]. rewrite H1, IH by exact H2. reflexivity.
Qed.

Lemma lstrip_length (s : string) :
  String.length (PyStr.lstrip s) + leading_space s = String.length s.
Proof.
  induction s as [|c s IH]; simpl; [reflexivity|].
  destruct (PyStr.is_space c); simpl; lia.
Qed.

Lemma mem_lmn (c : ascii) : PyStr.mem c "LMNlmn" = lmn_letter c.
Proof.
  unfold lmn_letter; simpl.
  now rewrite !(Ascii.eqb_sym c).
Qed.

(** C9: [strip_lmn] on a module with a non-empty name leaves the module
    as it is when the last character of the name is none of L, M, N, l, m,
    n, and otherwise removes exactly that last character from the name. *)
Theorem strip_lmn_last_letter (m : PCBmodule) :
  Name m <> EmptyString ->
  exists s c,
    Name m = s ++ String c EmptyString /\
    PCBmodule_strip_lmn m = Ok (if lmn_letter c then set_Name s m else m).
Proof.
  intros H. destruct (string_snoc H) as (s & c & E).
  exists s, c. split; [exact E|].
  unfold PCBmodule_strip_lmn.
  rewrite E, last_char_snoc, drop_last_snoc, mem_lmn.
  now destruct (lmn_letter c).
Qed.

(** C9 at the name SOIC8N. *)
Lemma strip_lmn_last_letter_witness :
  exists s c,
    Name (set_Name "SOIC8N" PCBmodule_new) = s ++ String c EmptyString /\
    PCBmodule_strip_lmn (set_Name "SOIC8N" PCBmodule_new)
    = Ok (if lmn_letter c then set_Name s (set_Name "SOIC8N" PCBmodule_new)
          else set_Name "SOIC8N" PCBmodule_new).
Proof.
  apply (@strip_lmn_last_letter (set_Name "SOIC8N" PCBmodule_new)).
  simpl. discriminate.
Defined.

(** C8 as stated fails on a token that ends in a tab: [parse_string] trims
    the token it returns, the count is that of the untrimmed token. *)
Lemma parse_string_unquoted_counterexample :
  ~ parse_string_unquoted_claim (String "a" (String PyStr.tab " b")).
Proof.
  intros H.
  specialize (H (String "a" (String PyStr.tab EmptyString)) "b"
                eq_refl eq_refl eq_refl).
  discriminate H.
Qed.

(** C8, amended: on a non-empty value that starts with a double quote and
    holds a second one, [parse_string] returns the text strictly between the
    two and the count of the characters up to and including the closing
    quote plus the whitespace that follows it; on a value that does not
    start with a double quote it returns the text before the first space,
    trimmed of surrounding whitespace, and the length of that text before
    trimming plus one. *)
Theorem parse_string_spec (s : string) :
  s <> EmptyString ->
  (forall inner rest,
      s = String PyStr.dquote (inner ++ String PyStr.dquote rest) ->
      PyStr.mem PyStr.dquote inner = false ->
      parse_string s
      = Ok (inner, String.length inner + 2 + leading_space rest)) /\
  (forall tok rest,
      PyStr.startswith_char PyStr.dquote s = false ->
      PyStr.mem " " tok = false ->
      s = tok ++ String " " rest \/ s = tok ->
      parse_string s = Ok (PyStr.strip tok, String.length tok + 1)).
Proof.
  intros Hs. split.
  - intros inner rest -> Hin. unfold parse_string.
    rewrite Ascii.eqb_refl. simpl negb. cbv iota.
    rewrite index_first by exact Hin.
    rewrite slice_inner, drop_beyond.
    f_equal. f_equal. pose proof (lstrip_length rest). lia.
  - intros tok rest Hq Htok Hform.
    destruct s as [|c0 s1]; [congruence|].
    unfold parse_string. simpl in Hq. rewrite Hq. simpl negb. cbv iota.
    destruct Hform as [E|E]; rewrite E.
    + rewrite partition_first by exact Htok. reflexivity.
    + rewrite partition_absent by exact Htok. reflexivity.
Qed.

(** C8 at the value of a pin record and at a bare token. *)
Lemma parse_string_spec_witness :
  parse_string (quoted "1" ++ " 0 -1000 0 90") = Ok ("1", 4) /\
  parse_string "NM" = Ok ("NM", 3).
Proof.
  split.
  - apply (proj1 (@parse_string_spec (quoted "1" ++ " 0 -1000 0 90")
                    ltac:(discriminate))
             "1" " 0 -1000 0 90" eq_refl eq_refl).
  - apply (proj2 (@parse_string_spec "NM" ltac:(discriminate))
             "NM" EmptyString eq_refl eq_refl (or_intror eq_refl)).
Defined.

(** ** The reader's [get_string] and the merge of libraries *)

Lemma get_string_ignores_allow_blank (allow_blank : bool) (f : FreePCBfile) :
  get_string allow_blank f = get_string false f.
Proof. reflexivity. Qed.

(** C4: [get_string] never reads [allow_blank]; a line with a blank value
    raises the format error even when the caller allows blanks. *)
Theorem get_string_blank_allowed_raises :
  get_string true {| File := ["n_pins:"]; Lineno := 1 |}
  = Raise (Exception "Line 1: expected value").
Proof. reflexivity. Qed.

(** ** The duplicate scan of [Library.__iadd__] *)

Lemma find_dup_in_none (i : PCBmodule) (others : list PCBmodule) :
  find_dup_in i others = None <->
  (forall j, In j others -> Name i <> Name j).
Proof.
  induction others as [|j others IH]; simpl.
  - split; [intros _ j []|reflexivity].
  - destruct (String.eqb_spec (Name i) (Name j)) as [E|E].
    + split; [discriminate|]. intros H. exfalso. apply (H j); auto.
    + rewrite IH. split.
      * intros H k [<-|Hk]; auto.
      * intros H k Hk. apply H. auto.
Qed.

Lemma find_dup_in_some (i : PCBmodule) (others : list PCBmodule) (n : string) :
  find_dup_in i others = Some n ->
  n = Name i /\ exists j, In j others /\ Name i = Name j.
Proof.
  induction others as [|j others IH]; simpl; [discriminate|].
  destruct (String.eqb_spec (Name i) (Name j)) as [E|E].
  - intros [= <-]. split; [reflexivity|]. exists j. auto.
  - intros H. destruct (IH H) as (-> & k & Hk & Ek).
    split; [reflexivity|]. exists k. auto.
Qed.

Lemma find_dup_none (mine others : list PCBmodule) :
  find_dup mine others = None <->
  (forall i j, In i mine -> In j others -> Name i <> Name j).
Proof.
  induction mine as [|i mine IH]; simpl.
  - split; [intros _ i j []|reflexivity].
  - destruct (find_dup_in i others) as [n|] eqn:E.
    + split; [discriminate|]. intros H. exfalso.
      destruct (find_dup_in_some _ _ E) as (_ & j & Hj & Ej).
      apply (H i j); auto.
    + rewrite IH. rewrite find_dup_in_none in E. split.
      * intros H k j [<-|Hk] Hj; auto.
      * intros H k j Hk Hj. apply H; auto.
Qed.

Lemma find_dup_some (mine others : list PCBmodule) (n : string) :
  find_dup mine others = Some n ->
  exists i j, In i mine /\ In j others /\ Name i = Name j /\ n = Name i.
Proof.
  induction mine as [|i mine IH]; simpl; [discriminate|].
  destruct (find_dup_in i others) as [k|] eqn:E.
  - intros [= <-]. destruct (find_dup_in_some _ _ E) as (-> & j & Hj & Ej).
    exists i, j. auto.
  - intros H. destruct (IH H) as (i' & j & Hi & Hj & Ej & En).
    exists i', j. auto.
Qed.

(** C6: merging two libraries with no module name in common gives the
    modules of the first followed by those of the second, so the count is
    the sum of the counts; merging two libraries with a name in common
    raises the duplicate-name exception, whose message names a module that
    is in both, and gives no library. *)
Theorem Library_iadd_spec (self other : Library) :
  ((forall i j, In i (Modules self) -> In j (Modules other) ->
                Name i <> Name j) ->
   exists merged,
     Library_iadd self other = Ok merged /\
     Modules merged = (Modules self ++ Modules other)%list /\
     List.length (Modules merged)
     = List.length (Modules self) + List.length (Modules other)) /\
  ((exists i j, In i (Modules self) /\ In j (Modules other) /\
                Name i = Name j) ->
   exists i j,
     In i (Modules self) /\ In j (Modules other) /\ Name i = Name j /\
     Library_iadd self other
     = Raise (Exception ("Duplicate module name " ++ quoted (Name i)))).
Proof.
  unfold Library_iadd. split.
  - intros H. apply find_dup_none in H. rewrite H.
    eexists. split; [reflexivity|]. simpl. split; [reflexivity|].
    apply length_app.
  - intros (i & j & Hi & Hj & E).
    destruct (find_dup (Modules self) (Modules other)) as [n|] eqn:F.
    + destruct (find_dup_some _ _ F) as (i' & j' & Hi' & Hj' & E' & ->).
      exists i', j'. auto.
    + rewrite find_dup_none in F. exfalso. exact (F i j Hi Hj E).
Qed.

(** C6 at two libraries of one module each. *)
Lemma Library_iadd_spec_witness :
  (exists merged,
      Library_iadd library_M library_N = Ok merged /\
      Modules merged = [module_M; module_N] /\
      List.length (Modules merged) = 2) /\
  (exists i j,
      In i [module_M] /\ In j [module_M] /\ Name i = Name j /\
      Library_iadd library_M library_M
      = Raise (Exception ("Duplicate module name " ++ quoted (Name i)))).
Proof.
  split.
  - apply (proj1 (Library_iadd_spec library_M library_N)).
    intros i j [<-|[]] [<-|[]]. discriminate.
  - apply (proj2 (Library_iadd_spec library_M library_M)).
    exists module_M, module_M. simpl. auto.
Defined.

(** ** Pad shapes *)




(** ** The courtyard *)

(** The order of doubles: [<], [<=] and [==] are read off one comparison,
    which is antisymmetric. *)
Lemma SFcompare_antisym (x y : spec_float) :
  SFcompare y x = option_map CompOpp (SFcompare x y).
Proof.
  destruct x as [s1 | s1 | | s1 m1 e1], y as [s2 | s2 | | s2 m2 e2];
    simpl; try reflexivity;
    try (destruct s1; reflexivity); try (destruct s2; reflexivity);
    try (destruct s1, s2; reflexivity).
  pose proof (Pos.compare_cont_antisym m1 m2 Eq) as Hm. simpl in Hm.
  destruct s1, s2; simpl; try reflexivity;
    rewrite (Z.compare_antisym e1 e2);
    destruct (e1 ?= e2)%Z; simpl; try reflexivity;
    rewrite <- Hm; try rewrite CompOpp_involutive; reflexivity.
Qed.

Lemma float_le_not_gt (x y : float) :
  (x <=? y)%float = true -> (y <? x)%float = false.
Proof.
  rewrite leb_spec, ltb_spec. unfold SFleb, SFltb.
  rewrite (SFcompare_antisym (Prim2SF x) (Prim2SF y)).
  destruct (SFcompare (Prim2SF x) (Prim2SF y)) as [[ | | ] | ];
    simpl; congruence.
Qed.

Lemma float_lt_irrefl (x : float) : (x <? x)%float = false.
Proof.
  rewrite ltb_spec. unfold SFltb.
  pose proof (SFcompare_antisym (Prim2SF x) (Prim2SF x)) as H.
  destruct (SFcompare (Prim2SF x) (Prim2SF x)) as [[ | | ] | ];
    simpl in H; congruence.
Qed.

Lemma float_le_refl (x y : float) :
  (x <=? y)%float = true -> (x =? x)%float = true /\ (y =? y)%float = true.
Proof.
  rewrite leb_spec, !eqb_spec. unfold SFleb, SFeqb.
  destruct (Prim2SF x) as [s1 | s1 | | s1 m1 e1],
           (Prim2SF y) as [s2 | s2 | | s2 m2 e2];
    simpl; try discriminate; intros _;
    repeat match goal with s : bool |- _ => destruct s end;
    rewrite ?Z.compare_refl, ?Pos.compare_cont_refl; auto.
Qed.

Lemma float_le_not_lt (x y : float) :
  (x <=? y)%float = true -> (x <? y)%float = false ->
  (x =? y)%float = true /\ (y =? x)%float = true.
Proof.
  rewrite leb_spec, ltb_spec, !eqb_spec. unfold SFleb, SFltb, SFeqb.
  rewrite (SFcompare_antisym (Prim2SF x) (Prim2SF y)).
  destruct (SFcompare (Prim2SF x) (Prim2SF y)) as [[ | | ] | ];
    simpl; intros; try discriminate; auto.
Qed.

(** [min] and [max] over the corners of a rectangle of doubles that is not
    inside out. *)
Ltac compare_corners H :=
  repeat progress
    (cbn [IEEE.py_lt];
     rewrite ?float_lt_irrefl, ?(@float_le_not_gt _ _ H); cbv iota).

Ltac compare_corners_at H E :=
  repeat progress
    (cbn [IEEE.py_lt];
     rewrite ?E, ?float_lt_irrefl, ?(@float_le_not_gt _ _ H); cbv iota).

Lemma py_min_corners (l r : float) :
  (l <=? r)%float = true ->
  IEEE.py_min
    [IEEE.PyFloat l; IEEE.PyFloat r; IEEE.PyFloat r; IEEE.PyFloat l;
     IEEE.PyFloat l] = Ok (IEEE.PyFloat l).
Proof.
  intros H. unfold IEEE.py_min. cbn [fold_left IEEE.py_lt].
  compare_corners H. reflexivity.
Qed.

Lemma py_max_corners (t b : float) :
  (b <=? t)%float = true ->
  IEEE.py_max
    [IEEE.PyFloat t; IEEE.PyFloat t; IEEE.PyFloat b; IEEE.PyFloat b;
     IEEE.PyFloat t] = Ok (IEEE.PyFloat t).
Proof.
  intros H. unfold IEEE.py_max. cbn [fold_left IEEE.py_lt].
  compare_corners H. reflexivity.
Qed.

Lemma py_max_corners_right (l r : float) :
  (l <=? r)%float = true ->
  exists r',
    IEEE.py_max
      [IEEE.PyFloat l; IEEE.PyFloat r; IEEE.PyFloat r; IEEE.PyFloat l;
       IEEE.PyFloat l] = Ok (IEEE.PyFloat r') /\
    (r' =? r)%float = true.
Proof.
  intros H. unfold IEEE.py_max. cbn [fold_left IEEE.py_lt].
  destruct (l <? r)%float eqn:E; compare_corners_at H E.
  - exists r. split; [reflexivity|]. apply (@float_le_refl _ _ H).
  - exists l. split; [reflexivity|]. apply (@float_le_not_lt _ _ H E).
Qed.

Lemma py_min_corners_bottom (t b : float) :
  (b <=? t)%float = true ->
  exists b',
    IEEE.py_min
      [IEEE.PyFloat t; IEEE.PyFloat t; IEEE.PyFloat b; IEEE.PyFloat b;
       IEEE.PyFloat t] = Ok (IEEE.PyFloat b') /\
    (b' =? b)%float = true.
Proof.
  intros H. unfold IEEE.py_min. cbn [fold_left IEEE.py_lt].
  compare_corners H.
  destruct (b <? t)%float eqn:E; compare_corners_at H E.
  - exists b. split; [reflexivity|]. apply (@float_le_refl _ _ H).
  - exists t. split; [reflexivity|]. apply (@float_le_not_lt _ _ H E).
Qed.

Lemma py_sub_float (a : IEEE.num) (x d : float) :
  IEEE.py_float a = Ok x ->
  IEEE.py_sub a (IEEE.PyFloat d) = Ok (IEEE.PyFloat (x - d)%float).
Proof.
  intros H. destruct a; unfold IEEE.py_sub; rewrite H; reflexivity.
Qed.

Lemma py_add_float (a : IEEE.num) (x d : float) :
  IEEE.py_float a = Ok x ->
  IEEE.py_add a (IEEE.PyFloat d) = Ok (IEEE.PyFloat (x + d)%float).
Proof.
  intros H. destruct a; unfold IEEE.py_add; rewrite H; reflexivity.
Qed.

(** C3, amended: in the program's own arithmetic.  Let the module's bounding
    box be (L, R, T, B), its sides as doubles fL, fR, fT, fB ([float] of an
    [int] side, the side itself otherwise), and d the double product of the
    spacing and 1000000.  The courtyard pass succeeds and appends, behind
    the graphics the module had, one polyline on the layer F.CrtYd with the
    five points (l, t), (r, t), (r, b), (l, b), (l, t), where l = fL - d,
    r = fR + d, t = fT + d and b = fB - d are rounded differences and sums
    of doubles.  When that rectangle is not inside out (l <= r and b <= t,
    which no NaN satisfies), the polyline's own bounding box is (l, r, t, b):
    its left and top are l and t themselves, its right and bottom compare
    equal to r and b. *)
Theorem add_courtyard_bounding_box
    (m : IEEE.PCBmodule) (spacing : float) (L R T B : IEEE.num)
    (fL fR fT fB : float) :
  IEEE.PCBmodule_bounding_box m = Ok (L, R, T, B) ->
  IEEE.py_float L = Ok fL -> IEEE.py_float R = Ok fR ->
  IEEE.py_float T = Ok fT -> IEEE.py_float B = Ok fB ->
  let d := (spacing * 1000000)%float in
  let l := (fL - d)%float in
  let r := (fR + d)%float in
  let t := (fT + d)%float in
  let b := (fB - d)%float in
  let cy :=
    IEEE.courtyard_polyline (IEEE.PyFloat l) (IEEE.PyFloat r)
                            (IEEE.PyFloat t) (IEEE.PyFloat b) in
  IEEE.PCBmodule_add_courtyard spacing m
  = Ok (IEEE.set_Graphics (IEEE.Graphics m ++ [IEEE.GPolyline cy])%list m) /\
  IEEE.Layer cy = "F.CrtYd" /\
  IEEE.Points cy
  = [(IEEE.PyFloat l, IEEE.PyFloat t); (IEEE.PyFloat r, IEEE.PyFloat t);
     (IEEE.PyFloat r, IEEE.PyFloat b); (IEEE.PyFloat l, IEEE.PyFloat b);
     (IEEE.PyFloat l, IEEE.PyFloat t)] /\
  ((l <=? r)%float = true -> (b <=? t)%float = true ->
   exists r' b',
     IEEE.Polyline_bounding_box cy
     = Ok (IEEE.PyFloat l, IEEE.PyFloat r', IEEE.PyFloat t, IEEE.PyFloat b') /\
     (r' =? r)%float = true /\ (b' =? b)%float = true).
Proof.
  intros Hbox HL HR HT HB d l r t b cy.
  split; [|split; [reflexivity|split; [reflexivity|]]].
  - unfold IEEE.PCBmodule_add_courtyard. rewrite Hbox.
    cbn [bind IEEE.from_mm IEEE.py_float]. fold d.
    rewrite (@py_sub_float L fL d HL). cbn [bind].
    rewrite (@py_add_float R fR d HR). cbn [bind].
    rewrite (@py_add_float T fT d HT). cbn [bind].
    rewrite (@py_sub_float B fB d HB). cbn [bind]. reflexivity.
  - intros Hlr Hbt. unfold IEEE.Polyline_bounding_box, cy.
    cbn [IEEE.courtyard_polyline IEEE.Points map fst snd].
    rewrite (@py_min_corners _ _ Hlr). cbn [bind].
    destruct (@py_max_corners_right _ _ Hlr) as (r' & -> & Hr). cbn [bind].
    rewrite (@py_max_corners _ _ Hbt). cbn [bind].
    destruct (@py_min_corners_bottom _ _ Hbt) as (b' & -> & Hb). cbn [bind].
    exists r', b'. auto.
Qed.

(** C3 at the one-millimeter square and the spacing 0.25. *)
Lemma add_courtyard_bounding_box_witness :
  IEEE.PCBmodule_add_courtyard 0.25%float square_footprint
  = Ok (IEEE.set_Graphics
          [IEEE.GPolyline square_points; IEEE.GPolyline quarter_courtyard]
          square_footprint) /\
  exists r' b',
    IEEE.Polyline_bounding_box quarter_courtyard
    = Ok (IEEE.PyFloat (-250000)%float, IEEE.PyFloat r',
          IEEE.PyFloat 1250000%float, IEEE.PyFloat b') /\
    (r' =? 1250000)%float = true /\ (b' =? -250000)%float = true.
Proof.
  destruct (@add_courtyard_bounding_box square_footprint 0.25%float
              (IEEE.PyInt 0) (IEEE.PyInt 1000000) (IEEE.PyInt 1000000)
              (IEEE.PyInt 0) 0%float 1000000%float 1000000%float 0%float)
    as (Hadd & _ & _ & Hbox); try (vm_compute; reflexivity).
  split; [exact Hadd|]. apply Hbox; vm_compute; reflexivity.
Defined.

(** C3 as stated fails inside the range of spacings the specification
    allows.  At [--add-courtyard 2.01] the one-millimeter square, whose box
    is (0, 10^6, 10^6, 0), gets a courtyard whose left side is the double
    -2009999.9999999998: that is neither 0 - 2.01 * 10^6 nor 0 minus the
    exact product of the stored spacing and 10^6, and it is no integer
    number of nanometers. *)
Lemma add_courtyard_rounds_spacing :
  IEEE.float_of_Q (201 # 100) = Ok spacing_2_01 /\
  IEEE.PCBmodule_bounding_box square_footprint
  = Ok (IEEE.PyInt 0, IEEE.PyInt 1000000, IEEE.PyInt 1000000, IEEE.PyInt 0) /\
  exists m' cy left right top bottom q s,
    IEEE.PCBmodule_add_courtyard spacing_2_01 square_footprint = Ok m' /\
    IEEE.Graphics m'
    = (IEEE.Graphics square_footprint ++ [IEEE.GPolyline cy])%list /\
    IEEE.Polyline_bounding_box cy = Ok (IEEE.PyFloat left, right, top, bottom) /\
    IEEE.value left = Some q /\ IEEE.value spacing_2_01 = Some s /\
    ~ (q == 0 - (201 # 100) * 1000000)%Q /\
    ~ (q == 0 - s * 1000000)%Q /\
    (forall n : Z, ~ (q == inject_Z n)%Q).
Proof.
  split; [vm_compute; reflexivity|]. split; [vm_compute; reflexivity|].
  do 8 eexists.
  split; [vm_compute; reflexivity|]. split; [reflexivity|].
  split; [vm_compute; reflexivity|].
  split; [vm_compute; reflexivity|]. split; [vm_compute; reflexivity|].
  split; [intros H; vm_compute in H; discriminate H|].
  split; [intros H; vm_compute in H; discriminate H|].
  intros n H. unfold Qeq in H. cbn [Qnum Qden inject_Z] in H. lia.
Qed.

(** ** Loops: budgets and simulation *)

Section While.

Variable S : Type.
Variable body : S -> result (control S).
Variable mu : S -> nat.

Hypothesis body_continue : forall s s', body s = Ok (Continue s') -> mu s' < mu s.
Hypothesis body_break : forall s s', body s = Ok (Break s') -> mu s' <= mu s.

Lemma while_budget (n m : nat) (s : S) :
  mu s < n -> mu s < m -> while n body s = while m body s.
Proof.
  revert m s. induction n as [|n IH]; intros m s Hn Hm; [lia|].
  destruct m as [|m]; [lia|]. simpl.
  destruct (body s) as [[s'|s']| |] eqn:E; simpl; try reflexivity.
  apply body_continue in E. apply IH; lia.
Qed.

Lemma while_measure (n : nat) (s s' : S) :
  while n body s = Ok s' -> mu s' <= mu s.
Proof.
  revert s. induction n as [|n IH]; intros s; simpl; [discriminate|].
  destruct (body s) as [[s1|s1]| |] eqn:E; simpl; try discriminate.
  - intros H. apply IH in H. apply body_continue in E. lia.
  - intros [= <-]. now apply body_break.
Qed.

Lemma while_progress (n : nat) (s s' : S) :
  while n body s = Ok s' -> body s = Ok (Break s') \/ mu s' < mu s.
Proof.
  destruct n as [|n]; simpl; [discriminate|].
  destruct (body s) as [[s1|s1]| |] eqn:E; simpl; try discriminate.
  - intros H. apply while_measure in H. apply body_continue in E.
    right. lia.
  - intros [= <-]. now left.
Qed.

Lemma while_no_timeout (n : nat) (s : S) :
  (forall s, body s <> OutOfBudget) -> mu s < n -> while n body s <> OutOfBudget.
Proof.
  intros Hb. revert s. induction n as [|n IH]; intros s Hn; [lia|]. simpl.
  destruct (body s) as [[s'|s']| |] eqn:E; simpl; try discriminate.
  - apply body_continue in E. apply IH. lia.
  - now apply Hb in E.
Qed.

End While.

Lemma while_unfold {S} (n : nat) (body : S -> result (control S)) (s : S) :
  while (Datatypes.S n) body s
  = (c <- body s ;;
     match c with
     | Continue s' => while n body s'
     | Break s' => Ok s'
     end).
Proof. reflexivity. Qed.

Lemma rel_bind {A B A' B'} (Re : exn -> exn -> Prop) (R : A -> B -> Prop)
    (R' : A' -> B' -> Prop) (r1 : result A) (r2 : result B)
    (k1 : A -> result A') (k2 : B -> result B') :
  rel_result Re R r1 r2 ->
  (forall a b, R a b -> rel_result Re R' (k1 a) (k2 b)) ->
  rel_result Re R' (bind r1 k1) (bind r2 k2).
Proof.
  destruct r1, r2; simpl; auto; try contradiction.
Qed.

Lemma while_rel {A B} (Re : exn -> exn -> Prop) (R : A -> B -> Prop)
    (body1 : A -> result (control A)) (body2 : B -> result (control B)) :
  (forall a b, R a b -> rel_result Re (rel_control R) (body1 a) (body2 b)) ->
  forall n a b, R a b -> rel_result Re R (while n body1 a) (while n body2 b).
Proof.
  intros Hb. induction n as [|n IH]; intros a b Hab; simpl; [exact I|].
  apply rel_bind with (R := rel_control R); [now apply Hb|].
  intros [a'|a'] [b'|b']; simpl; try contradiction; auto.
Qed.


(** ** The reader only shrinks *)

Lemma skip_blank_length (file : list string) (n : Z) :
  remaining (skip_blank file n) <= List.length file.
Proof.
  revert n. induction file as [|l file IH]; intros n; simpl; [auto|].
  destruct (is_blank l); [|simpl; auto].
  specialize (IH (n + 1)%Z). lia.
Qed.

Lemma at_end_length (f f0 : FreePCBfile) (e : bool) :
  at_end f = (e, f0) -> remaining f0 <= remaining f.
Proof.
  unfold at_end. intros [= _ <-]. apply skip_blank_length.
Qed.

Lemma get_string_length (b : bool) (f f1 : FreePCBfile) (kv : string * string) :
  get_string b f = Ok (kv, f1) -> remaining f1 < remaining f.
Proof.
  unfold get_string.
  pose proof (skip_blank_length (File f) (Lineno f)) as H.
  destruct (File (skip_blank (File f) (Lineno f))) as [|line rest] eqn:E;
    [discriminate|].
  unfold remaining in H. rewrite E in H. simpl in H.
  destruct (PyStr.partition ":" line) as [[key d] value].
  match goal with |- bind ?r _ = _ -> _ => destruct r as [v| |] end;
    simpl; try discriminate.
  destruct (PyStr.is_empty v); [intros H0; discriminate H0|].
  intros [= _ <-]. unfold remaining. simpl. lia.
Qed.

Ltac break_match :=
  match goal with
  | |- context [match ?x with _ => _ end] => destruct x eqn:?
  end.

Lemma parse_string_no_timeout (s : string) : parse_string s <> OutOfBudget.
Proof. unfold parse_string. repeat break_match; discriminate. Qed.

Lemma get_string_no_timeout (b : bool) (f : FreePCBfile) :
  get_string b f <> OutOfBudget.
Proof.
  unfold get_string.
  destruct (File (skip_blank (File f) (Lineno f))) as [|line rest];
    [discriminate|].
  destruct (PyStr.partition ":" line) as [[key d] value].
  destruct (PyStr.startswith_char PyStr.dquote (PyStr.strip value)
            && PyStr.endswith_char PyStr.dquote (PyStr.strip value)).
  - pose proof (parse_string_no_timeout (PyStr.strip value)) as H.
    destruct (parse_string (PyStr.strip value)) as [[v n]| |]; simpl;
      [|discriminate|congruence].
    destruct (PyStr.is_empty v); discriminate.
  - simpl. destruct (PyStr.is_empty (PyStr.strip value)); discriminate.
Qed.

(** ** Every round of a parsing loop pops a line *)

Lemma bind_ok {A B} (r : result A) (k : A -> result B) (b : B) :
  bind r k = Ok b -> exists a, r = Ok a /\ k a = Ok b.
Proof. destruct r; simpl; try discriminate. eauto. Qed.

Lemma bind_timeout {A B} (r : result A) (k : A -> result B) :
  bind r k = OutOfBudget -> r = OutOfBudget \/ exists a, r = Ok a /\ k a = OutOfBudget.
Proof. destruct r; simpl; try discriminate; eauto. Qed.

Ltac inv_bind H :=
  let a := fresh "a" in
  let E := fresh "E" in
  apply bind_ok in H; destruct H as (a & E & H).

Ltac inv_ok :=
  repeat match goal with
    | H : bind _ _ = Ok _ |- _ => inv_bind H
    | H : Ok _ = Ok _ |- _ => injection H as H; subst
    | H : Continue _ = Continue _ |- _ => injection H as H; subst
    | H : Break _ = Break _ |- _ => injection H as H; subst
    | H : Continue _ = Break _ |- _ => discriminate H
    | H : Break _ = Continue _ |- _ => discriminate H
    | H : Raise _ = Ok _ |- _ => discriminate H
    | H : OutOfBudget = Ok _ |- _ => discriminate H
    | H : (let '(_, _) := ?x in _) = Ok _ |- _ => destruct x eqn:?
    | H : (if ?c then _ else _) = Ok _ |- _ => destruct c eqn:?
    | H : match ?x with _ => _ end = Ok _ |- _ => destruct x eqn:?
    end.

Lemma Pin_pad_step_continue s s' :
  Pin_pad_step s = Ok (Continue s') -> left_of s' < left_of s.
Proof.
  unfold Pin_pad_step, left_of. destruct s as [p f]. intros H. inv_ok;
    simpl; eauto using get_string_length.
Qed.

Lemma Pin_pad_step_break s s' :
  Pin_pad_step s = Ok (Break s') -> left_of s' <= left_of s.
Proof.
  unfold Pin_pad_step, left_of. destruct s as [p f]. intros H. inv_ok;
    simpl; auto.
Qed.

Lemma Polyline_corner_step_continue s s' :
  Polyline_corner_step s = Ok (Continue s') -> left_of s' < left_of s.
Proof.
  unfold Polyline_corner_step, left_of. destruct s as [p f]. intros H. inv_ok;
    simpl; eauto using get_string_length.
Qed.

Lemma Polyline_corner_step_break s s' :
  Polyline_corner_step s = Ok (Break s') -> left_of s' <= left_of s.
Proof.
  unfold Polyline_corner_step, left_of. destruct s as [p f]. intros H. inv_ok;
    simpl; auto.
Qed.

Lemma Pin_create_length modname opts f p f' :
  Pin_create_from_freepcb modname opts f = Ok (p, f') ->
  remaining f' < remaining f.
Proof.
  unfold Pin_create_from_freepcb. intros H. inv_ok.
  apply (@while_measure _ Pin_pad_step left_of Pin_pad_step_continue
           Pin_pad_step_break) in H.
  apply get_string_length in E. unfold left_of in H. simpl in H. lia.
Qed.

Lemma Polyline_create_length opts f p f' :
  Polyline_create_from_freepcb opts f = Ok (p, f') ->
  remaining f' < remaining f.
Proof.
  unfold Polyline_create_from_freepcb. intros H. inv_ok;
  match goal with
  | H : while _ _ _ = Ok _ |- _ =>
      apply (@while_measure _ Polyline_corner_step left_of
               Polyline_corner_step_continue Polyline_corner_step_break) in H; unfold left_of in H;
      simpl in H
  end;
  repeat match goal with
    | H : get_string _ _ = Ok _ |- _ => apply get_string_length in H
    end; lia.
Qed.

Lemma header_step_continue s s' :
  header_step s = Ok (Continue s') -> left_of s' < left_of s.
Proof.
  unfold header_step, left_of. destruct s as [m f]. intros H. inv_ok;
    simpl;
    match goal with
    | H : at_end _ = _, G : get_string _ _ = _ |- _ =>
        apply at_end_length in H; apply get_string_length in G; lia
    end.
Qed.

Lemma header_step_break s s' :
  header_step s = Ok (Break s') -> left_of s' <= left_of s.
Proof.
  unfold header_step, left_of. destruct s as [m f]. intros H. inv_ok;
    simpl; eauto using at_end_length.
Qed.

Lemma body_step_continue opts s s' :
  body_step opts s = Ok (Continue s') -> left_of s' < left_of s.
Proof.
  unfold body_step, left_of. destruct s as [m f]. intros H. inv_ok;
    simpl;
    match goal with
    | H : at_end _ = _ |- _ => apply at_end_length in H
    end;
    repeat match goal with
      | G : get_string _ _ = _ |- _ => apply get_string_length in G
      | G : Polyline_create_from_freepcb _ _ = _ |- _ =>
          apply Polyline_create_length in G
      | G : Pin_create_from_freepcb _ _ _ = _ |- _ =>
          apply Pin_create_length in G
      end; lia.
Qed.

Lemma body_step_break opts s s' :
  body_step opts s = Ok (Break s') -> left_of s' <= left_of s.
Proof.
  unfold body_step, left_of. destruct s as [m f]. intros H. inv_ok;
    simpl; eauto using at_end_length.
Qed.

Lemma header_step_break_same m f m' f' :
  header_step (m, f) = Ok (Break (m', f')) -> m' = m.
Proof. unfold header_step. intros H. inv_ok; congruence. Qed.

Lemma PCBmodule_init_length opts now f m f' :
  PCBmodule_init opts now f = Ok (m, f') -> remaining f' < remaining f.
Proof.
  unfold PCBmodule_init. intros H. inv_ok.
  match goal with
  | H : while _ (body_step _) _ = Ok _ |- _ =>
      apply (@while_measure _ (body_step opts) left_of
               (@body_step_continue opts) (@body_step_break opts)) in H;
      unfold left_of in H; simpl in H
  end.
  match goal with
  | H : while _ header_step _ = Ok _ |- _ =>
      apply (@while_progress _ header_step left_of header_step_continue
               header_step_break) in H;
      destruct H as [Hb|Hlt]
  end.
  - apply header_step_break_same in Hb. subst. discriminate.
  - unfold left_of in Hlt. simpl in Hlt. lia.
Qed.

Lemma Library_step_continue opts clock s s' :
  Library_step opts clock s = Ok (Continue s') -> left_of s' < left_of s.
Proof.
  unfold Library_step, left_of. destruct s as [mods f]. intros H. inv_ok.
  simpl.
  match goal with
  | H : at_end _ = _, G : PCBmodule_init _ _ _ = _ |- _ =>
      apply at_end_length in H; apply PCBmodule_init_length in G; lia
  end.
Qed.

Lemma Library_step_break opts clock s s' :
  Library_step opts clock s = Ok (Break s') -> left_of s' <= left_of s.
Proof.
  unfold Library_step, left_of. destruct s as [mods f]. intros H. inv_ok.
  simpl. eauto using at_end_length.
Qed.

(** ** The budgets are sufficient: no loop of the parser runs out *)

Ltac split_budget H :=
  unfold bind in H;
  repeat match type of H with
    | match ?x with _ => _ end = OutOfBudget => destruct x eqn:?
    | (if ?c then _ else _) = OutOfBudget => destruct c eqn:?
    end;
  try discriminate H.

Lemma Pad_init_no_timeout value f : Pad_init value f <> OutOfBudget.
Proof. unfold Pad_init. repeat break_match; discriminate. Qed.

Lemma py_assert_no_timeout b : py_assert b <> OutOfBudget.
Proof. destruct b; discriminate. Qed.

Lemma peek_key_no_timeout f : peek_key f <> OutOfBudget.
Proof. unfold peek_key. repeat break_match; discriminate. Qed.

Lemma indent_level_no_timeout f : indent_level f <> OutOfBudget.
Proof. unfold indent_level. repeat break_match; discriminate. Qed.

Ltac absurd_budget :=
  match goal with
  | H : get_string _ _ = OutOfBudget |- _ => now apply get_string_no_timeout in H
  | H : parse_string _ = OutOfBudget |- _ => now apply parse_string_no_timeout in H
  | H : Pad_init _ _ = OutOfBudget |- _ => now apply Pad_init_no_timeout in H
  | H : py_assert _ = OutOfBudget |- _ => now apply py_assert_no_timeout in H
  | H : peek_key _ = OutOfBudget |- _ => now apply peek_key_no_timeout in H
  | H : indent_level _ = OutOfBudget |- _ =>
      now apply indent_level_no_timeout in H
  end.

Lemma Pin_pad_step_no_timeout s : Pin_pad_step s <> OutOfBudget.
Proof.
  unfold Pin_pad_step. destruct s as [p f]. intros H. split_budget H;
    absurd_budget.
Qed.

Lemma Polyline_corner_step_no_timeout s : Polyline_corner_step s <> OutOfBudget.
Proof.
  unfold Polyline_corner_step. destruct s as [p f]. intros H.
  split_budget H; absurd_budget.
Qed.

Lemma Pin_create_no_timeout modname opts f :
  Pin_create_from_freepcb modname opts f <> OutOfBudget.
Proof.
  unfold Pin_create_from_freepcb. intros H. split_budget H;
    try absurd_budget.
  revert H. apply (@while_no_timeout _ Pin_pad_step left_of
                     Pin_pad_step_continue _ _ Pin_pad_step_no_timeout).
  unfold left_of, budget, remaining. simpl. lia.
Qed.

Lemma Polyline_create_no_timeout opts f :
  Polyline_create_from_freepcb opts f <> OutOfBudget.
Proof.
  unfold Polyline_create_from_freepcb. intros H. split_budget H;
    try absurd_budget.
  match goal with
  | H : while _ _ _ = OutOfBudget |- _ => revert H
  end.
  apply (@while_no_timeout _ Polyline_corner_step left_of
           Polyline_corner_step_continue _ _
           Polyline_corner_step_no_timeout).
  unfold left_of, budget, remaining. simpl. lia.
Qed.

Lemma header_step_no_timeout s : header_step s <> OutOfBudget.
Proof.
  unfold header_step. destruct s as [p f]. intros H. split_budget H;
    absurd_budget.
Qed.

Lemma body_step_no_timeout opts s : body_step opts s <> OutOfBudget.
Proof.
  unfold body_step. destruct s as [p f]. intros H. split_budget H;
    try absurd_budget;
    match goal with
    | H : Polyline_create_from_freepcb _ _ = OutOfBudget |- _ =>
        now apply Polyline_create_no_timeout in H
    | H : Pin_create_from_freepcb _ _ _ = OutOfBudget |- _ =>
        now apply Pin_create_no_timeout in H
    end.
Qed.

Lemma PCBmodule_init_no_timeout opts now f :
  PCBmodule_init opts now f <> OutOfBudget.
Proof.
  unfold PCBmodule_init. intros H. split_budget H; try absurd_budget;
    match goal with
    | H : while _ header_step _ = OutOfBudget |- _ =>
        revert H;
        apply (@while_no_timeout _ header_step left_of header_step_continue
                 _ _ header_step_no_timeout)
    | H : while _ (body_step _) _ = OutOfBudget |- _ =>
        revert H;
        apply (@while_no_timeout _ (body_step opts) left_of
                 (@body_step_continue opts) _ _
                 (@body_step_no_timeout opts))
    end; unfold left_of, budget, remaining; simpl; lia.
Qed.

Lemma Library_step_no_timeout opts clock s : Library_step opts clock s <> OutOfBudget.
Proof.
  unfold Library_step. destruct s as [mods f]. intros H. split_budget H.
  match goal with
  | H : PCBmodule_init _ _ _ = OutOfBudget |- _ =>
      now apply PCBmodule_init_no_timeout in H
  end.
Qed.

Lemma Library_init_no_timeout f opts clock : Library_init f opts clock <> OutOfBudget.
Proof.
  unfold Library_init. intros H. split_budget H.
  match goal with
  | H : while _ _ _ = OutOfBudget |- _ => revert H
  end.
  apply (@while_no_timeout _ (Library_step opts clock) left_of
           (@Library_step_continue opts clock) _ _
           (@Library_step_no_timeout opts clock)).
  unfold left_of, budget, remaining. simpl. lia.
Qed.

(** ** The 3D map *)

(** C7: a record whose key is rotw is none of the nine axis keys, yet
    [process_3dmap] accepts it: the index [ord ('w') - ord ('x')] is -1, and
    the assignment goes to the last component of the rotation vector. *)
Theorem process_3dmap_rotw_accepted
    (py_float : string -> option Q) (v : Q) :
  py_float "90" = Some v ->
  process_3dmap py_float ["mod: M"; "rotw: 90"] library_M
  = Ok {| Modules := [set_ThreeDRot [0; 0; v]%Q module_M] |}.
Proof.
  intros H. vm_compute. rewrite H. reflexivity.
Qed.

(** C7 with a reading of floats that answers 90. *)
Lemma process_3dmap_rotw_accepted_witness :
  process_3dmap (fun _ => Some 90%Q) ["mod: M"; "rotw: 90"] library_M
  = Ok {| Modules := [set_ThreeDRot [0; 0; 90]%Q module_M] |}.
Proof.
  apply (@process_3dmap_rotw_accepted (fun _ => Some 90%Q) 90%Q).
  reflexivity.
Defined.

(** ** An input that stops after a record *)

Lemma while_sim {A} (last : string) (Pc Pb : FreePCBfile -> FreePCBfile -> Prop)
    (body : A * FreePCBfile -> result (control (A * FreePCBfile))) :
  (forall a f f', Pc f f' -> sim_control last Pc Pb (body (a, f)) (body (a, f'))) ->
  forall n a f f',
    Pc f f' -> sim_result last Pb (while n body (a, f)) (while n body (a, f')).
Proof.
  intros Hb. induction n as [|n IH]; intros a f f' H; simpl; [reflexivity|].
  specialize (Hb a f f' H). unfold sim_control in Hb.
  destruct (body (a, f)) as [[[a1 g]|[a1 g]]|e|]; simpl.
  - destruct Hb as (g' & -> & Hg). simpl. now apply IH.
  - destruct Hb as (g' & -> & Hg). simpl. eauto.
  - destruct Hb as [-> | ->]; simpl; auto.
  - rewrite Hb. reflexivity.
Qed.

Arguments budget : simpl never.
Arguments while : simpl never.
Arguments at_end : simpl never.
Arguments get_string : simpl never.
Arguments peek_key : simpl never.
Arguments indent_level : simpl never.
Arguments Pad_init : simpl never.
Arguments key_error : simpl never.
Arguments line_error : simpl never.
Arguments Polyline_create_from_freepcb : simpl never.
Arguments Pin_create_from_freepcb : simpl never.
Arguments PCBmodule_init : simpl never.

Lemma peek_key_key_of (f : FreePCBfile) (line : string) (rest : list string) :
  File f = line :: rest -> peek_key f = Ok (key_of line).
Proof.
  intros H. unfold peek_key, key_of. rewrite H.
  now destruct (PyStr.partition ":" line) as [[? ?] ?].
Qed.

Lemma all_space_strip (s : string) :
  PyStr.lstrip s = EmptyString -> PyStr.strip (fst (fst (PyStr.partition ":" s))) = EmptyString.
Proof.
  induction s as [|c s IH]; simpl; [reflexivity|].
  destruct (PyStr.is_space c) eqn:Hc; [|discriminate].
  intros H. destruct (Ascii.eqb c ":") eqn:Hcolon.
  - reflexivity.
  - specialize (IH H). destruct (PyStr.partition ":" s) as [[a ?] ?].
    simpl in *. unfold PyStr.strip in *. simpl. rewrite Hc. exact IH.
Qed.

Lemma rstrip_empty (s : string) :
  PyStr.rstrip s = EmptyString -> s = EmptyString \/ PyStr.lstrip s = EmptyString.
Proof.
  induction s as [|c s IH]; simpl; [auto|].
  destruct (PyStr.is_empty (PyStr.rstrip s)) eqn:E; simpl.
  - destruct (PyStr.rstrip s); [|discriminate].
    destruct (PyStr.is_space c); [|discriminate].
    intros _. right. destruct (IH eq_refl) as [-> | H]; [reflexivity|exact H].
  - discriminate.
Qed.

Lemma lstrip_idem (s : string) : PyStr.lstrip (PyStr.lstrip s) = PyStr.lstrip s.
Proof.
  induction s as [|c s IH]; simpl; [reflexivity|].
  destruct (PyStr.is_space c) eqn:E; [exact IH|]. simpl. now rewrite E.
Qed.

Lemma blank_lstrip (line : string) :
  is_blank line = true -> PyStr.lstrip line = EmptyString.
Proof.
  unfold is_blank, PyStr.strip. intros H.
  destruct (PyStr.rstrip (PyStr.lstrip line)) eqn:E; [|discriminate].
  destruct (rstrip_empty _ E) as [H1|H1]; [exact H1|].
  now rewrite lstrip_idem in H1.
Qed.

Lemma blank_key_of (line : string) :
  is_blank line = true -> key_of line = EmptyString.
Proof.
  intros H. apply blank_lstrip in H. apply all_space_strip in H.
  unfold key_of. now destruct (PyStr.partition ":" line) as [[? ?] ?].
Qed.

Lemma get_string_peek (b : bool) (f g : FreePCBfile) (k : string)
    (kv : string * string) :
  peek_key f = Ok k -> k <> EmptyString -> get_string b f = Ok (kv, g) ->
  fst kv = k.
Proof.
  intros Hp Hk. destruct (File f) as [|line rest] eqn:E.
  - unfold peek_key in Hp. rewrite E in Hp. discriminate.
  - rewrite (peek_key_key_of _ E) in Hp. injection Hp as <-.
    assert (Hb : is_blank line = false).
    { destruct (is_blank line) eqn:B; [|reflexivity].
      now apply blank_key_of in B. }
    unfold get_string. rewrite E. simpl. rewrite Hb. simpl.
    unfold key_of. destruct (PyStr.partition ":" line) as [[key d] value].
    match goal with |- bind ?r _ = _ -> _ => destruct r as [v| |] end;
      simpl; try discriminate.
    destruct (PyStr.is_empty v); [discriminate|].
    now intros [= <- _].
Qed.

Section Unterminated.

Variables last x : string.
Hypothesis last_text : is_blank last = false.

Lemma skip_blank_ext (g : list string) (n : Z) :
  exists g2,
    File (skip_blank (g ++ [last]) n) = (g2 ++ [last])%list /\
    skip_blank ((g ++ [last]) ++ [x]) n
    = {| File := (File (skip_blank (g ++ [last]) n) ++ [x])%list;
         Lineno := Lineno (skip_blank (g ++ [last]) n) |}.
Proof.
  revert n. induction g as [|l g IH]; intros n; simpl.
  - rewrite last_text. simpl. exists []. auto.
  - destruct (is_blank l); [apply IH|]. simpl. exists (l :: g). auto.
Qed.

Lemma in_text_last (f f' : FreePCBfile) :
  in_text last x f f' -> exists g, File f = (g ++ [last])%list.
Proof. intros (_ & [H|H] & Hne); [contradiction|exact H]. Qed.

Lemma at_end_ext (f f' : FreePCBfile) :
  in_text last x f f' ->
  exists g g',
    at_end f = (false, g) /\ at_end f' = (false, g') /\ in_text last x g g'.
Proof.
  intros H. destruct (in_text_last H) as (g0 & E).
  destruct H as ((Ef & En) & _ & _).
  unfold at_end. rewrite Ef, En, E.
  destruct (skip_blank_ext g0 (Lineno f)) as (g2 & E2 & ->).
  exists (skip_blank (g0 ++ [last]) (Lineno f)).
  exists {| File := (File (skip_blank (g0 ++ [last]) (Lineno f)) ++ [x])%list;
            Lineno := Lineno (skip_blank (g0 ++ [last]) (Lineno f)) |}.
  split; [rewrite E2; now destruct g2|].
  split; [cbn [File]; rewrite E2; now destruct g2|].
  split; [split; reflexivity|].
  split; [right; eauto|rewrite E2; now destruct g2].
Qed.

Lemma get_string_ext (b : bool) (f f' : FreePCBfile) :
  in_text last x f f' ->
  match get_string b f with
  | Ok (kv, g) =>
      exists g',
        get_string b f' = Ok (kv, g') /\ ext x g g' /\ holds_last last g /\
        (File g = [] -> fst kv = key_of last)
  | Raise e => get_string b f' = Raise e
  | OutOfBudget => False
  end.
Proof.
  intros H. destruct (in_text_last H) as (g0 & E).
  destruct H as ((Ef & En) & _ & _).
  unfold get_string. rewrite Ef, En, E.
  destruct (skip_blank_ext g0 (Lineno f)) as (g2 & E2 & ->). cbn [File Lineno].
  rewrite E2.
  assert (Hline : exists line rest,
             (g2 ++ [last])%list = line :: rest /\
             (rest = [] -> line = last) /\
             (rest = [] \/ exists g3, rest = (g3 ++ [last])%list)).
  { destruct g2 as [|l g3]; simpl.
    - exists last, []. auto.
    - exists l, (g3 ++ [last])%list. split; [reflexivity|]. split.
      + intros H. now destruct g3.
      + right. eauto. }
  destruct Hline as (line & rest & -> & Hrest & Hhold). simpl.
  unfold key_of.
  destruct (PyStr.partition ":" line) as [[key d] value] eqn:Ep.
  match goal with |- match bind ?r _ with _ => _ end => destruct r as [v| |] eqn:Er end;
    simpl.
  - destruct (PyStr.is_empty v); simpl; [reflexivity|].
    eexists. split; [reflexivity|]. split; [split; reflexivity|].
    split; [exact Hhold|]. simpl. intros Hnil. rewrite <- (Hrest Hnil), Ep.
    reflexivity.
  - reflexivity.
  - revert Er. destruct (_ && _); [|discriminate].
    pose proof (parse_string_no_timeout (PyStr.strip value)) as Hpt.
    destruct (parse_string (PyStr.strip value)) as [[? ?]| |]; simpl;
      congruence.
Qed.

Lemma peek_key_ext (f f' : FreePCBfile) :
  ext x f f' -> File f <> [] -> peek_key f' = peek_key f.
Proof.
  intros (Ef & _) Hne. unfold peek_key. rewrite Ef.
  destruct (File f); [contradiction|reflexivity].
Qed.

Lemma indent_level_ext (f f' : FreePCBfile) :
  ext x f f' -> File f <> [] -> indent_level f' = indent_level f.
Proof.
  intros (Ef & _) Hne. unfold indent_level. rewrite Ef.
  destruct (File f); [contradiction|reflexivity].
Qed.


Lemma at_loop_cases (E : exn) (f f' : FreePCBfile) :
  at_loop last x E f f' ->
  (File f = [] /\ end_error last = E) \/ in_text last x f f'.
Proof.
  intros (He & Hh & Hend). destruct (File f) eqn:Ef.
  - left. auto.
  - right. split; [exact He|]. split; [exact Hh|]. congruence.
Qed.

Lemma in_text_at_loop (E : exn) (f f' : FreePCBfile) :
  in_text last x f f' -> at_loop last x E f f'.
Proof. intros (He & Hh & Hne). split; [|split]; auto. contradiction. Qed.

Lemma Pad_init_ext (value : string) (g g' : FreePCBfile) :
  ext x g g' -> Pad_init value g' = Pad_init value g.
Proof.
  intros (_ & En). unfold Pad_init, line_error. now rewrite En.
Qed.

Lemma key_error_ext (key : string) (g g' : FreePCBfile) :
  ext x g g' -> key_error key g' = key_error key g.
Proof. intros (_ & En). unfold key_error. now rewrite En. Qed.

Lemma line_error_ext (what : string) (g g' : FreePCBfile) :
  ext x g g' -> line_error g' what = line_error g what.
Proof. intros (_ & En). unfold line_error. now rewrite En. Qed.

Lemma endswith_nonempty (p k : string) :
  p <> EmptyString -> PyStr.endswith p k = true -> k <> EmptyString.
Proof.
  intros Hp H ->. unfold PyStr.endswith in H. destruct p; [congruence|].
  discriminate.
Qed.

Lemma end_error_pad :
  PyStr.endswith "_pad" (key_of last) = true -> end_error last = AssertionError.
Proof. intros H. unfold end_error. rewrite H, !orb_true_r. reflexivity. Qed.

Lemma Pin_pad_step_sim (a : Pin) (f f' : FreePCBfile) :
  at_loop last x AssertionError f f' ->
  sim_control last (at_loop last x AssertionError) (in_text last x)
    (Pin_pad_step (a, f)) (Pin_pad_step (a, f')).
Proof.
  intros H. destruct (at_loop_cases H) as [[Ef Hend]|Hin].
  - unfold Pin_pad_step at 1, peek_key. rewrite Ef. simpl. auto.
  - pose proof Hin as (Hext & Hhold & Hne).
    unfold Pin_pad_step. rewrite (peek_key_ext Hext Hne).
    destruct (peek_key f) as [k| |] eqn:Ek; simpl; auto.
    destruct (PyStr.endswith "_pad" k) eqn:Hk; simpl.
    2:{ eexists. split; [reflexivity|exact Hin]. }
    pose proof (get_string_ext false Hin) as Hg.
    destruct (get_string false f) as [[[key value] g]|e|] eqn:Eg;
      [|rewrite Hg; simpl; auto|contradiction].
    destruct Hg as (g' & -> & Hext' & Hhold' & Hkey). simpl.
    assert (Hloop : at_loop last x AssertionError g g').
    { split; [exact Hext'|]. split; [exact Hhold'|]. intros Hnil.
      apply end_error_pad. rewrite <- (Hkey Hnil).
      assert (Hkk : fst (key, value) = k).
      { eapply get_string_peek; [exact Ek| |exact Eg].
        apply (endswith_nonempty (p:="_pad")); [discriminate|exact Hk]. }
      simpl in *. now subst. }
    rewrite (Pad_init_ext value Hext'), (key_error_ext key Hext').
    destruct (String.eqb key "top_pad"); [|destruct (String.eqb key "inner_pad");
      [|destruct (String.eqb key "bottom_pad")]];
      try (destruct (Pad_init value g) as [pad| |]; simpl; eauto);
      simpl; auto.
Qed.


Lemma ext_budget (g g' : FreePCBfile) : ext x g g' -> budget g' = S (budget g).
Proof.
  intros (Ef & _). unfold budget. rewrite Ef, length_app. simpl. lia.
Qed.

Lemma Pin_pad_loop_sim (p : Pin) (g g' : FreePCBfile) :
  at_loop last x AssertionError g g' ->
  sim_result last (in_text last x)
    (while (budget g) Pin_pad_step (p, g))
    (while (budget g') Pin_pad_step (p, g')).
Proof.
  intros H. pose proof H as (Hext & _).
  rewrite (@while_budget _ Pin_pad_step left_of Pin_pad_step_continue
             (budget g) (budget g') (p, g)).
  - apply (@while_sim _ last (at_loop last x AssertionError)
             (in_text last x)); [|exact H].
    intros; now apply Pin_pad_step_sim.
  - unfold left_of, budget, remaining. simpl. lia.
  - rewrite (ext_budget Hext). unfold left_of, budget, remaining. simpl. lia.
Qed.

Lemma end_error_pin : key_of last = "pin" -> end_error last = AssertionError.
Proof. intros H. unfold end_error. now rewrite H. Qed.

Lemma end_error_outline :
  key_of last = "outline_polyline" -> end_error last = AssertionError.
Proof. intros H. unfold end_error. now rewrite H. Qed.

Lemma end_error_corner :
  key_of last = "next_corner" -> end_error last = AssertionError.
Proof. intros H. unfold end_error. now rewrite H. Qed.

Lemma Pin_create_sim (modname : string) (opts : Options) (f f' : FreePCBfile) :
  in_text last x f f' ->
  sim_result last (in_text last x)
    (Pin_create_from_freepcb modname opts f)
    (Pin_create_from_freepcb modname opts f').
Proof.
  intros Hin. unfold Pin_create_from_freepcb.
  pose proof (get_string_ext false Hin) as Hg.
  destruct (get_string false f) as [[[key value] g]|e|] eqn:Eg;
    [|rewrite Hg; simpl; auto|contradiction].
  destruct Hg as (g' & -> & Hext' & Hhold' & Hkey). simpl.
  destruct (String.eqb_spec key "pin") as [->|Hk]; simpl; [|auto].
  destruct (parse_string value) as [[name len]|e|]; simpl; auto.
  rewrite (line_error_ext "four" Hext').
  destruct (PyStr.ints _) as [[|? [|? [|? [|? [|? ?]]]]]|]; simpl; auto.
  apply Pin_pad_loop_sim.
  split; [exact Hext'|]. split; [exact Hhold'|].
  intros Hnil. apply end_error_pin. symmetry. now apply Hkey.
Qed.

Lemma Polyline_corner_step_sim (a : Polyline) (f f' : FreePCBfile) :
  at_loop last x AssertionError f f' ->
  sim_control last (at_loop last x AssertionError) (in_text last x)
    (Polyline_corner_step (a, f)) (Polyline_corner_step (a, f')).
Proof.
  intros H. destruct (at_loop_cases H) as [[Ef Hend]|Hin].
  - unfold Polyline_corner_step at 1, peek_key. rewrite Ef. simpl. auto.
  - pose proof Hin as (Hext & Hhold & Hne).
    unfold Polyline_corner_step. rewrite (peek_key_ext Hext Hne).
    destruct (peek_key f) as [k| |] eqn:Ek; simpl; auto.
    destruct (String.eqb_spec k "next_corner") as [->|Hk]; simpl.
    2:{ eexists. split; [reflexivity|exact Hin]. }
    pose proof (get_string_ext false Hin) as Hg.
    destruct (get_string false f) as [[[key value] g]|e|] eqn:Eg;
      [|rewrite Hg; simpl; auto|contradiction].
    destruct Hg as (g' & -> & Hext' & Hhold' & Hkey). simpl.
    assert (Hkk : key = "next_corner").
    { change key with (fst (key, value)).
      eapply get_string_peek; [exact Ek|discriminate|exact Eg]. }
    subst key. simpl.
    rewrite (line_error_ext "three" Hext').
    destruct (PyStr.ints _) as [[|? [|? [|? [|? ?]]]]|]; simpl; auto.
    eexists. split; [reflexivity|].
    split; [exact Hext'|]. split; [exact Hhold'|].
    intros Hnil. apply end_error_corner. symmetry. now apply Hkey.
Qed.

Lemma Polyline_corner_loop_sim (p : Polyline) (g g' : FreePCBfile) :
  at_loop last x AssertionError g g' ->
  sim_result last (in_text last x)
    (while (budget g) Polyline_corner_step (p, g))
    (while (budget g') Polyline_corner_step (p, g')).
Proof.
  intros H. pose proof H as (Hext & _).
  rewrite (@while_budget _ Polyline_corner_step left_of
             Polyline_corner_step_continue (budget g) (budget g') (p, g)).
  - apply (@while_sim _ last (at_loop last x AssertionError)
             (in_text last x)); [|exact H].
    intros; now apply Polyline_corner_step_sim.
  - unfold left_of, budget, remaining. simpl. lia.
  - rewrite (ext_budget Hext). unfold left_of, budget, remaining. simpl. lia.
Qed.

Lemma end_error_index (k : string) :
  key_of last = k ->
  (String.eqb k "outline_polyline" || String.eqb k "next_corner"
   || String.eqb k "pin" || PyStr.endswith "_pad" k) = false ->
  end_error last = IndexError.
Proof. intros <- H. unfold end_error. now rewrite H. Qed.

Lemma Polyline_create_sim (opts : Options) (f f' : FreePCBfile) :
  in_text last x f f' ->
  sim_result last (at_loop last x IndexError)
    (Polyline_create_from_freepcb opts f)
    (Polyline_create_from_freepcb opts f').
Proof.
  intros Hin. unfold Polyline_create_from_freepcb.
  pose proof (get_string_ext false Hin) as Hg.
  destruct (get_string false f) as [[[key value] g]|e|] eqn:Eg;
    [|rewrite Hg; simpl; auto|contradiction].
  destruct Hg as (g' & -> & Hext' & Hhold' & Hkey). simpl.
  destruct (String.eqb_spec key "outline_polyline") as [->|Hk]; simpl; [|auto].
  rewrite (line_error_ext "three" Hext').
  destruct (PyStr.ints _) as [[|? [|? [|? [|? ?]]]]|]; simpl; auto.
  match goal with
  | |- context [while (budget g) Polyline_corner_step (?p, g)] =>
      assert (Hloop : sim_result last (in_text last x)
                        (while (budget g) Polyline_corner_step (p, g))
                        (while (budget g') Polyline_corner_step (p, g')));
      [|destruct (while (budget g) Polyline_corner_step (p, g))
          as [[p2 f2]|e|] eqn:Ew]
  end.
  { apply Polyline_corner_loop_sim.
    split; [exact Hext'|]. split; [exact Hhold'|].
    intros Hnil. apply end_error_outline. symmetry. now apply Hkey. }
  - destruct Hloop as (f2' & -> & Hin2). simpl.
    pose proof Hin2 as (Hext2 & Hhold2 & Hne2).
    rewrite (peek_key_ext Hext2 Hne2).
    destruct (peek_key f2) as [k| |] eqn:Ek; simpl; auto.
    destruct (String.eqb_spec k "close_polyline") as [->|Hk]; simpl.
    2:{ eexists. split; [reflexivity|]. now apply in_text_at_loop. }
    pose proof (get_string_ext false Hin2) as Hg.
    destruct (get_string false f2) as [[[key3 value3] f3]|e|] eqn:Eg3;
      [|rewrite Hg; simpl; auto|contradiction].
    destruct Hg as (f3' & -> & Hext3 & Hhold3 & Hkey3). simpl.
    destruct (Points p2); simpl; auto.
    eexists. split; [reflexivity|].
    split; [exact Hext3|]. split; [exact Hhold3|].
    intros Hnil. apply (end_error_index (k:="close_polyline")); [|reflexivity].
    rewrite <- (Hkey3 Hnil). change key3 with (fst (key3, value3)).
    eapply get_string_peek; [exact Ek|discriminate|exact Eg3].
  - simpl. destruct Hloop as [-> | ->]; simpl; auto.
  - simpl. simpl in Hloop. rewrite Hloop. reflexivity.
Qed.


Lemma loop_sim {A} (body : A * FreePCBfile -> result (control (A * FreePCBfile)))
    (Pc Pb : FreePCBfile -> FreePCBfile -> Prop) :
  (forall s s', body s = Ok (Continue s') -> left_of s' < left_of s) ->
  (forall a f f', Pc f f' -> sim_control last Pc Pb (body (a, f)) (body (a, f'))) ->
  forall a g g',
    ext x g g' -> Pc g g' ->
    sim_result last Pb (while (budget g) body (a, g))
      (while (budget g') body (a, g')).
Proof.
  intros Hcont Hstep a g g' Hext H.
  rewrite (@while_budget _ body left_of Hcont (budget g) (budget g') (a, g)).
  - now apply (@while_sim _ last Pc Pb).
  - unfold left_of, budget, remaining. simpl. lia.
  - rewrite (ext_budget Hext). unfold left_of, budget, remaining. simpl. lia.
Qed.

Lemma header_step_sim (m : PCBmodule) (f f' : FreePCBfile) :
  at_loop last x IndexError f f' ->
  sim_control last (at_loop last x IndexError) (in_text last x)
    (header_step (m, f)) (header_step (m, f')).
Proof.
  intros H. destruct (at_loop_cases H) as [[Ef Hend]|Hin].
  - unfold header_step at 1, indent_level. rewrite Ef. simpl. auto.
  - pose proof Hin as (Hext & Hhold & Hne).
    unfold header_step. rewrite (indent_level_ext Hext Hne).
    destruct (at_end_ext Hin) as (g & g' & -> & -> & Hin0).
    destruct (indent_level f) as [lvl| |] eqn:El; simpl; auto.
    destruct (lvl =? 0)%nat; simpl.
    2:{ eexists. split; [reflexivity|exact Hin]. }
    pose proof (get_string_ext false Hin0) as Hg.
    destruct (get_string false g) as [[[key value] g1]|e|] eqn:Eg;
      [|rewrite Hg; simpl; auto|contradiction].
    destruct Hg as (g1' & -> & Hext1 & Hhold1 & Hkey). simpl.
    rewrite (key_error_ext key Hext1).
    assert (Hloop : forall k, key = k ->
              (String.eqb k "outline_polyline" || String.eqb k "next_corner"
               || String.eqb k "pin" || PyStr.endswith "_pad" k) = false ->
              at_loop last x IndexError g1 g1').
    { intros k -> Hk. split; [exact Hext1|]. split; [exact Hhold1|].
      intros Hnil. apply (end_error_index (k:=k)); [|exact Hk].
      symmetry. now apply Hkey. }
    destruct (String.eqb_spec key "name");
      [|destruct (String.eqb_spec key "author");
        [|destruct (String.eqb_spec key "source");
          [|destruct (String.eqb_spec key "description")]]];
      simpl; auto; eexists; (split; [reflexivity|]);
      eapply Hloop; eauto.
Qed.

Lemma body_step_sim (opts : Options) (m : PCBmodule) (f f' : FreePCBfile) :
  at_loop last x IndexError f f' ->
  sim_control last (at_loop last x IndexError) (in_text last x)
    (body_step opts (m, f)) (body_step opts (m, f')).
Proof.
  intros H. destruct (at_loop_cases H) as [[Ef Hend]|Hin].
  - unfold body_step at 1, indent_level. rewrite Ef. simpl. auto.
  - pose proof Hin as (Hext & Hhold & Hne).
    unfold body_step. rewrite (indent_level_ext Hext Hne).
    destruct (at_end_ext Hin) as (g & g' & -> & -> & Hin0).
    destruct (indent_level f) as [lvl| |] eqn:El; simpl; auto.
    destruct (lvl =? 0)%nat; simpl.
    { eexists. split; [reflexivity|exact Hin]. }
    pose proof Hin0 as (Hext0 & Hhold0 & Hne0).
    rewrite (peek_key_ext Hext0 Hne0).
    destruct (peek_key g) as [k| |] eqn:Ek; simpl; auto.
    rewrite (key_error_ext k Hext0).
    pose proof (get_string_ext false Hin0) as Hg.
    pose proof (get_string_ext true Hin0) as Hgt.
    pose proof (Polyline_create_sim opts Hin0) as Hpoly.
    pose proof (Pin_create_sim (Name m) opts Hin0) as Hpin.
    assert (Hloop : forall b key value g1 g1',
              get_string b g = Ok (key, value, g1) ->
              ext x g1 g1' -> holds_last last g1 ->
              (File g1 = [] -> fst (key, value) = key_of last) ->
              k <> EmptyString ->
              (String.eqb k "outline_polyline" || String.eqb k "next_corner"
               || String.eqb k "pin" || PyStr.endswith "_pad" k) = false ->
              at_loop last x IndexError g1 g1').
    { intros b key value g1 g1' Eg Hext1 Hhold1 Hkey Hk0 Hk.
      split; [exact Hext1|]. split; [exact Hhold1|].
      intros Hnil. apply (end_error_index (k:=k)); [|exact Hk].
      rewrite <- (Hkey Hnil).
      eapply get_string_peek; [exact Ek|exact Hk0|exact Eg]. }
    repeat match goal with
      | |- context [String.eqb k ?c] =>
          destruct (String.eqb_spec k c) as [->|?]
      end;
      try (destruct (get_string false g) as [[[key value] g1]|e|] eqn:Eg;
           [destruct Hg as (g1' & -> & Hext1 & Hhold1 & Hkey); simpl;
            eexists; (split; [reflexivity|]);
            eapply Hloop; eauto; discriminate
           |rewrite Hg; simpl; auto|contradiction]).
    + destruct (Polyline_create_from_freepcb opts g) as [[p g1]|e|];
        simpl in Hpoly |- *.
      * destruct Hpoly as (g1' & -> & Hl). simpl. eauto.
      * destruct Hpoly as [-> | ->]; simpl; auto.
      * rewrite Hpoly. reflexivity.
    + destruct (get_string true g) as [[[key value] g1]|e|] eqn:Eg;
        [destruct Hgt as (g1' & -> & Hext1 & Hhold1 & Hkey); simpl;
         eexists; (split; [reflexivity|]);
         eapply Hloop; eauto; discriminate
        |rewrite Hgt; simpl; auto|contradiction].
    + destruct (Pin_create_from_freepcb (Name m) opts g) as [[p g1]|e|];
        simpl in Hpin |- *.
      * destruct Hpin as (g1' & -> & Hl). simpl.
        eexists. split; [reflexivity|]. now apply in_text_at_loop.
      * destruct Hpin as [-> | ->]; simpl; auto.
      * rewrite Hpin. reflexivity.
    + simpl. auto.
Qed.


Lemma PCBmodule_init_sim (opts : Options) (now : Q) (f f' : FreePCBfile) :
  in_text last x f f' ->
  sim_result last (in_text last x)
    (PCBmodule_init opts now f) (PCBmodule_init opts now f').
Proof.
  intros Hin. unfold PCBmodule_init.
  pose proof (@loop_sim _ header_step (at_loop last x IndexError)
                (in_text last x) header_step_continue header_step_sim
                PCBmodule_new f f' (proj1 Hin)
                (in_text_at_loop IndexError Hin)) as Hh.
  destruct (while (budget f) header_step (PCBmodule_new, f))
    as [[m1 f1]|e|]; simpl in Hh |- *;
    [|destruct Hh as [-> | ->]; simpl; auto|rewrite Hh; reflexivity].
  destruct Hh as (f1' & -> & Hin1). simpl.
  destruct (negb (PyStr.is_empty (Name m1))); simpl; auto.
  destruct (negb (PyStr.is_empty (Author m1))); simpl; auto.
  destruct (negb (PyStr.is_empty (Source m1))); simpl; auto.
  pose proof (@loop_sim _ (body_step opts) (at_loop last x IndexError)
                (in_text last x) (@body_step_continue opts)
                (body_step_sim opts) m1 f1 f1' (proj1 Hin1)
                (in_text_at_loop IndexError Hin1)) as Hb.
  destruct (while (budget f1) (body_step opts) (m1, f1))
    as [[m2 f2]|e|]; simpl in Hb |- *;
    [|destruct Hb as [-> | ->]; simpl; auto|rewrite Hb; reflexivity].
  destruct Hb as (f2' & -> & Hin2). simpl.
  destruct (opt_string_eqb (Units m2) "NM"); simpl; auto.
  destruct (opt_truthy (SelectionRect m2)); simpl; auto.
  destruct (opt_truthy (RefText m2)); simpl; auto.
  destruct (String.eqb (Centroid m2) "0 0 0 0"); simpl; auto.
  eauto.
Qed.

Lemma Library_step_sim (opts : Options) (clock : nat -> Q)
    (mods : list PCBmodule) (f f' : FreePCBfile) :
  in_text last x f f' ->
  sim_control last (in_text last x) (fun _ _ => False)
    (Library_step opts clock (mods, f)) (Library_step opts clock (mods, f')).
Proof.
  intros Hin. unfold Library_step.
  destruct (at_end_ext Hin) as (g & g' & -> & -> & Hin0).
  pose proof (PCBmodule_init_sim opts (clock (List.length mods)) Hin0) as Hm.
  destruct (PCBmodule_init opts (clock (List.length mods)) g) as [[m g1]|e|];
    simpl in Hm |- *.
  - destruct Hm as (g1' & -> & Hin1). simpl. eauto.
  - destruct Hm as [-> | ->]; simpl; auto.
  - rewrite Hm. reflexivity.
Qed.

Lemma Library_init_sim (opts : Options) (clock : nat -> Q)
    (f f' : FreePCBfile) (lib : Library) :
  in_text last x f f' ->
  Library_init f' opts clock = Ok lib ->
  Library_init f opts clock = Raise (end_error last).
Proof.
  intros Hin. unfold Library_init.
  pose proof (@loop_sim _ (Library_step opts clock) (in_text last x)
                (fun _ _ => False) (@Library_step_continue opts clock)
                (Library_step_sim opts clock) [] f f' (proj1 Hin) Hin) as Hl.
  pose proof (@while_no_timeout _ (Library_step opts clock) left_of
                (@Library_step_continue opts clock) (budget f) ([], f)
                (@Library_step_no_timeout opts clock)) as Ht.
  destruct (while (budget f) (Library_step opts clock) ([], f))
    as [[mods g]|e|]; simpl in Hl |- *.
  - destruct Hl as (? & _ & []).
  - destruct Hl as [-> | ->]; [discriminate|reflexivity].
  - exfalso. apply Ht; [|reflexivity].
    unfold left_of, budget, remaining. simpl. lia.
Qed.

End Unterminated.

Lemma rstrip_empty_all_space (s : string) :
  PyStr.is_empty (PyStr.rstrip s) = all_space s.
Proof.
  induction s as [|c s IH]; simpl; [reflexivity|].
  rewrite IH. destruct (all_space s), (PyStr.is_space c); reflexivity.
Qed.

Lemma lstrip_all_space (s : string) : all_space (PyStr.lstrip s) = all_space s.
Proof.
  induction s as [|c s IH]; simpl; [reflexivity|].
  destruct (PyStr.is_space c) eqn:E; simpl; [exact IH|]. now rewrite E.
Qed.

Lemma rstrip_all_space (s : string) : all_space (PyStr.rstrip s) = all_space s.
Proof.
  induction s as [|c s IH]; simpl; [reflexivity|].
  rewrite rstrip_empty_all_space.
  destruct (all_space s) eqn:E, (PyStr.is_space c) eqn:Ec; simpl;
    rewrite ?Ec, ?IH; auto.
Qed.

Lemma is_blank_all_space (s : string) : is_blank s = all_space s.
Proof.
  unfold is_blank, PyStr.strip.
  now rewrite rstrip_empty_all_space, lstrip_all_space.
Qed.

Lemma is_blank_rstrip (s : string) : is_blank (PyStr.rstrip s) = is_blank s.
Proof. now rewrite !is_blank_all_space, rstrip_all_space. Qed.

(** C10, amended: on an exhausted reader [indent_level] raises IndexError
    and [peek_key], which asserts that a line remains, raises
    AssertionError.  A source that is parsed to a library when one more
    line follows its last non-blank line is not parsed without that line:
    the parse raises [end_error] of the last line, which is AssertionError
    when the key of that line is outline_polyline, next_corner, pin or ends
    in _pad, and IndexError for every other key. *)
Theorem parse_stops_after_last_record :
  (forall n, indent_level {| File := []; Lineno := n |} = Raise IndexError) /\
  (forall n, peek_key {| File := []; Lineno := n |} = Raise AssertionError) /\
  (forall (opts : Options) (clock : nat -> Q) (pre : list string)
          (last next : string) (lib : Library),
      is_blank last = false ->
      Library_init (FreePCBfile_init (pre ++ [last; next])) opts clock
      = Ok lib ->
      Library_init (FreePCBfile_init (pre ++ [last])) opts clock
      = Raise (end_error (PyStr.rstrip last))).
Proof.
  split; [reflexivity|]. split; [reflexivity|].
  intros opts clock pre last next lib Hlast Hok.
  rewrite <- is_blank_rstrip in Hlast.
  eapply (Library_init_sim Hlast); [|exact Hok].
  unfold FreePCBfile_init, in_text, ext, holds_last. simpl.
  rewrite !map_app. simpl. split; [split; [|reflexivity]|].
  - now rewrite <- app_assoc.
  - split; [right; eauto|]. now destruct (map PyStr.rstrip pre).
Qed.

(** C10 at the footprint source cut after its centroid record, and whole. *)
Lemma parse_stops_after_last_record_witness :
  Library_init (FreePCBfile_init (firstn 8 footprint_source)) no_options epoch
  = Raise IndexError /\
  Library_init (FreePCBfile_init footprint_source) no_options epoch
  = Raise AssertionError.
Proof.
  split.
  - apply (proj2 (proj2 parse_stops_after_last_record) no_options epoch
             (firstn 7 footprint_source) "  centroid: 0 0 0 0" EmptyString
             {| Modules := [set_Graphics []
                  (set_Centroid "0 0 0 0"
                   (set_RefText (Some "500000 0 0 0 50000")
                    (set_SelectionRect (Some "-1000000 -500000 1000000 500000")
                     (set_Units (Some "NM")
                      (set_Description "chip resistor"
                       (set_Source "IPC-7351"
                        (set_Author "IPC"
                         (set_Name "R0603" PCBmodule_new))))))))] |});
      [reflexivity|vm_compute; reflexivity].
  - pose proof (proj2 (proj2 parse_stops_after_last_record) no_options epoch
             (firstn 15 footprint_source)
             "      top_pad: 1 500000 250000 250000 0" EmptyString) as H.
    destruct (Library_init
                (FreePCBfile_init
                   (firstn 15 footprint_source
                    ++ ["      top_pad: 1 500000 250000 250000 0"; EmptyString]))
                no_options epoch) as [lib| |] eqn:E;
      [|vm_compute in E; discriminate E|vm_compute in E; discriminate E].
    exact (H lib eq_refl eq_refl).
Defined.

(** C10 as stated promises an indexing error; a source that ends in a pad
    record is stopped by the assertion of [peek_key] instead. *)
Lemma parse_stops_with_assertion :
  is_ok (Library_init (FreePCBfile_init (footprint_source ++ [EmptyString])%list)
           no_options epoch) = true /\
  Library_init (FreePCBfile_init footprint_source) no_options epoch
  = Raise AssertionError /\
  Library_init (FreePCBfile_init footprint_source) no_options epoch
  <> Raise IndexError.
Proof.
  split; [reflexivity|]. split; [reflexivity|]. vm_compute. discriminate.
Qed.

(** ** Blank lines and the line counter

    Two runs of the parser are compared: the second reads the text of the
    first with one empty line more, inserted before a line that is not
    indented and whose key is passive, or reads the same text with another
    line count.  The runs agree, up to the line numbers in messages. *)

Set Warnings "-unused-intro-pattern".

Lemma same_kind_refl (e : exn) : same_kind e e.
Proof. now destruct e. Qed.

#[local] Hint Resolve same_kind_refl : core.

Lemma skip_blank_text (file : list string) (n n' : Z) :
  File (skip_blank file n) = File (skip_blank file n').
Proof.
  revert n n'. induction file as [|l file IH]; intros n n'; simpl;
    [reflexivity|].
  destruct (is_blank l); [apply IH|reflexivity].
Qed.

Lemma Pad_init_text (value : string) (f f' : FreePCBfile) :
  rel_result same_kind eq (Pad_init value f) (Pad_init value f').
Proof.
  unfold Pad_init.
  destruct (PyStr.ints _) as [[|? [|? [|? [|? [|? [|? ?]]]]]]|]; simpl; auto.
Qed.

Section Inserted.

Variable h0 : string.
Variable rest : list string.
Hypothesis h0_level : halfindents h0 / 2 = 0.
Hypothesis h0_passive : passive_key (key_of h0) = true.

Lemma near_text_near (f f' : FreePCBfile) : near_text (h0 :: rest) f f' -> near (h0 :: rest) f f'.
Proof.
  intros [(l & g & _ & E & E')|H]; [left|right; exact H].
  exists (l :: g). auto.
Qed.

Lemma skip_blank_inserted (g : list string) (n n' : Z) :
  near_text (h0 :: rest) (skip_blank (g ++ h0 :: rest) n) (skip_blank (g ++ EmptyString :: h0 :: rest) n').
Proof.
  revert n n'. induction g as [|l g IH]; intros n n'.
  - right. unfold same_text. cbn [app skip_blank].
    change (is_blank EmptyString) with true. cbv iota.
    exact (skip_blank_text (h0 :: rest) _ _).
  - cbn [app skip_blank]. destruct (is_blank l) eqn:El; [apply IH|].
    left. exists l, g. auto.
Qed.

Lemma skip_blank_near (f f' : FreePCBfile) :
  near (h0 :: rest) f f' ->
  near_text (h0 :: rest) (skip_blank (File f) (Lineno f)) (skip_blank (File f') (Lineno f')).
Proof.
  intros [(g & -> & ->)|H].
  - apply skip_blank_inserted.
  - right. unfold same_text in *. rewrite H. apply skip_blank_text.
Qed.

Lemma near_text_empty (f f' : FreePCBfile) :
  near_text (h0 :: rest) f f' ->
  match File f with [] => true | _ => false end
  = match File f' with [] => true | _ => false end.
Proof.
  intros [(l & g & _ & -> & ->)|H]; [reflexivity|]. now rewrite H.
Qed.

Lemma at_end_near (f f' : FreePCBfile) :
  near (h0 :: rest) f f' ->
  fst (at_end f) = fst (at_end f') /\
  near_text (h0 :: rest) (snd (at_end f)) (snd (at_end f')).
Proof.
  intros H. apply skip_blank_near in H. unfold at_end. cbn [fst snd].
  split; [now apply near_text_empty|exact H].
Qed.

Lemma get_string_near (b : bool) (f f' : FreePCBfile) :
  near (h0 :: rest) f f' ->
  rel_result same_kind (near_state (h0 :: rest)) (get_string b f) (get_string b f').
Proof.
  intros H. apply skip_blank_near in H. unfold get_string.
  destruct H as [(l & g & _ & -> & ->)|H].
  - destruct (PyStr.partition ":" l) as [[key d] value].
    match goal with
    | |- rel_result _ _ (bind ?r _) _ => destruct r as [v|e|]
    end; simpl; auto.
    destruct (PyStr.is_empty v); simpl; auto.
    split; [reflexivity|]. left. exists g. auto.
  - unfold same_text in H. rewrite H.
    destruct (File (skip_blank (File f') (Lineno f'))) as [|line tl];
      [reflexivity|].
    destruct (PyStr.partition ":" line) as [[key d] value].
    match goal with
    | |- rel_result _ _ (bind ?r _) _ => destruct r as [v|e|]
    end; simpl; auto.
    destruct (PyStr.is_empty v); simpl; auto.
    split; [reflexivity|]. right. reflexivity.
Qed.

Lemma indent_level_near (f f' : FreePCBfile) :
  near (h0 :: rest) f f' -> indent_level f' = indent_level f.
Proof.
  unfold indent_level. intros [(g & -> & ->)|H]; [|now rewrite H].
  destruct g as [|l g]; [|reflexivity]. cbn [app]. now rewrite h0_level.
Qed.

Lemma peek_key_near_text (f f' : FreePCBfile) :
  near_text (h0 :: rest) f f' -> peek_key f' = peek_key f.
Proof.
  unfold peek_key. intros [(l & g & _ & -> & ->)|H]; [reflexivity|].
  now rewrite H.
Qed.

Lemma peek_key_near (f f' : FreePCBfile) :
  near (h0 :: rest) f f' ->
  peek_key f' = peek_key f \/
  (peek_key f = Ok (key_of h0) /\ peek_key f' = Ok EmptyString).
Proof.
  intros [(g & E & E')|H].
  - destruct g as [|l g].
    + right. split; [apply (peek_key_key_of _ E)|].
      apply (peek_key_key_of _ E').
    + left. unfold peek_key. now rewrite E, E'.
  - left. unfold peek_key. now rewrite H.
Qed.

Lemma h0_no_pad : PyStr.endswith "_pad" (key_of h0) = false.
Proof.
  unfold passive_key in h0_passive.
  apply andb_prop in h0_passive as [_ H]. now apply negb_true_iff in H.
Qed.

Lemma h0_no_corner : String.eqb (key_of h0) "next_corner" = false.
Proof.
  unfold passive_key in h0_passive.
  apply andb_prop in h0_passive as [H _]. apply andb_prop in H as [H _].
  now apply negb_true_iff in H.
Qed.

Lemma h0_no_close : String.eqb (key_of h0) "close_polyline" = false.
Proof.
  unfold passive_key in h0_passive.
  apply andb_prop in h0_passive as [H _]. apply andb_prop in H as [_ H].
  now apply negb_true_iff in H.
Qed.

Ltac use_get_string b f f' H :=
  let Hg := fresh "Hg" in
  pose proof (@get_string_near b f f' H) as Hg;
  destruct (get_string b f) as [[[? ?] ?]|?|],
           (get_string b f') as [[[? ?] ?]|?|];
  simpl in Hg |- *; try contradiction; auto;
  try (let Hs := fresh "Hs" in
       destruct Hg as [Hg Hs]; simpl in Hg, Hs; injection Hg as <- <-).

Lemma Pin_pad_step_near (s s' : Pin * FreePCBfile) :
  near_state (h0 :: rest) s s' ->
  rel_result same_kind (rel_control (near_state (h0 :: rest)))
    (Pin_pad_step s) (Pin_pad_step s').
Proof.
  destruct s as [p f], s' as [p' f']. intros [Hp Hf]. simpl in Hp, Hf.
  subst p'. unfold Pin_pad_step.
  destruct (peek_key_near Hf) as [-> | [-> ->]].
  2:{ simpl. rewrite h0_no_pad. simpl. split; auto. }
  destruct (peek_key f) as [k|e|]; simpl; auto.
  destruct (PyStr.endswith "_pad" k); simpl; [|split; auto].
  use_get_string false f f' Hf.
  match goal with
  | |- context [Pad_init ?v ?g] =>
      match goal with
      | |- context [Pad_init v ?g'] =>
          lazymatch g' with
          | g => fail
          | _ => pose proof (Pad_init_text v g g') as Hp
          end
      end
  end.
  repeat match goal with
    | |- context [String.eqb ?k ?c] => destruct (String.eqb k c)
    end;
    try (match type of Hp with
         | rel_result _ _ ?a ?b => destruct a, b
         end; simpl in Hp |- *; try contradiction; auto; subst;
         split; auto);
    simpl; auto.
Qed.

Lemma near_budget (f f' : FreePCBfile) :
  near (h0 :: rest) f f' -> budget f <= budget f'.
Proof.
  unfold budget. intros [(g & -> & ->)|H]; [|now rewrite H].
  rewrite !length_app. simpl. lia.
Qed.

Lemma loop_near {A} (body : A * FreePCBfile -> result (control (A * FreePCBfile)))
    (a : A) (f f' : FreePCBfile) :
  (forall s s', body s = Ok (Continue s') -> left_of s' < left_of s) ->
  (forall s s', near_state (h0 :: rest) s s' ->
                rel_result same_kind (rel_control (near_state (h0 :: rest)))
                  (body s) (body s')) ->
  near (h0 :: rest) f f' ->
  rel_result same_kind (near_state (h0 :: rest))
    (while (budget f) body (a, f)) (while (budget f') body (a, f')).
Proof.
  intros Hcont Hb Hf. pose proof (near_budget Hf) as Hle.
  rewrite (@while_budget _ body left_of Hcont (budget f) (budget f') (a, f));
    [|unfold left_of, budget, remaining in *; simpl; lia..].
  apply while_rel; [exact Hb|]. split; [reflexivity|exact Hf].
Qed.

Ltac use_loop H :=
  match type of H with
  | rel_result _ _ ?a ?b =>
      destruct a as [[? ?]|?|], b as [[? ?]|?|];
      simpl in H |- *; try contradiction; auto;
      try (let Hs := fresh "Hs" in
           destruct H as [H Hs]; simpl in H, Hs; subst)
  end.

Lemma Pin_create_near (modname : string) (opts : Options) (f f' : FreePCBfile) :
  near (h0 :: rest) f f' ->
  rel_result same_kind (near_state (h0 :: rest))
    (Pin_create_from_freepcb modname opts f)
    (Pin_create_from_freepcb modname opts f').
Proof.
  intros Hf. unfold Pin_create_from_freepcb.
  use_get_string false f f' Hf.
  destruct (py_assert _); simpl; auto.
  destruct (parse_string _) as [[name len]|e|]; simpl; auto.
  destruct (PyStr.ints _) as [[|? [|? [|? [|? [|? ?]]]]]|]; simpl; auto.
  apply loop_near;
    [apply Pin_pad_step_continue|apply Pin_pad_step_near|assumption].
Qed.

Lemma Polyline_corner_step_near (s s' : Polyline * FreePCBfile) :
  near_state (h0 :: rest) s s' ->
  rel_result same_kind (rel_control (near_state (h0 :: rest)))
    (Polyline_corner_step s) (Polyline_corner_step s').
Proof.
  destruct s as [p f], s' as [p' f']. intros [Hp Hf]. simpl in Hp, Hf.
  subst p'. unfold Polyline_corner_step.
  destruct (peek_key_near Hf) as [-> | [-> ->]].
  2:{ simpl. rewrite h0_no_corner. simpl. split; auto. }
  destruct (peek_key f) as [k|e|]; simpl; auto.
  destruct (String.eqb k "next_corner"); simpl; [|split; auto].
  use_get_string false f f' Hf.
  destruct (py_assert _); simpl; auto.
  destruct (PyStr.ints _) as [[|? [|? [|? [|? ?]]]]|]; simpl; auto.
  split; auto.
Qed.

Lemma Polyline_create_near (opts : Options) (f f' : FreePCBfile) :
  near (h0 :: rest) f f' ->
  rel_result same_kind (near_state (h0 :: rest))
    (Polyline_create_from_freepcb opts f)
    (Polyline_create_from_freepcb opts f').
Proof.
  intros Hf. unfold Polyline_create_from_freepcb.
  use_get_string false f f' Hf.
  destruct (py_assert _); simpl; auto.
  destruct (PyStr.ints _) as [[|? [|? [|? [|? ?]]]]|]; simpl; auto.
  match goal with
  | H : near (h0 :: rest) ?g ?g' |- context [while (budget ?g) ?body (?p, ?g)] =>
      pose proof (@loop_near _ body p g g' Polyline_corner_step_continue
                    Polyline_corner_step_near H) as Hl
  end.
  use_loop Hl.
  match goal with
  | H : near (h0 :: rest) ?g ?g' |- context [peek_key ?g'] =>
      destruct (peek_key_near H) as [-> | [-> ->]];
      [destruct (peek_key g) as [k|e|]; simpl; auto;
       destruct (String.eqb k "close_polyline"); simpl;
       [use_get_string false g g' H|split; auto]
      |simpl; rewrite h0_no_close; simpl; split; auto]
  end.
  destruct (Points _); simpl; auto. split; auto.
Qed.

Lemma header_step_near (s s' : PCBmodule * FreePCBfile) :
  near_state (h0 :: rest) s s' ->
  rel_result same_kind (rel_control (near_state (h0 :: rest)))
    (header_step s) (header_step s').
Proof.
  destruct s as [p f], s' as [p' f']. intros [Hp Hf]. simpl in Hp, Hf.
  subst p'. unfold header_step. rewrite (indent_level_near Hf).
  destruct (at_end_near Hf) as [He Hf0]. apply near_text_near in Hf0.
  destruct (at_end f) as [e g], (at_end f') as [e' g']. simpl in He, Hf0.
  subst e'.
  destruct (indent_level f) as [lvl|?|]; simpl; auto.
  destruct (lvl =? 0)%nat; simpl; [|split; auto].
  destruct e; simpl; [split; auto|].
  use_get_string false g g' Hf0.
  repeat match goal with
    | |- context [String.eqb ?k ?c] => destruct (String.eqb k c)
    end; simpl; auto; split; auto.
Qed.

Lemma body_step_near (opts : Options) (s s' : PCBmodule * FreePCBfile) :
  near_state (h0 :: rest) s s' ->
  rel_result same_kind (rel_control (near_state (h0 :: rest)))
    (body_step opts s) (body_step opts s').
Proof.
  destruct s as [p f], s' as [p' f']. intros [Hp Hf]. simpl in Hp, Hf.
  subst p'. unfold body_step. rewrite (indent_level_near Hf).
  destruct (at_end_near Hf) as [He Hf1].
  pose proof (near_text_near Hf1) as Hf0.
  destruct (at_end f) as [e g], (at_end f') as [e' g'].
  simpl in He, Hf0, Hf1. subst e'.
  destruct (indent_level f) as [lvl|?|]; simpl; auto.
  destruct (lvl =? 0)%nat; simpl; [split; auto|].
  destruct e; simpl; [split; auto|].
  rewrite (peek_key_near_text Hf1).
  destruct (peek_key g) as [k|?|]; simpl; auto.
  pose proof (Polyline_create_near opts Hf0) as Hpoly.
  pose proof (Pin_create_near (Name p) opts Hf0) as Hpin.
  repeat match goal with
    | |- context [String.eqb k ?c] => destruct (String.eqb k c)
    end;
    try (use_get_string false g g' Hf0; split; auto; fail);
    try (use_get_string true g g' Hf0; split; auto; fail);
    try (use_loop Hpoly; split; auto; fail);
    try (use_loop Hpin; split; auto; fail).
Qed.

Lemma PCBmodule_init_near (opts : Options) (now : Q) (f f' : FreePCBfile) :
  near (h0 :: rest) f f' ->
  rel_result same_kind (near_state (h0 :: rest))
    (PCBmodule_init opts now f) (PCBmodule_init opts now f').
Proof.
  intros Hf. unfold PCBmodule_init.
  pose proof (@loop_near _ header_step PCBmodule_new f f'
                header_step_continue header_step_near Hf) as Hh.
  use_loop Hh.
  repeat (destruct (py_assert _); simpl; auto).
  match goal with
  | H : near (h0 :: rest) ?g ?g' |- context [while (budget ?g) ?body (?p, ?g)] =>
      pose proof (@loop_near _ body p g g' (@body_step_continue opts)
                    (@body_step_near opts) H) as Hb
  end.
  use_loop Hb.
  repeat (destruct (py_assert _); simpl; auto).
  split; auto.
Qed.

Lemma Library_step_near (opts : Options) (clock : nat -> Q)
    (s s' : list PCBmodule * FreePCBfile) :
  near_state (h0 :: rest) s s' ->
  rel_result same_kind (rel_control (near_state (h0 :: rest)))
    (Library_step opts clock s) (Library_step opts clock s').
Proof.
  destruct s as [p f], s' as [p' f']. intros [Hp Hf]. simpl in Hp, Hf.
  subst p'. unfold Library_step.
  destruct (at_end_near Hf) as [He Hf0]. apply near_text_near in Hf0.
  destruct (at_end f) as [e g], (at_end f') as [e' g']. simpl in He, Hf0.
  subst e'. destruct e; simpl; [split; auto|].
  pose proof (PCBmodule_init_near opts (clock (List.length p)) Hf0) as Hm.
  use_loop Hm. split; auto.
Qed.

Lemma Library_init_near (opts : Options) (clock : nat -> Q) (f f' : FreePCBfile) :
  near (h0 :: rest) f f' ->
  rel_result same_kind eq (Library_init f opts clock) (Library_init f' opts clock).
Proof.
  intros Hf. unfold Library_init.
  pose proof (@loop_near _ (Library_step opts clock) [] f f'
                (@Library_step_continue opts clock)
                (@Library_step_near opts clock) Hf) as Hl.
  use_loop Hl. reflexivity.
Qed.

End Inserted.

Lemma blank_rstrip_empty (b : string) :
  is_blank b = true -> PyStr.rstrip b = EmptyString.
Proof.
  rewrite is_blank_all_space, <- rstrip_empty_all_space.
  now destruct (PyStr.rstrip b).
Qed.

Lemma rel_result_same_kind_sym {A} (r1 r2 : result A) :
  rel_result same_kind eq r1 r2 -> rel_result same_kind eq r2 r1.
Proof.
  destruct r1 as [a|e|], r2 as [a'|e'|]; simpl; auto.
  destruct e, e'; simpl; auto; congruence.
Qed.

Lemma Library_init_text (opts : Options) (clock : nat -> Q) (f f' : FreePCBfile) :
  same_text f f' ->
  rel_result same_kind eq (Library_init f opts clock) (Library_init f' opts clock).
Proof.
  intros H.
  apply (@Library_init_near EmptyString [] eq_refl eq_refl opts clock f f').
  right. exact H.
Qed.

Lemma Library_init_leading_blank (opts : Options) (clock : nat -> Q)
    (b : string) (lines : list string) :
  is_blank b = true ->
  rel_result same_kind eq
    (Library_init (FreePCBfile_init (b :: lines)) opts clock)
    (Library_init (FreePCBfile_init lines) opts clock).
Proof.
  intros Hb. rewrite <- is_blank_rstrip in Hb.
  set (f2 := {| File := map PyStr.rstrip lines; Lineno := 2 |}).
  assert (E : Library_init (FreePCBfile_init (b :: lines)) opts clock
              = Library_init f2 opts clock).
  { assert (Hstep : Library_step opts clock ([], FreePCBfile_init (b :: lines))
                    = Library_step opts clock ([], f2)).
    { unfold Library_step, at_end, FreePCBfile_init.
      cbn [map File Lineno skip_blank]. rewrite Hb. reflexivity. }
    unfold Library_init.
    change (budget (FreePCBfile_init (b :: lines))) with (S (budget f2)).
    rewrite while_unfold, Hstep, <- while_unfold.
    rewrite (@while_budget _ (Library_step opts clock) left_of
               (@Library_step_continue opts clock)
               (S (budget f2)) (budget f2) ([], f2));
      [reflexivity|unfold left_of, budget, remaining; simpl; lia..]. }
  rewrite E. apply Library_init_text. reflexivity.
Qed.

Lemma Library_init_blank_inserted (opts : Options) (clock : nat -> Q)
    (b : string) (pre : list string) (l : string) (post : list string) :
  is_blank b = true ->
  blank_tolerant l = true ->
  rel_result same_kind eq
    (Library_init (FreePCBfile_init (pre ++ b :: l :: post)) opts clock)
    (Library_init (FreePCBfile_init (pre ++ l :: post)) opts clock).
Proof.
  intros Hb Hl. apply andb_prop in Hl as [Hlevel Hkey].
  apply Nat.eqb_eq in Hlevel.
  apply rel_result_same_kind_sym.
  apply (@Library_init_near (PyStr.rstrip l) (map PyStr.rstrip post)
           Hlevel Hkey).
  left. exists (map PyStr.rstrip pre). unfold FreePCBfile_init.
  cbn [File]. rewrite !map_app. cbn [map].
  rewrite (@blank_rstrip_empty b Hb). auto.
Qed.

(** C5, amended: [at_end] and [get_string] skip a blank line, counting it,
    while [indent_level] and [peek_key] do not: on a blank line they answer
    level 0 and the empty key.  Hence a blank line in front of a source, or
    anywhere in front of a line that is not indented and whose key is none
    of next_corner, close_polyline and the pad keys, changes nothing of the
    parse but the line numbers in the messages of exceptions. *)
Theorem blank_lines_skipped_by_at_end_and_get_string :
  (forall (b : string) (file : list string) (n : Z) (allow_blank : bool),
      is_blank b = true ->
      at_end {| File := b :: file; Lineno := n |}
      = at_end {| File := file; Lineno := n + 1 |} /\
      get_string allow_blank {| File := b :: file; Lineno := n |}
      = get_string allow_blank {| File := file; Lineno := n + 1 |}) /\
  (forall (file : list string) (n : Z),
      indent_level {| File := EmptyString :: file; Lineno := n |} = Ok 0 /\
      peek_key {| File := EmptyString :: file; Lineno := n |} = Ok EmptyString) /\
  (forall (opts : Options) (clock : nat -> Q) (b : string)
          (lines : list string),
      is_blank b = true ->
      rel_result same_kind eq
        (Library_init (FreePCBfile_init (b :: lines)) opts clock)
        (Library_init (FreePCBfile_init lines) opts clock)) /\
  (forall (opts : Options) (clock : nat -> Q) (b : string)
          (pre : list string) (l : string) (post : list string),
      is_blank b = true ->
      blank_tolerant l = true ->
      rel_result same_kind eq
        (Library_init (FreePCBfile_init (pre ++ b :: l :: post)) opts clock)
        (Library_init (FreePCBfile_init (pre ++ l :: post)) opts clock)).
Proof.
  split; [|split; [|split]].
  - intros b file n allow_blank Hb. unfold at_end, get_string. simpl.
    rewrite Hb. auto.
  - intros. split; reflexivity.
  - intros. now apply Library_init_leading_blank.
  - intros. now apply Library_init_blank_inserted.
Qed.

(** C5 at the footprint source, with a blank line between two records of
    the header of its module. *)
Lemma blank_lines_skipped_by_at_end_and_get_string_witness :
  rel_result same_kind eq
    (Library_init
       (FreePCBfile_init
          (firstn 2 footprint_source ++ " " :: skipn 2 footprint_source
           ++ [EmptyString])%list)
       no_options epoch)
    (Library_init (FreePCBfile_init (footprint_source ++ [EmptyString])%list)
       no_options epoch).
Proof.
  apply (proj2 (proj2 (proj2 blank_lines_skipped_by_at_end_and_get_string))
           no_options epoch " " (firstn 2 footprint_source)
           (nth 2 footprint_source EmptyString)
           (skipn 3 footprint_source ++ [EmptyString])%list);
    reflexivity.
Defined.

(** C5 as stated fails: a blank line between the header of a module and its
    first body record turns a source that parses into one that does not. *)
Lemma blank_line_before_body_breaks_parse :
  is_ok (Library_init (FreePCBfile_init (footprint_source ++ [EmptyString])%list)
           no_options epoch) = true /\
  is_ok (Library_init
           (FreePCBfile_init
              (firstn 4 footprint_source ++ [EmptyString]
               ++ skipn 4 footprint_source ++ [EmptyString])%list)
           no_options epoch) = false.
Proof. split; reflexivity. Qed.

(** ** The clock and the hash *)


Lemma same_but_tedit_set (m : PCBmodule) (t t' : Q) :
  same_but_tedit (set_tedit t m) (set_tedit t' m).
Proof. reflexivity. Qed.





Lemma same_modules_length (l l' : list PCBmodule) :
  same_modules l l' -> List.length l = List.length l'.
Proof.
  unfold same_modules. intros H.
  rewrite <- (length_map (set_tedit 0%Q) l), H. apply length_map.
Qed.
















Section Clock.

Variable py_float : string -> option Q.
Variable float_repr : Q -> string.
Variable str_repr : string -> string.
Variable md5 : string -> string.












End Clock.


(** ** Bounding boxes and pads *)

(** [<] on rationals, by cases. *)
Lemma Qltb_cases (x y : Q) :
  (Qltb x y = true /\ (x < y)%Q) \/ (Qltb x y = false /\ (y <= x)%Q).
Proof.
  unfold Qltb. destruct (Qle_bool y x) eqn:E.
  - right. split; [reflexivity|]. now apply Qle_bool_iff.
  - left. split; [reflexivity|]. apply Qnot_le_lt. intros H.
    apply Qle_bool_iff in H. congruence.
Qed.

(** ** Bounding boxes enclose what they bound *)

Lemma fold_min_spec (l : list Q) (x : Q) :
  let m := fold_left (fun cur y => if Qltb y cur then y else cur) l x in
  In m (x :: l) /\ forall y, In y (x :: l) -> (m <= y)%Q.
Proof.
  revert x. induction l as [|a l IH]; intros x; simpl.
  - split; [auto|]. intros y [<-|[]]. apply Qle_refl.
  - destruct (Qltb_cases a x) as [[-> Hlt]|[-> Hle]];
      destruct (IH a) as [Hin Hall]; destruct (IH x) as [Hin' Hall'];
      simpl in *.
    + split; [tauto|]. intros y [<-|[<-|Hy]]; auto.
      apply Qle_trans with a; [auto|]. now apply Qlt_le_weak.
    + split; [tauto|]. intros y [<-|[<-|Hy]]; auto.
      apply Qle_trans with x; auto.
Qed.

Lemma fold_max_spec (l : list Q) (x : Q) :
  let m := fold_left (fun cur y => if Qltb cur y then y else cur) l x in
  In m (x :: l) /\ forall y, In y (x :: l) -> (y <= m)%Q.
Proof.
  revert x. induction l as [|a l IH]; intros x; simpl.
  - split; [auto|]. intros y [<-|[]]. apply Qle_refl.
  - destruct (Qltb_cases x a) as [[-> Hlt]|[-> Hle]];
      destruct (IH a) as [Hin Hall]; destruct (IH x) as [Hin' Hall'];
      simpl in *.
    + split; [tauto|]. intros y [<-|[<-|Hy]]; auto.
      apply Qle_trans with a; [|auto]. now apply Qlt_le_weak.
    + split; [tauto|]. intros y [<-|[<-|Hy]]; auto.
      apply Qle_trans with x; auto.
Qed.

Lemma py_min_spec (l : list Q) (m : Q) :
  py_min l = Ok m -> In m l /\ forall y, In y l -> (m <= y)%Q.
Proof.
  destruct l as [|x l]; simpl; [discriminate|]. intros [= <-].
  apply fold_min_spec.
Qed.

Lemma py_max_spec (l : list Q) (m : Q) :
  py_max l = Ok m -> In m l /\ forall y, In y l -> (y <= m)%Q.
Proof.
  destruct l as [|x l]; simpl; [discriminate|]. intros [= <-].
  apply fold_max_spec.
Qed.

Lemma py_min_empty (l : list Q) : py_min l = Raise ValueError <-> l = [].
Proof. destruct l; simpl; split; congruence. Qed.

Lemma in_map_fst {A B} (x : A) (l : list (A * B)) :
  In x (map fst l) -> exists y, In (x, y) l.
Proof.
  intros H. apply in_map_iff in H as ([a b] & <- & H). now exists b.
Qed.

Lemma in_map_snd {A B} (y : B) (l : list (A * B)) :
  In y (map snd l) -> exists x, In (x, y) l.
Proof.
  intros H. apply in_map_iff in H as ([a b] & <- & H). now exists a.
Qed.

(** X1: the box of a polyline is tight around its points. *)
Theorem Polyline_bounding_box_encloses (p : Polyline) (l r t b : Q) :
  Polyline_bounding_box p = Ok (l, r, t, b) ->
  (forall x y, In (x, y) (Points p) ->
               (l <= x)%Q /\ (x <= r)%Q /\ (b <= y)%Q /\ (y <= t)%Q) /\
  (exists y, In (l, y) (Points p)) /\ (exists y, In (r, y) (Points p)) /\
  (exists x, In (x, t) (Points p)) /\ (exists x, In (x, b) (Points p)).
Proof.
  unfold Polyline_bounding_box. intros H. inv_ok.
  apply py_min_spec in E as [Il Hl]. apply py_max_spec in E0 as [Ir Hr].
  apply py_max_spec in E1 as [It Ht]. apply py_min_spec in E2 as [Ib Hb].
  split; [|auto using in_map_fst, in_map_snd].
  intros x y Hin.
  pose proof (in_map fst _ _ Hin) as Hx. pose proof (in_map snd _ _ Hin) as Hy.
  simpl in Hx, Hy. auto.
Qed.

(** X1 at the square outline. *)
Lemma Polyline_bounding_box_encloses_witness :
  (forall x y, In (x, y) (Points square_outline) ->
               (0 <= x)%Q /\ (x <= 1000000)%Q /\ (0 <= y)%Q /\ (y <= 1000000)%Q) /\
  (exists y, In (0%Q, y) (Points square_outline)) /\
  (exists y, In (1000000%Q, y) (Points square_outline)) /\
  (exists x, In (x, 1000000%Q) (Points square_outline)) /\
  (exists x, In (x, 0%Q) (Points square_outline)).
Proof.
  apply (@Polyline_bounding_box_encloses square_outline 0 1000000 1000000 0).
  reflexivity.
Defined.

Lemma sub_boxes_spec (l : list Graphic) (bs : list box) :
  sub_boxes l = Ok bs -> Forall2 (fun g b => Graphic_bounding_box g = Ok b) l bs.
Proof.
  revert bs. induction l as [|g l IH]; simpl; intros bs H.
  - injection H as <-. constructor.
  - inv_ok. constructor; auto.
Qed.

Lemma Forall2_in_left {A B} (R : A -> B -> Prop) (l : list A) (l' : list B) (a : A) :
  Forall2 R l l' -> In a l -> exists b, In b l' /\ R a b.
Proof.
  induction 1 as [|x y l l' Hxy _ IH]; simpl; [tauto|].
  intros [<-|H]; [eauto|]. destruct (IH H) as (b & ? & ?). eauto.
Qed.

Lemma module_box_bounds (m : PCBmodule) (L R T B : Q) :
  PCBmodule_bounding_box m = Ok (L, R, T, B) ->
  forall g, In g (Graphics m) ->
    exists l r t b,
      Graphic_bounding_box g = Ok (l, r, t, b) /\
      (L <= l)%Q /\ (r <= R)%Q /\ (t <= T)%Q /\ (B <= b)%Q.
Proof.
  unfold PCBmodule_bounding_box. intros H. inv_ok.
  apply py_min_spec in E0 as [_ Hl]. apply py_max_spec in E1 as [_ Hr].
  apply py_max_spec in E2 as [_ Ht]. apply py_min_spec in E3 as [_ Hb].
  apply sub_boxes_spec in E. intros g Hg.
  destruct (@Forall2_in_left _ _ _ _ _ g E Hg) as ([[[l r] t] b] & Hin & Hbox).
  exists l, r, t, b. split; [exact Hbox|].
  repeat split;
    [apply Hl|apply Hr|apply Ht|apply Hb];
    apply in_map_iff; exists (l, r, t, b); auto.
Qed.

Lemma module_box_graphics (m : PCBmodule) (bb : box) :
  PCBmodule_bounding_box m = Ok bb -> Graphics m <> [].
Proof.
  unfold PCBmodule_bounding_box. intros H Hnil. rewrite Hnil in H.
  discriminate H.
Qed.

Lemma Forall2_in_right {A B} (R : A -> B -> Prop) (l : list A) (l' : list B) (b : B) :
  Forall2 R l l' -> In b l' -> exists a, In a l /\ R a b.
Proof.
  induction 1 as [|x y l l' Hxy _ IH]; simpl; [tauto|].
  intros [<-|H]; [eauto|]. destruct (IH H) as (a & ? & ?). eauto.
Qed.

(** X2: the box of a module encloses the box of each of its graphics and is
    tight: each of its four sides is the side of the box of one of the
    graphics; a module without graphics has no box. *)
Theorem PCBmodule_bounding_box_encloses (m : PCBmodule) (L R T B : Q) :
  PCBmodule_bounding_box m = Ok (L, R, T, B) ->
  Graphics m <> [] /\
  (forall g, In g (Graphics m) ->
     exists l r t b,
       Graphic_bounding_box g = Ok (l, r, t, b) /\
       (L <= l)%Q /\ (r <= R)%Q /\ (t <= T)%Q /\ (B <= b)%Q) /\
  (exists g r t b, In g (Graphics m) /\
                   Graphic_bounding_box g = Ok (L, r, t, b)) /\
  (exists g l t b, In g (Graphics m) /\
                   Graphic_bounding_box g = Ok (l, R, t, b)) /\
  (exists g l r b, In g (Graphics m) /\
                   Graphic_bounding_box g = Ok (l, r, T, b)) /\
  (exists g l r t, In g (Graphics m) /\
                   Graphic_bounding_box g = Ok (l, r, t, B)).
Proof.
  intros H. split; [exact (@module_box_graphics m _ H)|].
  split; [exact (@module_box_bounds m L R T B H)|].
  unfold PCBmodule_bounding_box in H. inv_ok.
  apply py_min_spec in E0 as [Il _]. apply py_max_spec in E1 as [Ir _].
  apply py_max_spec in E2 as [It _]. apply py_min_spec in E3 as [Ib _].
  apply sub_boxes_spec in E.
  apply in_map_iff in Il as ([[[l1 r1] t1] b1] & <- & Hl).
  apply in_map_iff in Ir as ([[[l2 r2] t2] b2] & <- & Hr).
  apply in_map_iff in It as ([[[l3 r3] t3] b3] & <- & Ht).
  apply in_map_iff in Ib as ([[[l4 r4] t4] b4] & <- & Hb).
  destruct (@Forall2_in_right _ _ _ _ _ _ E Hl) as (g1 & ? & ?).
  destruct (@Forall2_in_right _ _ _ _ _ _ E Hr) as (g2 & ? & ?).
  destruct (@Forall2_in_right _ _ _ _ _ _ E Ht) as (g3 & ? & ?).
  destruct (@Forall2_in_right _ _ _ _ _ _ E Hb) as (g4 & ? & ?).
  repeat split; eauto 8.
Qed.

(** X2 at the square module. *)
Lemma PCBmodule_bounding_box_encloses_witness :
  Graphics square_module <> [] /\
  (forall g, In g (Graphics square_module) ->
     exists l r t b,
       Graphic_bounding_box g = Ok (l, r, t, b) /\
       (0 <= l)%Q /\ (r <= 1000000)%Q /\ (t <= 1000000)%Q /\ (0 <= b)%Q) /\
  (exists g r t b, In g (Graphics square_module) /\
                   Graphic_bounding_box g = Ok (0%Q, r, t, b)) /\
  (exists g l t b, In g (Graphics square_module) /\
                   Graphic_bounding_box g = Ok (l, 1000000%Q, t, b)) /\
  (exists g l r b, In g (Graphics square_module) /\
                   Graphic_bounding_box g = Ok (l, r, 1000000%Q, b)) /\
  (exists g l r t, In g (Graphics square_module) /\
                   Graphic_bounding_box g = Ok (l, r, t, 0%Q)).
Proof.
  apply (@PCBmodule_bounding_box_encloses square_module 0 1000000 1000000 0).
  reflexivity.
Defined.

(** ** Pins that cannot be emitted *)

Lemma Pin_size_fails (p : Pin) :
  TopPad p = None \/ (Angle p <> 0 /\ Angle p <> 90)%Z ->
  is_ok (Pin_size p) = false.
Proof.
  unfold Pin_size. intros [-> | [H0 H90]]; [reflexivity|].
  destruct (TopPad p); [|reflexivity].
  apply Z.eqb_neq in H0, H90. now rewrite H90, H0.
Qed.

Lemma Pin_kicad_sexp_needs_size (p : Pin) :
  is_ok (Pin_size p) = false -> is_ok (Pin_kicad_sexp p) = false.
Proof.
  unfold Pin_kicad_sexp. destruct (Pin_size p); try discriminate;
    destruct (DrillDiam p =? 0)%Z; reflexivity.
Qed.

Lemma Pin_bounding_box_needs_size (p : Pin) :
  is_ok (Pin_size p) = false -> is_ok (Pin_bounding_box p) = false.
Proof.
  unfold Pin_bounding_box. destruct (Pin_size p); try discriminate; reflexivity.
Qed.

Lemma pins_sexp_fails (l : list Graphic) (p : Pin) :
  In (GPin p) l -> is_ok (Pin_kicad_sexp p) = false -> is_ok (pins_sexp l) = false.
Proof.
  intros Hin Hp. induction l as [|g l IH]; [destruct Hin|].
  destruct Hin as [-> | Hin]; simpl.
  - destruct (Pin_kicad_sexp p); [discriminate|reflexivity..].
  - specialize (IH Hin). destruct g as [q|q]; [exact IH|].
    destruct (Pin_kicad_sexp q); simpl; try reflexivity.
    destruct (pins_sexp l); [discriminate|reflexivity..].
Qed.

Lemma sub_boxes_fails (l : list Graphic) (g : Graphic) :
  In g l -> is_ok (Graphic_bounding_box g) = false -> is_ok (sub_boxes l) = false.
Proof.
  intros Hin Hg. induction l as [|g' l IH]; [destruct Hin|].
  destruct Hin as [-> | Hin]; simpl.
  - destruct (Graphic_bounding_box g); [discriminate|reflexivity..].
  - specialize (IH Hin). destruct (Graphic_bounding_box g'); simpl; try reflexivity.
    destruct (sub_boxes l); [discriminate|reflexivity..].
Qed.

(** A module that holds a pin without a top pad, or with an angle that
    is neither 0 nor 90, can neither be emitted nor measured. *)
Lemma unusable_pin_blocks (m : PCBmodule) (p : Pin) :
  In (GPin p) (Graphics m) ->
  TopPad p = None \/ (Angle p <> 0 /\ Angle p <> 90)%Z ->
  is_ok (PCBmodule_kicad_sexp m) = false /\
  is_ok (PCBmodule_bounding_box m) = false /\
  forall spacing, is_ok (PCBmodule_add_courtyard spacing m) = false.
Proof.
  intros Hin Hp. apply Pin_size_fails in Hp.
  assert (Hbox : is_ok (PCBmodule_bounding_box m) = false).
  { unfold PCBmodule_bounding_box.
    rewrite (proj1 (not_true_iff_false _)); [reflexivity|].
    intros H.
    assert (Hs : is_ok (sub_boxes (Graphics m)) = false).
    { apply sub_boxes_fails with (GPin p); [exact Hin|].
      now apply Pin_bounding_box_needs_size. }
    destruct (sub_boxes (Graphics m)); [discriminate|discriminate H..]. }
  split; [|split; [exact Hbox|]].
  - unfold PCBmodule_kicad_sexp.
    pose proof (@pins_sexp_fails _ p Hin (@Pin_kicad_sexp_needs_size p Hp)) as H.
    destruct (polylines_sexp (Graphics m)); simpl; try reflexivity.
    destruct (pins_sexp (Graphics m)); [discriminate|reflexivity..].
  - intros spacing. unfold PCBmodule_add_courtyard.
    destruct (PCBmodule_bounding_box m); [discriminate|reflexivity..].
Qed.



(** ** What the parser guarantees *)

Lemma while_invariant {S} (P : S -> Prop) (body : S -> result (control S)) :
  (forall s s', P s -> body s = Ok (Continue s') -> P s') ->
  (forall s s', P s -> body s = Ok (Break s') -> P s') ->
  forall n s s', P s -> while n body s = Ok s' -> P s'.
Proof.
  intros Hc Hb. induction n as [|n IH]; intros s s' Hs; [discriminate|].
  rewrite while_unfold.
  destruct (body s) as [[s1|s1]| |] eqn:E; simpl; try discriminate.
  - apply IH. eapply Hc; eauto.
  - intros [= <-]. eapply Hb; eauto.
Qed.

Lemma last_app_one {A} (l : list A) (x d : A) : last (l ++ [x]) d = x.
Proof.
  induction l as [|a l IH]; [reflexivity|]. simpl.
  destruct (l ++ [x])%list eqn:E; [now destruct l|exact IH].
Qed.

Lemma Polyline_corner_step_invariant (s s' : Polyline * FreePCBfile) (c : control (Polyline * FreePCBfile)) :
  corner_invariant s -> Polyline_corner_step s = Ok c ->
  c = Continue s' \/ c = Break s' -> corner_invariant s'.
Proof.
  destruct s as [p f]. unfold Polyline_corner_step, corner_invariant.
  intros (Hne & Hint & Hl & Hw & Hc) H Hs'. simpl in *.
  inv_ok; destruct Hs' as [[= <-]|[= <-]]; simpl; auto.
  repeat split; auto.
  - now destruct (Points p).
  - apply Forall_app. split; [exact Hint|]. repeat constructor.
    now exists z, z0.
Qed.

Lemma corner_loop_invariant (n : nat) (s s' : Polyline * FreePCBfile) :
  corner_invariant s -> while n Polyline_corner_step s = Ok s' ->
  corner_invariant s'.
Proof.
  apply while_invariant; intros st0 st1 Hst0 Hstep;
    apply (@Polyline_corner_step_invariant st0 st1 _ Hst0 Hstep); auto.
Qed.

Lemma Polyline_create_wellformed (opts : Options) (f f' : FreePCBfile) (p : Polyline) :
  Polyline_create_from_freepcb opts f = Ok (p, f') -> Polyline_wellformed p.
Proof.
  unfold Polyline_create_from_freepcb. intros H. inv_ok;
    match goal with
    | H : while _ _ _ = Ok _ |- _ =>
        apply corner_loop_invariant in H;
        [|unfold corner_invariant; simpl; repeat split; try discriminate;
          repeat constructor; now exists z0, z1]
    end.
  - destruct E1 as (Hne & Hint & Hl & Hw & Hc). simpl in *.
    unfold Polyline_wellformed. simpl. repeat split; auto.
    + discriminate.
    + rewrite Heql4 in Hint. inversion Hint; subst.
      constructor; [assumption|]. apply Forall_app. split; [assumption|].
      repeat constructor. assumption.
    + rewrite length_app. simpl. lia.
    + match goal with
      | |- match (?l ++ [?x])%list with _ => _ end = _ =>
          destruct (l ++ [x])%list eqn:El; [reflexivity|];
          rewrite <- El; apply last_app_one
      end.
  - destruct E1 as (Hne & Hint & Hl & Hw & Hc). simpl in *.
    unfold Polyline_wellformed. repeat split; auto; congruence.
Qed.

Lemma Pin_pad_step_invariant modname opts (s s' : Pin * FreePCBfile)
    (c : control (Pin * FreePCBfile)) :
  pad_invariant modname opts s -> Pin_pad_step s = Ok c ->
  c = Continue s' \/ c = Break s' -> pad_invariant modname opts s'.
Proof.
  destruct s as [p f]. unfold Pin_pad_step, pad_invariant.
  intros [Hm Ho] H Hs'. simpl in *.
  inv_ok; destruct Hs' as [[= <-]|[= <-]]; simpl; auto.
Qed.

Lemma Pin_create_invariant modname opts (f f' : FreePCBfile) (p : Pin) :
  Pin_create_from_freepcb modname opts f = Ok (p, f') ->
  ModName p = modname /\ pin_opts p = opts.
Proof.
  unfold Pin_create_from_freepcb. intros H. inv_ok.
  match goal with
  | H : while _ _ _ = Ok _ |- _ =>
      apply (@while_invariant _ (pad_invariant modname opts) Pin_pad_step) in H
  end; auto.
  - intros st0 st1 Hst0 Hstep.
    apply (@Pin_pad_step_invariant modname opts st0 st1 _ Hst0 Hstep); auto.
  - intros st0 st1 Hst0 Hstep.
    apply (@Pin_pad_step_invariant modname opts st0 st1 _ Hst0 Hstep); auto.
  - split; reflexivity.
Qed.

Lemma header_step_invariant (s s' : PCBmodule * FreePCBfile)
    (c : control (PCBmodule * FreePCBfile)) :
  header_invariant s -> header_step s = Ok c ->
  c = Continue s' \/ c = Break s' -> header_invariant s'.
Proof.
  destruct s as [m f]. unfold header_step, header_invariant, no_model.
  intros Hinv H Hs'. simpl in *.
  inv_ok; destruct Hs' as [[= <-]|[= <-]]; simpl; auto.
Qed.

Lemma body_step_invariant name opts (s s' : PCBmodule * FreePCBfile)
    (c : control (PCBmodule * FreePCBfile)) :
  body_invariant name opts s -> body_step opts s = Ok c ->
  c = Continue s' \/ c = Break s' -> body_invariant name opts s'.
Proof.
  destruct s as [m f]. unfold body_step, body_invariant, no_model.
  intros (Hn & Ha & Hs & H3 & Hg) H Hs'. simpl in *.
  inv_ok; destruct Hs' as [[= <-]|[= <-]]; simpl; auto.
  - repeat split; try tauto. apply Forall_app. split; [exact Hg|].
    constructor; [|constructor]. simpl.
    eapply Polyline_create_wellformed; eauto.
  - repeat split; try tauto. apply Forall_app. split; [exact Hg|].
    constructor; [|constructor]. simpl.
    match goal with
    | H : Pin_create_from_freepcb _ _ _ = Ok _ |- _ =>
        apply Pin_create_invariant in H; destruct H; split; congruence
    end.
Qed.

Lemma py_assert_ok (b : bool) (u : unit) : py_assert b = Ok u -> b = true.
Proof. destruct b; [reflexivity|discriminate]. Qed.

Lemma is_empty_false (s : string) : negb (PyStr.is_empty s) = true -> s <> EmptyString.
Proof. destruct s; [discriminate|discriminate]. Qed.

Lemma header_loop_invariant (n : nat) (s s' : PCBmodule * FreePCBfile) :
  header_invariant s -> while n header_step s = Ok s' -> header_invariant s'.
Proof.
  apply while_invariant; intros st0 st1 Hst0 Hstep;
    apply (@header_step_invariant st0 st1 _ Hst0 Hstep); auto.
Qed.

Lemma body_loop_invariant name opts (n : nat) (s s' : PCBmodule * FreePCBfile) :
  body_invariant name opts s -> while n (body_step opts) s = Ok s' ->
  body_invariant name opts s'.
Proof.
  apply while_invariant; intros st0 st1 Hst0 Hstep;
    apply (@body_step_invariant name opts st0 st1 _ Hst0 Hstep); auto.
Qed.


Lemma PCBmodule_init_guarantees (opts : Options) (now : Q)
    (f f' : FreePCBfile) (m : PCBmodule) :
  PCBmodule_init opts now f = Ok (m, f') ->
  PCBmodule_wellformed opts m /\ tedit m = now.
Proof.
  unfold PCBmodule_init. intros H. inv_ok.
  repeat match goal with
         | H : py_assert _ = Ok _ |- _ => apply py_assert_ok in H
         end.
  match goal with
  | H : while _ header_step _ = Ok _ |- _ =>
      apply header_loop_invariant in H;
      [|unfold header_invariant, no_model; simpl; tauto];
      destruct H as (H3 & Hu & Hsr & Hrt & Hc & Hg); simpl in *
  end.
  match goal with
  | H : while _ (body_step opts) (?m1, _) = Ok _ |- _ =>
      apply (@body_loop_invariant (Name m1) opts) in H;
      [|unfold body_invariant; simpl; rewrite Hg;
        repeat split; auto using is_empty_false; apply H3];
      destruct H as (Hn & Ha & Hs & H3' & Hg'); simpl in *
  end.
  split; [|reflexivity].
  unfold PCBmodule_wellformed, no_model in *. simpl.
  repeat match goal with
         | H : opt_string_eqb ?o _ = true |- _ =>
             destruct o eqn:?; simpl in H;
             [apply String.eqb_eq in H; subst|discriminate H]
         | H : String.eqb _ _ = true |- _ => apply String.eqb_eq in H
         end.
  rewrite Hn.
  repeat split; auto using is_empty_false; try tauto.
Qed.

Lemma Library_step_invariant opts clock (s s' : list PCBmodule * FreePCBfile)
    (c : control (list PCBmodule * FreePCBfile)) :
  library_invariant opts clock s -> Library_step opts clock s = Ok c ->
  c = Continue s' \/ c = Break s' -> library_invariant opts clock s'.
Proof.
  destruct s as [mods f]. unfold Library_step, library_invariant.
  intros [Hw Ht] H Hs'. simpl in *.
  inv_ok; destruct Hs' as [[= <-]|[= <-]]; simpl; auto.
  match goal with
  | H : PCBmodule_init _ _ _ = Ok _ |- _ =>
      apply PCBmodule_init_guarantees in H as [Hm Hm']
  end.
  split.
  - apply Forall_app. split; [exact Hw|]. constructor; [exact Hm|constructor].
  - intros i m0 Hi.
    destruct (Nat.lt_ge_cases i (List.length mods)) as [Hlt|Hge].
    + rewrite nth_error_app1 in Hi by exact Hlt. now apply Ht.
    + rewrite nth_error_app2 in Hi by exact Hge.
      destruct (i - List.length mods) as [|k] eqn:Ek; simpl in Hi.
      * injection Hi as <-. rewrite Hm'. f_equal. lia.
      * destruct k; discriminate Hi.
Qed.

Lemma library_loop_invariant opts clock (n : nat)
    (s s' : list PCBmodule * FreePCBfile) :
  library_invariant opts clock s ->
  while n (Library_step opts clock) s = Ok s' ->
  library_invariant opts clock s'.
Proof.
  apply while_invariant; intros st0 st1 Hst0 Hstep;
    apply (@Library_step_invariant opts clock st0 st1 _ Hst0 Hstep); auto.
Qed.

Lemma library_invariant_start opts clock (f : FreePCBfile) :
  library_invariant opts clock ([], f).
Proof. split; [constructor|]. intros [|i] m Hi; discriminate Hi. Qed.

Lemma Library_init_modules (f : FreePCBfile) (opts : Options)
    (clock : nat -> Q) (lib : Library) :
  Library_init f opts clock = Ok lib ->
  Forall (PCBmodule_wellformed opts) (Modules lib).
Proof.
  unfold Library_init. intros H.
  destruct (while (budget f) (Library_step opts clock) ([], f))
    as [[mods f']| |] eqn:E; simpl in H; try discriminate.
  injection H as <-.
  apply library_loop_invariant in E; [|apply library_invariant_start].
  apply E.
Qed.

(** X5: what the constructor of a library guarantees: every module has a
    name, an author and a source, the unit NM and the centroid at the
    origin, a selection rectangle and a reference text, no 3D model yet;
    its pins carry the name of the module and the options; its polylines
    have at least one point, all of them integral, and a closed one ends
    where it starts; the module at position [i] carries the time read for
    it. *)
Theorem Library_init_wellformed (f : FreePCBfile) (opts : Options)
    (clock : nat -> Q) (lib : Library) :
  Library_init f opts clock = Ok lib ->
  Forall (PCBmodule_wellformed opts) (Modules lib) /\
  forall i m, nth_error (Modules lib) i = Some m -> tedit m = clock i.
Proof.
  unfold Library_init. intros H.
  destruct (while (budget f) (Library_step opts clock) ([], f))
    as [[mods f']| |] eqn:E; simpl in H; try discriminate.
  injection H as <-.
  apply library_loop_invariant in E; [|apply library_invariant_start].
  exact E.
Qed.

(** X5 at the footprint source. *)
Lemma Library_init_wellformed_witness :
  Forall (PCBmodule_wellformed no_options) (Modules footprint_library) /\
  forall i m, nth_error (Modules footprint_library) i = Some m ->
              tedit m = epoch i.
Proof.
  apply (@Library_init_wellformed (FreePCBfile_init footprint_text)
           no_options epoch footprint_library).
  vm_compute. reflexivity.
Defined.

(** ** Which modules can be emitted *)

Lemma usable_pin_dec (p : Pin) :
  usable_pin p \/ (TopPad p = None \/ (Angle p <> 0 /\ Angle p <> 90)%Z).
Proof.
  unfold usable_pin. destruct (TopPad p) as [pad|]; [|auto].
  destruct (Z.eq_dec (Angle p) 0) as [H0|H0];
    [left; split; [discriminate|auto]|].
  destruct (Z.eq_dec (Angle p) 90) as [H9|H9];
    [left; split; [discriminate|auto]|].
  right. right. auto.
Qed.

Lemma Pin_size_usable (p : Pin) : usable_pin p -> is_ok (Pin_size p) = true.
Proof.
  unfold usable_pin, Pin_size. intros [Hpad Hangle].
  destruct (TopPad p); [|congruence].
  destruct Hangle as [-> | ->]; reflexivity.
Qed.

Lemma Pin_size_ok_usable (p : Pin) :
  is_ok (Pin_size p) = true -> usable_pin p.
Proof.
  unfold Pin_size, usable_pin.
  destruct (TopPad p) as [pad|]; [|discriminate].
  destruct (Z.eqb_spec (Angle p) 90) as [H9|H9];
    [intros _; split; [discriminate|auto]|].
  destruct (Z.eqb_spec (Angle p) 0) as [H0|H0]; [|discriminate].
  intros _. split; [discriminate|auto].
Qed.

Lemma polylines_sexp_points (l : list Graphic) :
  is_ok (polylines_sexp l) = true ->
  forall q, In (GPolyline q) l -> Points q <> [].
Proof.
  induction l as [|[q0|p0] l IH]; intros Hok q Hin; [destruct Hin| |].
  - cbn [polylines_sexp] in Hok.
    destruct (Polyline_kicad_sexp q0) as [s| |] eqn:Eq; try discriminate.
    destruct (polylines_sexp l) as [r| |]; try discriminate.
    destruct Hin as [[= <-]|Hin]; [|now apply IH].
    unfold Polyline_kicad_sexp in Eq. intros Hnil. rewrite Hnil in Eq.
    discriminate.
  - destruct Hin as [Hin|Hin]; [discriminate|]. now apply IH.
Qed.

(** X6: a module is emitted only if each of its pins has a top pad and an
    angle of 0 or 90 and each of its polylines has a point. *)
Theorem kicad_sexp_needs_usable_graphics (m : PCBmodule) :
  is_ok (PCBmodule_kicad_sexp m) = true ->
  (forall p, In (GPin p) (Graphics m) -> usable_pin p) /\
  (forall q, In (GPolyline q) (Graphics m) -> Points q <> []).
Proof.
  intros Hok. split.
  - intros p Hp. destruct (usable_pin_dec p) as [Hu|Hbad]; [exact Hu|].
    destruct (@unusable_pin_blocks m p Hp Hbad) as [H _]. congruence.
  - apply polylines_sexp_points. unfold PCBmodule_kicad_sexp in Hok.
    destruct (polylines_sexp (Graphics m)); [reflexivity|discriminate..].
Qed.

(** X6 at the module of the footprint source. *)
Lemma kicad_sexp_needs_usable_graphics_witness :
  (forall p, In (GPin p) (Graphics footprint_module) -> usable_pin p) /\
  (forall q, In (GPolyline q) (Graphics footprint_module) -> Points q <> []).
Proof.
  apply (@kicad_sexp_needs_usable_graphics footprint_module).
  vm_compute. reflexivity.
Defined.

(** ** When the courtyard pass succeeds *)

(** [float (n)] and [a / b] do not overflow below [2^1023]. *)
Lemma round_half_even_bounds (n d : Z) :
  (0 <= n)%Z -> (0 < d)%Z ->
  (0 <= IEEE.round_half_even n d <= n / d + 1)%Z.
Proof.
  intros Hn Hd. unfold IEEE.round_half_even.
  assert (0 <= n / d)%Z by (apply Z.div_pos; lia).
  destruct (2 * (n mod d) ?= d)%Z; [destruct (Z.even (n / d))| |]; lia.
Qed.

Lemma below_mono (n d k k' : Z) :
  (0 < n)%Z -> (0 < d)%Z -> (k <= k')%Z -> below n d k -> below n d k'.
Proof.
  intros Hn Hd Hk. unfold below.
  destruct (Z.leb_spec 0 k), (Z.leb_spec 0 k'); try lia; intros Hb.
  - assert (2 ^ k <= 2 ^ k')%Z by (apply Z.pow_le_mono_r; lia). nia.
  - assert (0 < 2 ^ k')%Z by (apply Z.pow_pos_nonneg; lia).
    assert (0 < 2 ^ (- k))%Z by (apply Z.pow_pos_nonneg; lia). nia.
  - assert (2 ^ (- k') <= 2 ^ (- k))%Z by (apply Z.pow_le_mono_r; lia).
    assert (0 < 2 ^ (- k'))%Z by (apply Z.pow_pos_nonneg; lia). nia.
Qed.

Lemma ilog2_upper (n d : Z) :
  (0 < n)%Z -> (0 < d)%Z -> below n d (IEEE.ilog2 n d + 1).
Proof.
  intros Hn Hd.
  destruct (Z.log2_spec n Hn) as [Hn1 Hn2].
  destruct (Z.log2_spec d Hd) as [Hd1 Hd2].
  pose proof (Z.log2_nonneg n). pose proof (Z.log2_nonneg d).
  unfold IEEE.ilog2.
  set (a := Z.log2 n) in *. set (b := Z.log2 d) in *.
  destruct (Z.leb_spec 0 (a - b)) as [He|He].
  - destruct (Z.leb_spec (d * 2 ^ (a - b)) n) as [Hc|Hc].
    + unfold below. destruct (Z.leb_spec 0 (a - b + 1)); [|lia].
      replace (Z.succ a) with (b + (a - b + 1))%Z in Hn2 by lia.
      rewrite Z.pow_add_r in Hn2 by lia.
      assert (0 < 2 ^ (a - b + 1))%Z by (apply Z.pow_pos_nonneg; lia). nia.
    + replace (a - b - 1 + 1)%Z with (a - b)%Z by lia.
      unfold below. destruct (Z.leb_spec 0 (a - b)); [lia|lia].
  - destruct (Z.leb_spec d (n * 2 ^ (- (a - b)))) as [Hc|Hc].
    + unfold below. destruct (Z.leb_spec 0 (a - b + 1)) as [H1|H1].
      * replace (a - b + 1)%Z with 0%Z by lia. simpl.
        replace (Z.succ a) with b in Hn2 by lia. lia.
      * replace b with (Z.succ a + (- (a - b + 1)))%Z in Hd1 by lia.
        rewrite Z.pow_add_r in Hd1 by lia.
        assert (0 < 2 ^ (- (a - b + 1)))%Z by (apply Z.pow_pos_nonneg; lia).
        nia.
    + replace (a - b - 1 + 1)%Z with (a - b)%Z by lia.
      unfold below. destruct (Z.leb_spec 0 (a - b)); [lia|lia].
Qed.

Lemma ilog2_small (n d : Z) :
  (0 < n)%Z -> (0 < d)%Z -> (n < d * 2 ^ 1023)%Z ->
  (IEEE.ilog2 n d <= 1022)%Z.
Proof.
  intros Hn Hd Hlt.
  destruct (Z.log2_spec n Hn) as [Hn1 Hn2].
  destruct (Z.log2_spec d Hd) as [Hd1 Hd2].
  pose proof (Z.log2_nonneg n). pose proof (Z.log2_nonneg d).
  unfold IEEE.ilog2.
  set (a := Z.log2 n) in *. set (b := Z.log2 d) in *.
  destruct (Z.le_gt_cases (a - b) 1022) as [Hs|Hs].
  { destruct (if (0 <=? a - b)%Z then _ else _); lia. }
  assert (He : (0 <=? a - b)%Z = true) by (apply Z.leb_le; lia).
  rewrite He.
  assert (Hp : (2 ^ 1023 <= 2 ^ (a - b))%Z) by (apply Z.pow_le_mono_r; lia).
  destruct (Z.leb_spec (d * 2 ^ (a - b)) n) as [Hc|Hc].
  - exfalso. generalize dependent (2 ^ 1023)%Z. intros. nia.
  - destruct (Z.le_gt_cases (a - b) 1023) as [Hs'|Hs']; [lia|exfalso].
    assert (Hq : (2 ^ (b + 1 + 1023) <= 2 ^ a)%Z)
      by (apply Z.pow_le_mono_r; lia).
    rewrite Z.pow_add_r in Hq by lia.
    replace (Z.succ b) with (b + 1)%Z in Hd2 by lia.
    generalize dependent (2 ^ 1023)%Z. intros. nia.
Qed.

Lemma scaled_bounds (n d e : Z) :
  (0 < n)%Z -> (0 < d)%Z -> below n d (e + 53) ->
  (0 <= IEEE.scaled n d e <= 2 ^ 53)%Z.
Proof.
  intros Hn Hd Hb. unfold IEEE.scaled.
  destruct (Z.leb_spec 0 e) as [He|He].
  - assert (Hp : (0 < 2 ^ e)%Z) by (apply Z.pow_pos_nonneg; lia).
    pose proof (@round_half_even_bounds n (d * 2 ^ e)) as Hr.
    unfold below in Hb. destruct (Z.leb_spec 0 (e + 53)); [|lia].
    rewrite Z.pow_add_r in Hb by lia.
    assert (n / (d * 2 ^ e) < 2 ^ 53)%Z
      by (apply Z.div_lt_upper_bound; [nia|]; nia).
    specialize (Hr ltac:(lia) ltac:(nia)). lia.
  - assert (Hp : (0 < 2 ^ (- e))%Z) by (apply Z.pow_pos_nonneg; lia).
    pose proof (@round_half_even_bounds (n * 2 ^ (- e)) d) as Hr.
    assert (n * 2 ^ (- e) / d < 2 ^ 53)%Z.
    { apply Z.div_lt_upper_bound; [lia|].
      unfold below in Hb. destruct (Z.leb_spec 0 (e + 53)).
      - replace 53%Z with ((e + 53) + (- e))%Z at 1 by lia.
        rewrite Z.pow_add_r by lia.
        assert (0 < 2 ^ (e + 53))%Z by (apply Z.pow_pos_nonneg; lia). nia.
      - replace (- e)%Z with ((- (e + 53)) + 53)%Z by lia.
        rewrite Z.pow_add_r by lia.
        assert (0 < 2 ^ 53)%Z by reflexivity.
        generalize dependent (2 ^ 53)%Z. intros. nia. }
    specialize (Hr ltac:(nia) ltac:(lia)). lia.
Qed.

Lemma nearest_double_in_range (n d : Z) :
  (0 < n)%Z -> (0 < d)%Z -> (n < d * 2 ^ 1023)%Z ->
  is_ok (IEEE.nearest_double n d) = true.
Proof.
  intros Hn Hd Hlt. unfold IEEE.nearest_double.
  pose proof (@ilog2_small n d Hn Hd Hlt) as Hs.
  pose proof (@ilog2_upper n d Hn Hd) as Hu.
  set (e := Z.max (IEEE.ilog2 n d - 52) (-1074)).
  assert (Hb : below n d (e + 53))
    by (apply (@below_mono n d (IEEE.ilog2 n d + 1)); [lia|lia|lia|exact Hu]).
  pose proof (@scaled_bounds n d e Hn Hd Hb) as Hm.
  destruct (Z.leb_spec (2 ^ (1024 + 1074)) (IEEE.scaled n d e * 2 ^ (e + 1074)))
    as [Hc|Hc]; [exfalso|reflexivity].
  assert (He : (2 ^ (e + 1074) <= 2 ^ (970 + 1074))%Z)
    by (apply Z.pow_le_mono_r; lia).
  assert (H0 : (0 < 2 ^ (e + 1074))%Z) by (apply Z.pow_pos_nonneg; lia).
  assert (Hx : (IEEE.scaled n d e * 2 ^ (e + 1074)
                <= 2 ^ 53 * 2 ^ (970 + 1074))%Z)
    by (apply Z.mul_le_mono_nonneg; lia).
  rewrite <- Z.pow_add_r in Hx by lia.
  assert (Hy : (2 ^ (53 + (970 + 1074)) < 2 ^ (1024 + 1074))%Z)
    by (apply Z.pow_lt_mono_r; lia).
  lia.
Qed.

Lemma float_of_Q_in_range (n : Z) (d : positive) :
  (Z.abs n < 2 ^ 1023)%Z -> is_ok (IEEE.float_of_Q (n # d)) = true.
Proof.
  intros H. unfold IEEE.float_of_Q. cbn [Qnum Qden].
  assert (Hp : (0 < 2 ^ 1023)%Z) by (apply Z.pow_pos_nonneg; lia).
  destruct n as [|n|n]; [reflexivity| |].
  - apply nearest_double_in_range; [lia|lia|].
    generalize dependent (2 ^ 1023)%Z. intros. nia.
  - assert (Hn : is_ok (IEEE.nearest_double (Z.pos n) (Z.pos d)) = true).
    { apply nearest_double_in_range; [lia|lia|].
      generalize dependent (2 ^ 1023)%Z. intros. nia. }
    destruct (IEEE.nearest_double (Z.pos n) (Z.pos d)); try discriminate.
    reflexivity.
Qed.

Lemma py_float_in_range (a : IEEE.num) :
  num_in_range a -> is_ok (IEEE.py_float a) = true.
Proof.
  destruct a as [n|x]; [|reflexivity]. intros H.
  exact (@float_of_Q_in_range n 1 H).
Qed.

Lemma fold_left_choice (A : Type) (f : A -> A -> bool) (l : list A) (x : A) :
  In (fold_left (fun cur y => if f cur y then y else cur) l x) (x :: l).
Proof.
  revert x. induction l as [|y l IH]; intros x; [now left|].
  cbn [fold_left]. destruct (IH (if f x y then y else x)) as [H|H].
  - rewrite <- H. destruct (f x y); [right; now left|now left].
  - right. now right.
Qed.

Lemma py_min_in (l : list IEEE.num) (v : IEEE.num) :
  IEEE.py_min l = Ok v -> In v l.
Proof.
  destruct l as [|x l]; [discriminate|]. intros H. injection H as <-.
  apply (@fold_left_choice _ (fun cur y => IEEE.py_lt y cur)).
Qed.

Lemma py_max_in (l : list IEEE.num) (v : IEEE.num) :
  IEEE.py_max l = Ok v -> In v l.
Proof.
  destruct l as [|x l]; [discriminate|]. intros H. injection H as <-.
  apply (@fold_left_choice _ (fun cur y => IEEE.py_lt cur y)).
Qed.

Lemma Polyline_box_in_range (q : IEEE.Polyline) :
  Graphic_in_range (IEEE.GPolyline q) -> IEEE.Points q <> [] ->
  exists b, IEEE.Polyline_bounding_box q = Ok b /\ box_in_range b.
Proof.
  intros Hr Hne. unfold IEEE.Polyline_bounding_box.
  assert (Hx : forall v, In v (map fst (IEEE.Points q)) -> num_in_range v).
  { intros v Hv. apply in_map_iff in Hv as ([x y] & <- & Hin).
    apply (Hr x y Hin). }
  assert (Hy : forall v, In v (map snd (IEEE.Points q)) -> num_in_range v).
  { intros v Hv. apply in_map_iff in Hv as ([x y] & <- & Hin).
    apply (Hr x y Hin). }
  destruct (IEEE.py_min (map fst (IEEE.Points q))) as [l| |] eqn:El;
    try (destruct (IEEE.Points q); [congruence|discriminate]).
  destruct (IEEE.py_max (map fst (IEEE.Points q))) as [r| |] eqn:Er;
    try (destruct (IEEE.Points q); [congruence|discriminate]).
  destruct (IEEE.py_max (map snd (IEEE.Points q))) as [t| |] eqn:Et;
    try (destruct (IEEE.Points q); [congruence|discriminate]).
  destruct (IEEE.py_min (map snd (IEEE.Points q))) as [b| |] eqn:Eb;
    try (destruct (IEEE.Points q); [congruence|discriminate]).
  cbn [bind]. eexists. split; [reflexivity|].
  apply py_min_in in El, Eb. apply py_max_in in Er, Et.
  cbn [box_in_range]. auto.
Qed.

Lemma int_truediv_in_range (n : Z) (d : positive) :
  in_range n -> exists h, IEEE.int_truediv n d = Ok h.
Proof.
  intros H. pose proof (@float_of_Q_in_range n d H) as Hok.
  unfold IEEE.int_truediv. destruct (IEEE.float_of_Q (n # d)) as [h| |];
    try discriminate. now exists h.
Qed.

Lemma int_plus_float (n : Z) (h : float) :
  in_range n ->
  (exists v, IEEE.py_sub (IEEE.PyInt n) (IEEE.PyFloat h) = Ok (IEEE.PyFloat v)) /\
  (exists v, IEEE.py_add (IEEE.PyInt n) (IEEE.PyFloat h) = Ok (IEEE.PyFloat v)).
Proof.
  intros H. pose proof (@py_float_in_range (IEEE.PyInt n) H) as Hok.
  unfold IEEE.py_sub, IEEE.py_add.
  destruct (IEEE.py_float (IEEE.PyInt n)) as [x| |]; try discriminate.
  cbn [bind IEEE.py_float]. split; eexists; reflexivity.
Qed.

Lemma Pin_size_sides (p : Pin) (sx sy : Z) :
  Pin_size p = Ok (sx, sy) -> Pin_in_range p -> in_range sx /\ in_range sy.
Proof.
  unfold Pin_size. intros H (_ & _ & Hpad).
  destruct (TopPad p) as [pad|]; [|discriminate].
  destruct (Hpad pad eq_refl) as [Hw Hl].
  destruct (Angle p =? 90)%Z.
  - injection H as <- <-. auto.
  - destruct (Angle p =? 0)%Z; [|discriminate]. injection H as <- <-. auto.
Qed.

Lemma Pin_box_in_range (p : Pin) :
  usable_pin p -> Pin_in_range p ->
  exists b, IEEE.Pin_bounding_box p = Ok b /\ box_in_range b.
Proof.
  intros Hu Hr. pose proof (@Pin_size_usable p Hu) as Hok.
  unfold IEEE.Pin_bounding_box.
  destruct (Pin_size p) as [[sx sy]| |] eqn:Es; try discriminate.
  destruct (@Pin_size_sides p sx sy Es Hr) as [Hsx Hsy].
  destruct Hr as (Hx & Hy & _). cbn [bind].
  destruct (@int_truediv_in_range sy 2 Hsy) as (hy & ->).
  destruct (@int_truediv_in_range sx 2 Hsx) as (hx & ->). cbn [bind].
  destruct (@int_plus_float _ hy Hx) as ((l & ->) & (r & ->)).
  destruct (@int_plus_float _ hx Hy) as ((b & ->) & (t & ->)).
  cbn [bind]. eexists. split; [reflexivity|].
  cbn [box_in_range num_in_range]. auto.
Qed.

Lemma sub_boxes_in_range (l : list IEEE.Graphic) :
  (forall g, In g l -> Graphic_in_range g) ->
  (forall p, In (IEEE.GPin p) l -> usable_pin p) ->
  (forall q, In (IEEE.GPolyline q) l -> IEEE.Points q <> []) ->
  exists bs,
    IEEE.sub_boxes l = Ok bs /\ List.length bs = List.length l /\
    Forall box_in_range bs.
Proof.
  induction l as [|g l IH]; intros Hr Hp Hq.
  - exists []. repeat split. constructor.
  - destruct IH as (bs & Hbs & Hlen & Hall);
      [intros; apply Hr; now right | intros; apply Hp; now right
      | intros; apply Hq; now right |].
    assert (Hg : exists b, IEEE.Graphic_bounding_box g = Ok b /\ box_in_range b).
    { destruct g as [q|p]; cbn [IEEE.Graphic_bounding_box].
      - apply Polyline_box_in_range; [apply (Hr _ (or_introl eq_refl))|].
        apply Hq. now left.
      - apply Pin_box_in_range; [apply Hp; now left|].
        apply (Hr _ (or_introl eq_refl)). }
    destruct Hg as (b & Hb & Hbr).
    exists (b :: bs). cbn [IEEE.sub_boxes]. rewrite Hb, Hbs. cbn [bind].
    repeat split; [cbn; lia|]. now constructor.
Qed.

Lemma sub_boxes_ok (l : list IEEE.Graphic) (bs : list IEEE.box) :
  IEEE.sub_boxes l = Ok bs ->
  List.length bs = List.length l /\
  (forall p, In (IEEE.GPin p) l -> usable_pin p) /\
  (forall q, In (IEEE.GPolyline q) l -> IEEE.Points q <> []).
Proof.
  revert bs. induction l as [|g l IH]; intros bs H.
  - injection H as <-. split; [reflexivity|split; intros ? []].
  - cbn [IEEE.sub_boxes] in H.
    destruct (IEEE.Graphic_bounding_box g) as [b| |] eqn:Eg; try discriminate.
    destruct (IEEE.sub_boxes l) as [bs'| |]; try discriminate.
    injection H as <-. destruct (IH bs' eq_refl) as (Hlen & Hp & Hq).
    split; [cbn; lia|]. split.
    + intros p [->|Hin]; [|now apply Hp].
      apply Pin_size_ok_usable. cbn [IEEE.Graphic_bounding_box] in Eg.
      unfold IEEE.Pin_bounding_box in Eg.
      destruct (Pin_size p); [reflexivity|discriminate|discriminate].
    + intros q [->|Hin]; [|now apply Hq].
      cbn [IEEE.Graphic_bounding_box] in Eg.
      unfold IEEE.Polyline_bounding_box in Eg.
      intros Hnil. rewrite Hnil in Eg. discriminate.
Qed.

Lemma add_float_in_range (a : IEEE.num) (d : float) :
  num_in_range a ->
  (exists v, IEEE.py_sub a (IEEE.PyFloat d) = Ok v) /\
  (exists v, IEEE.py_add a (IEEE.PyFloat d) = Ok v).
Proof.
  intros H. pose proof (@py_float_in_range a H) as Hok.
  destruct (IEEE.py_float a) as [x| |] eqn:E; try discriminate.
  rewrite (@py_sub_float a x d E), (@py_add_float a x d E).
  split; eexists; reflexivity.
Qed.

(** X7: on a module whose [int]s stay below 2^1023 in absolute value, the
    courtyard pass succeeds exactly when the module has a graphic, each of
    its pins has a top pad and an angle of 0 or 90, and each of its
    polylines has a point. *)
Theorem add_courtyard_succeeds_iff (spacing : float) (m : IEEE.PCBmodule) :
  (forall g, In g (IEEE.Graphics m) -> Graphic_in_range g) ->
  is_ok (IEEE.PCBmodule_add_courtyard spacing m) = true <->
  IEEE.Graphics m <> [] /\
  (forall p, In (IEEE.GPin p) (IEEE.Graphics m) -> usable_pin p) /\
  (forall q, In (IEEE.GPolyline q) (IEEE.Graphics m) -> IEEE.Points q <> []).
Proof.
  intros Hr. split.
  - intros Hok.
    unfold IEEE.PCBmodule_add_courtyard, IEEE.PCBmodule_bounding_box in Hok.
    destruct (IEEE.sub_boxes (IEEE.Graphics m)) as [bs| |] eqn:Eb;
      try discriminate.
    destruct (@sub_boxes_ok _ _ Eb) as (Hlen & Hp & Hq).
    split; [|auto]. intros Hnil. rewrite Hnil in Hlen.
    destruct bs; [|discriminate]. discriminate.
  - intros (Hne & Hp & Hq).
    destruct (@sub_boxes_in_range _ Hr Hp Hq) as (bs & Hbs & Hlen & Hall).
    unfold IEEE.PCBmodule_add_courtyard, IEEE.PCBmodule_bounding_box.
    rewrite Hbs. cbn [bind].
    assert (Hside : forall (f : IEEE.box -> IEEE.num) v,
               (forall b, box_in_range b -> num_in_range (f b)) ->
               In v (map f bs) -> num_in_range v).
    { intros f v Hf Hv. apply in_map_iff in Hv as (b & <- & Hin).
      apply Hf. rewrite Forall_forall in Hall. now apply Hall. }
    destruct bs as [|b0 bs];
      [destruct (IEEE.Graphics m); [congruence|discriminate]|].
    destruct (IEEE.py_min (map _ (b0 :: bs))) as [L| |] eqn:EL;
      try discriminate.
    destruct (IEEE.py_max (map _ (b0 :: bs))) as [R| |] eqn:ER;
      try discriminate.
    destruct (IEEE.py_max (map (fun b : IEEE.box => let '(_, _, t, _) := b in t)
                               (b0 :: bs))) as [T| |] eqn:ET;
      try discriminate.
    destruct (IEEE.py_min (map (fun b : IEEE.box => let '(_, _, _, b) := b in b)
                               (b0 :: bs))) as [B| |] eqn:EB;
      try discriminate.
    cbn [bind IEEE.from_mm IEEE.py_float].
    apply py_min_in in EL, EB. apply py_max_in in ER, ET.
    apply Hside in EL; [|intros [[[? ?] ?] ?] H; apply H].
    apply Hside in ER; [|intros [[[? ?] ?] ?] H; apply H].
    apply Hside in ET; [|intros [[[? ?] ?] ?] H; apply H].
    apply Hside in EB; [|intros [[[? ?] ?] ?] H; apply H].
    destruct (@add_float_in_range L (spacing * 1000000)%float EL) as ((l & ->) & _).
    destruct (@add_float_in_range R (spacing * 1000000)%float ER) as (_ & (r & ->)).
    destruct (@add_float_in_range T (spacing * 1000000)%float ET) as (_ & (t & ->)).
    destruct (@add_float_in_range B (spacing * 1000000)%float EB) as ((b & ->) & _).
    reflexivity.
Qed.

(** X7 at the square with a pad and the spacing 2.01. *)
Lemma add_courtyard_succeeds_iff_witness :
  is_ok (IEEE.PCBmodule_add_courtyard spacing_2_01 square_with_pad) = true <->
  IEEE.Graphics square_with_pad <> [] /\
  (forall p, In (IEEE.GPin p) (IEEE.Graphics square_with_pad) ->
     usable_pin p) /\
  (forall q, In (IEEE.GPolyline q) (IEEE.Graphics square_with_pad) ->
     IEEE.Points q <> []).
Proof.
  apply (@add_courtyard_succeeds_iff spacing_2_01 square_with_pad).
  intros g [<-|[<-|[]]].
  - intros x y Hin.
    repeat (destruct Hin as [[= <- <-]|Hin];
            [split; apply Z.ltb_lt; vm_compute; reflexivity|]).
    destruct Hin.
  - split; [apply Z.ltb_lt; vm_compute; reflexivity|].
    split; [apply Z.ltb_lt; vm_compute; reflexivity|].
    intros pad [= <-].
    split; apply Z.ltb_lt; vm_compute; reflexivity.
Defined.

(** ** The name pass after the parser *)

Lemma PCBmodule_strip_lmn_named (m : PCBmodule) :
  Name m <> EmptyString ->
  exists m', PCBmodule_strip_lmn m = Ok m' /\ m' = set_Name (Name m') m.
Proof.
  intros Hn. unfold PCBmodule_strip_lmn.
  destruct (PyStr.last_char (Name m)) as [c|] eqn:E.
  - destruct (PyStr.mem c "LMNlmn"); eexists; (split; [reflexivity|]).
    + reflexivity.
    + now destruct m.
  - destruct (Name m) as [|d s]; [congruence|]. simpl in E.
    destruct s; [discriminate|]. revert E. generalize a s.
    intros a0 s0. revert a0. induction s0 as [|b s0 IH]; intros a0; simpl;
      [discriminate|apply IH].
Qed.

(** X8: the name pass succeeds on every library the parser has built; it
    changes names only, and the pins of a module keep the name the module
    had before the pass, the one the exception lists are matched against. *)
Theorem strip_lmn_after_parse (f : FreePCBfile) (opts : Options)
    (clock : nat -> Q) (lib : Library) :
  Library_init f opts clock = Ok lib ->
  exists lib',
    Library_strip_lmn lib = Ok lib' /\
    Forall2 (fun m m' =>
               m' = set_Name (Name m') m /\
               forall p, In (GPin p) (Graphics m') -> ModName p = Name m)
            (Modules lib) (Modules lib').
Proof.
  intros H. apply Library_init_modules in H. rename H into Hw.
  unfold Library_strip_lmn.
  induction (Modules lib) as [|m l IH]; simpl.
  - eexists. split; [reflexivity|]. constructor.
  - inversion Hw as [|? ? Hm Hl]; subst.
    destruct (IH Hl) as (lib' & E & Hall).
    destruct (Library_strip_lmn_list l) as [l'| |]; simpl in E; try discriminate.
    injection E as <-. simpl in Hall.
    pose proof Hm as (Hname & _ & _ & _ & _ & _ & _ & _ & Hg).
    destruct (@PCBmodule_strip_lmn_named m Hname) as (m' & -> & Em). simpl.
    eexists. split; [reflexivity|]. simpl. constructor; [|exact Hall].
    split; [exact Em|]. intros p Hp. rewrite Em in Hp. simpl in Hp.
    rewrite Forall_forall in Hg. apply Hg in Hp. apply Hp.
Qed.

(** X8 at the footprint source. *)
Lemma strip_lmn_after_parse_witness :
  exists lib',
    Library_strip_lmn footprint_library = Ok lib' /\
    Forall2 (fun m m' =>
               m' = set_Name (Name m') m /\
               forall p, In (GPin p) (Graphics m') -> ModName p = Name m)
            (Modules footprint_library) (Modules lib').
Proof.
  apply (@strip_lmn_after_parse (FreePCBfile_init footprint_text) no_options
           epoch footprint_library).
  vm_compute. reflexivity.
Defined.

(** ** The reader counts the lines it drops *)

Lemma skip_blank_spec (file : list string) (n : Z) :
  exists blanks,
    file = (blanks ++ File (skip_blank file n))%list /\
    Forall (fun l => is_blank l = true) blanks /\
    Lineno (skip_blank file n) = (n + Z.of_nat (List.length blanks))%Z /\
    match File (skip_blank file n) with
    | [] => True
    | line :: _ => is_blank line = false
    end.
Proof.
  revert n. induction file as [|l file IH]; intros n.
  - exists []. simpl. repeat split; auto. lia.
  - cbn [skip_blank]. destruct (is_blank l) eqn:El.
    + destruct (IH (n + 1)%Z) as (blanks & E & Hb & Hn & Hh).
      exists (l :: blanks). repeat split.
      * simpl. now rewrite <- E.
      * now constructor.
      * rewrite Hn. simpl List.length. lia.
      * exact Hh.
    + exists []. simpl. repeat split; auto. lia.
Qed.

(** X9: [get_string] drops the blank lines in front, pops the first line
    that is not blank and counts every line it has dropped or popped, so
    that [Lineno - 1] is afterwards the number of the line it has popped
    whenever [Lineno] was the number of the first line left; the key it
    returns is the key of that line and the value is not empty.  [at_end]
    counts the blank lines it drops in the same way and answers true
    exactly when no line is left. *)
Theorem reader_counts_lines (f : FreePCBfile) :
  (forall (b : bool) (key value : string) (f' : FreePCBfile),
      get_string b f = Ok ((key, value), f') ->
      exists blanks line,
        File f = (blanks ++ line :: File f')%list /\
        Forall (fun l => is_blank l = true) blanks /\
        is_blank line = false /\
        Lineno f' = (Lineno f + Z.of_nat (List.length blanks) + 1)%Z /\
        key = key_of line /\ value <> EmptyString) /\
  (exists blanks,
      File f = (blanks ++ File (snd (at_end f)))%list /\
      Forall (fun l => is_blank l = true) blanks /\
      Lineno (snd (at_end f))
      = (Lineno f + Z.of_nat (List.length blanks))%Z /\
      (fst (at_end f) = true <-> File (snd (at_end f)) = []) /\
      (forall line rest, File (snd (at_end f)) = line :: rest ->
                         is_blank line = false)).
Proof.
  destruct (skip_blank_spec (File f) (Lineno f)) as (blanks & E & Hb & Hn & Hh).
  split.
  - intros b key value f'. unfold get_string.
    destruct (File (skip_blank (File f) (Lineno f))) as [|line rest] eqn:Ef;
      [discriminate|].
    destruct (PyStr.partition ":" line) as [[k d] v] eqn:Ep.
    match goal with
    | |- bind ?r _ = _ -> _ => destruct r as [v'| |]
    end; simpl; try discriminate.
    destruct (PyStr.is_empty v') eqn:Ev; [discriminate|].
    intros [= <- <- <-]. exists blanks, line. simpl.
    split; [exact E|]. split; [exact Hb|]. split; [exact Hh|].
    split; [rewrite Hn; lia|]. split; [unfold key_of; now rewrite Ep|].
    intros Hv. rewrite Hv in Ev. discriminate Ev.
  - exists blanks. unfold at_end. cbn [fst snd].
    split; [exact E|]. split; [exact Hb|]. split; [exact Hn|]. split; [split|].
    + destruct (File (skip_blank (File f) (Lineno f)));
        [reflexivity|discriminate].
    + intros ->. reflexivity.
    + intros line rest Ef. now rewrite Ef in Hh.
Qed.

(** ** Quoted values *)

Lemma string_app_assoc (a b c : string) : (a ++ b) ++ c = a ++ (b ++ c).
Proof. induction a as [|x a IH]; simpl; [reflexivity|now rewrite IH]. Qed.

Lemma string_length_app (a b : string) :
  String.length (a ++ b) = String.length a + String.length b.
Proof. induction a as [|x a IH]; simpl; [reflexivity|now rewrite IH]. Qed.

Lemma all_space_app (a b : string) :
  all_space (a ++ b) = all_space a && all_space b.
Proof.
  induction a as [|c a IH]; simpl; [reflexivity|].
  rewrite IH. now rewrite andb_assoc.
Qed.

Lemma lstrip_spaces_app (ws s : string) :
  all_space ws = true -> PyStr.lstrip (ws ++ s) = PyStr.lstrip s.
Proof.
  induction ws as [|c ws IH]; simpl; [reflexivity|].
  intros H. apply andb_prop in H as [Hc Hws]. rewrite Hc. now apply IH.
Qed.

Lemma rstrip_snoc (s : string) (c : ascii) :
  PyStr.is_space c = false ->
  PyStr.rstrip (s ++ String c EmptyString) = s ++ String c EmptyString.
Proof.
  intros Hc. induction s as [|d s IH]; simpl.
  - now rewrite Hc.
  - rewrite IH. now destruct s.
Qed.

Lemma strip_quoted (ws v : string) :
  all_space ws = true -> PyStr.strip (ws ++ quoted v) = quoted v.
Proof.
  intros H. unfold PyStr.strip. rewrite (@lstrip_spaces_app ws _ H).
  unfold quoted. cbn [PyStr.lstrip].
  change (PyStr.is_space PyStr.dquote) with false. cbv iota.
  change (String PyStr.dquote (v ++ String PyStr.dquote EmptyString))
    with (String PyStr.dquote v ++ String PyStr.dquote EmptyString).
  now apply rstrip_snoc.
Qed.

Lemma parse_string_quoted (v : string) :
  PyStr.mem PyStr.dquote v = false ->
  exists n, parse_string (quoted v) = Ok (v, n).
Proof.
  intros H. unfold parse_string, quoted.
  rewrite Ascii.eqb_refl. cbn [negb].
  rewrite (@index_first PyStr.dquote v EmptyString H).
  eexists. f_equal. f_equal.
  apply (slice_inner v (String PyStr.dquote EmptyString) PyStr.dquote).
Qed.

(** X10: a value written between double quotes comes back without them, its
    inner spaces kept: for a key without colon and a non-empty text without
    double quote, [get_string] on the line [key: "text"] returns the
    trimmed key and the text, whatever the white space between the colon
    and the opening quote. *)
Theorem get_string_quoted (b : bool) (key ws v : string)
    (rest : list string) (n : Z) :
  PyStr.mem ":" key = false ->
  all_space ws = true ->
  PyStr.mem PyStr.dquote v = false ->
  v <> EmptyString ->
  get_string b {| File := (key ++ String ":" (ws ++ quoted v)) :: rest;
                  Lineno := n |}
  = Ok ((PyStr.strip key, v), {| File := rest; Lineno := (n + 1)%Z |}).
Proof.
  intros Hkey Hws Hv Hne. unfold get_string. cbn [File Lineno skip_blank].
  assert (Hblank : is_blank (key ++ String ":" (ws ++ quoted v)) = false).
  { rewrite is_blank_all_space, all_space_app. simpl.
    apply andb_false_r. }
  rewrite Hblank. cbn [File Lineno].
  rewrite (@partition_first ":" key (ws ++ quoted v) Hkey).
  rewrite (@strip_quoted ws v Hws).
  assert (Hs : PyStr.startswith_char PyStr.dquote (quoted v) = true)
    by reflexivity.
  assert (He : PyStr.endswith_char PyStr.dquote (quoted v) = true).
  { unfold PyStr.endswith_char, quoted.
    change (String PyStr.dquote (v ++ String PyStr.dquote EmptyString))
      with (String PyStr.dquote v ++ String PyStr.dquote EmptyString).
    rewrite last_char_snoc. reflexivity. }
  rewrite Hs, He. cbn [andb].
  destruct (@parse_string_quoted v Hv) as (k & ->). cbn [bind].
  destruct v; [congruence|]. reflexivity.
Qed.

(** X10 at the description line of the footprint source. *)
Lemma get_string_quoted_witness :
  get_string false
    {| File := ["description" ++ String ":" (" " ++ quoted "chip resistor")];
       Lineno := 4 |}
  = Ok ((PyStr.strip "description", "chip resistor"),
        {| File := []; Lineno := (4 + 1)%Z |}).
Proof.
  apply (@get_string_quoted false "description" " " "chip resistor" [] 4%Z);
    [reflexivity | reflexivity | reflexivity | discriminate].
Defined.

(** ** The 3D map touches 3D data only *)

Lemma same_but_model_refl (m : PCBmodule) : same_but_model m m.
Proof. unfold same_but_model. tauto. Qed.

Lemma same_but_model_trans (a b c : PCBmodule) :
  same_but_model a b -> same_but_model b c -> same_but_model a c.
Proof.
  unfold same_but_model. intros H1 H2.
  repeat match goal with H : _ /\ _ |- _ => destruct H end.
  repeat split; congruence.
Qed.

Lemma Forall2_same_refl (l : list PCBmodule) : Forall2 same_but_model l l.
Proof. induction l; constructor; auto using same_but_model_refl. Qed.

Lemma Forall2_same_trans (a b c : list PCBmodule) :
  Forall2 same_but_model a b -> Forall2 same_but_model b c ->
  Forall2 same_but_model a c.
Proof.
  intros H. revert c. induction H as [|x y a b Hxy _ IH]; intros c Hc;
    inversion Hc; subst; constructor; eauto using same_but_model_trans.
Qed.

Lemma list_set_length (i : nat) (v : Q) (l : list Q) :
  List.length (list_set i v l) = List.length l.
Proof.
  revert i. induction l as [|x l IH]; intros [|i]; simpl; auto.
Qed.

Lemma py_setitem_length (l l' : list Q) (index : Z) (v : Q) :
  py_setitem l index v = Ok l' -> List.length l' = List.length l.
Proof.
  unfold py_setitem.
  destruct (_ || _)%bool; [discriminate|]. intros [= <-].
  apply list_set_length.
Qed.

Lemma with_module_model (i : nat) (g : PCBmodule -> result PCBmodule)
    (l l' : list PCBmodule) :
  (forall m m', g m = Ok m' -> same_but_model m m') ->
  with_module i g l = Ok l' -> Forall2 same_but_model l l'.
Proof.
  intros Hg. revert i l'. induction l as [|m l IH]; intros i l' H.
  - destruct i; simpl in H; injection H as <-; constructor.
  - destruct i as [|i]; simpl in H.
    + destruct (g m) as [m'| |] eqn:E; simpl in H; try discriminate.
      injection H as <-. constructor; [now apply Hg|apply Forall2_same_refl].
    + destruct (with_module i g l) as [l''| |] eqn:E; simpl in H;
        try discriminate.
      injection H as <-. constructor; [apply same_but_model_refl|].
      eapply IH; eauto.
Qed.

Section Map.

Variable py_float : string -> option Q.

Lemma set_axis_rot_same (key value : string) (m m' : PCBmodule) :
  set_axis py_float ThreeDRot set_ThreeDRot key value m = Ok m' ->
  same_but_model m m'.
Proof.
  unfold set_axis. intros H. inv_ok.
  match goal with H : py_setitem _ _ _ = Ok _ |- _ =>
    apply py_setitem_length in H end.
  unfold same_but_model. simpl. tauto.
Qed.

Lemma set_axis_scale_same (key value : string) (m m' : PCBmodule) :
  set_axis py_float ThreeDScale set_ThreeDScale key value m = Ok m' ->
  same_but_model m m'.
Proof.
  unfold set_axis. intros H. inv_ok.
  match goal with H : py_setitem _ _ _ = Ok _ |- _ =>
    apply py_setitem_length in H end.
  unfold same_but_model. simpl. tauto.
Qed.

Lemma set_axis_offset_same (key value : string) (m m' : PCBmodule) :
  set_axis py_float ThreeDOffset set_ThreeDOffset key value m = Ok m' ->
  same_but_model m m'.
Proof.
  unfold set_axis. intros H. inv_ok.
  match goal with H : py_setitem _ _ _ = Ok _ |- _ =>
    apply py_setitem_length in H end.
  unfold same_but_model. simpl. tauto.
Qed.

Lemma map_step_invariant (mods0 : list PCBmodule) (s s' : map_state)
    (c : control map_state) :
  map_invariant mods0 s -> map_step py_float s = Ok c ->
  c = Continue s' \/ c = Break s' -> map_invariant mods0 s'.
Proof.
  destruct s as [[mods cur] ff]. unfold map_step, map_invariant.
  intros Hinv H Hs'. simpl in *.
  inv_ok; destruct Hs' as [[= <-]|[= <-]]; simpl; auto;
    (eapply Forall2_same_trans; [exact Hinv|]);
    match goal with
    | H : with_module _ _ _ = Ok _ |- _ =>
        apply with_module_model in H; [exact H|]
    end;
    eauto using set_axis_rot_same, set_axis_scale_same, set_axis_offset_same.
  intros m m' [= <-]. unfold same_but_model. simpl. tauto.
Qed.

(** X11: the 3D map changes 3D data only: a library comes back with the same
    modules in the same order, each with its name, its texts, its graphics
    and its time, and with three vectors of the lengths they had. *)
Theorem process_3dmap_touches_models_only (mapfile : list string)
    (lib lib' : Library) :
  process_3dmap py_float mapfile lib = Ok lib' ->
  Forall2 same_but_model (Modules lib) (Modules lib').
Proof.
  unfold process_3dmap. intros H.
  match type of H with
  | bind (while ?n ?body ?s) _ = _ =>
      destruct (while n body s) as [[[mods cur] ff]| |] eqn:E;
      simpl in H; try discriminate
  end.
  injection H as <-. simpl.
  apply (@while_invariant _ (map_invariant (Modules lib))
           (map_step py_float)) in E; [exact E| | |].
  - intros st0 st1 Hst0 Hstep.
    apply (@map_step_invariant (Modules lib) st0 st1 _ Hst0 Hstep); auto.
  - intros st0 st1 Hst0 Hstep.
    apply (@map_step_invariant (Modules lib) st0 st1 _ Hst0 Hstep); auto.
  - apply Forall2_same_refl.
Qed.

End Map.

(** X11 at a map that turns the module M about the x axis. *)
Lemma process_3dmap_touches_models_only_witness :
  Forall2 same_but_model (Modules library_M)
    [set_ThreeDRot [inject_Z 90; 0; 0]%Q module_M].
Proof.
  apply (@process_3dmap_touches_models_only sample_float
           ["mod: M"; "rotx: 90"] library_M
           {| Modules := [set_ThreeDRot [inject_Z 90; 0; 0]%Q module_M] |}).
  vm_compute. reflexivity.
Defined.

(** ** The 3D map sets one component *)

Lemma rstrip_last_nonspace (v : string) (d : ascii) :
  PyStr.last_char v = Some d -> PyStr.is_space d = false -> PyStr.rstrip v = v.
Proof.
  intros Hl Hd. destruct v as [|c v]; [discriminate|].
  destruct (@string_snoc (String c v)) as (s & e & E); [discriminate|].
  rewrite E in *. rewrite last_char_snoc in Hl. injection Hl as ->.
  now apply rstrip_snoc.
Qed.

Lemma plain_token_strip (ws v : string) :
  all_space ws = true -> plain_token v = true -> PyStr.strip (ws ++ v) = v.
Proof.
  intros Hws Hv. unfold PyStr.strip. rewrite (@lstrip_spaces_app ws v Hws).
  unfold plain_token in Hv. destruct v as [|c v]; [discriminate|].
  destruct (PyStr.last_char (String c v)) as [d|] eqn:El; [|discriminate].
  apply andb_prop in Hv as [Hv Hd]. apply andb_prop in Hv as [Hc Hq].
  apply negb_true_iff in Hc, Hd.
  cbn [PyStr.lstrip]. rewrite Hc.
  now apply (@rstrip_last_nonspace (String c v) d).
Qed.

Lemma plain_token_not_blank (a v : string) :
  plain_token v = true -> is_blank (a ++ v) = false.
Proof.
  intros Hv. rewrite is_blank_all_space, all_space_app.
  unfold plain_token in Hv. destruct v as [|c v]; [discriminate|].
  destruct (PyStr.last_char (String c v)); [|discriminate].
  apply andb_prop in Hv as [Hv _]. apply andb_prop in Hv as [Hc _].
  apply negb_true_iff in Hc. simpl. rewrite Hc. apply andb_false_r.
Qed.

Lemma last_char_app (a v : string) (d : ascii) :
  PyStr.last_char v = Some d -> PyStr.last_char (a ++ v) = Some d.
Proof.
  intros Hv. induction a as [|c a IH]; simpl; [exact Hv|].
  rewrite IH. destruct (a ++ v) eqn:E; [|reflexivity].
  destruct a; simpl in E; [subst; discriminate|discriminate].
Qed.

Lemma plain_token_rstrip (a v : string) :
  plain_token v = true -> PyStr.rstrip (a ++ v) = a ++ v.
Proof.
  intros Hv. unfold plain_token in Hv. destruct v as [|c v]; [discriminate|].
  destruct (PyStr.last_char (String c v)) as [d|] eqn:El; [|discriminate].
  apply andb_prop in Hv as [_ Hd]. apply negb_true_iff in Hd.
  apply (@rstrip_last_nonspace (a ++ String c v) d); [|exact Hd].
  now apply last_char_app.
Qed.

Lemma get_string_plain (b : bool) (key ws v : string) (rest : list string)
    (n : Z) :
  PyStr.mem ":" key = false ->
  all_space ws = true ->
  plain_token v = true ->
  get_string b {| File := (key ++ String ":" (ws ++ v)) :: rest; Lineno := n |}
  = Ok ((PyStr.strip key, v), {| File := rest; Lineno := (n + 1)%Z |}).
Proof.
  intros Hkey Hws Hv. unfold get_string. cbn [File Lineno skip_blank].
  assert (Hblank : is_blank (key ++ String ":" (ws ++ v)) = false).
  { change (key ++ String ":" (ws ++ v))
      with (key ++ (String ":" EmptyString ++ (ws ++ v))).
    rewrite <- !string_app_assoc. now apply plain_token_not_blank. }
  rewrite Hblank. cbn [File Lineno].
  rewrite (@partition_first ":" key (ws ++ v) Hkey).
  rewrite (@plain_token_strip ws v Hws Hv).
  unfold plain_token in Hv. destruct v as [|c v]; [discriminate|].
  destruct (PyStr.last_char (String c v)); [|discriminate].
  apply andb_prop in Hv as [Hv _]. apply andb_prop in Hv as [_ Hq].
  apply negb_true_iff in Hq. cbn [PyStr.startswith_char]. rewrite Hq.
  reflexivity.
Qed.

Lemma at_end_text (line : string) (rest : list string) (n : Z) :
  is_blank line = false ->
  at_end {| File := line :: rest; Lineno := n |}
  = (false, {| File := line :: rest; Lineno := n |}).
Proof. intros H. unfold at_end. cbn [File Lineno skip_blank]. now rewrite H. Qed.

Lemma with_module_nth (i : nat) (g : PCBmodule -> result PCBmodule)
    (l : list PCBmodule) (m m' : PCBmodule) :
  nth_error l i = Some m -> g m = Ok m' ->
  with_module i g l = Ok (replace_nth i m' l).
Proof.
  unfold replace_nth. revert i. induction l as [|x l IH]; intros i Hi Hg.
  - destruct i; discriminate Hi.
  - destruct i as [|i]; simpl in *.
    + injection Hi as ->. now rewrite Hg.
    + rewrite (IH i Hi Hg). reflexivity.
Qed.

Lemma find_module_nth (name : string) (l : list PCBmodule) (i : nat) :
  find_module name l = Some i ->
  exists m, nth_error l i = Some m /\ Name m = name /\
            forall j m', j < i -> nth_error l j = Some m' -> Name m' <> name.
Proof.
  revert i. induction l as [|x l IH]; intros i H; simpl in H; [discriminate|].
  destruct (String.eqb_spec (Name x) name) as [E|E].
  - injection H as <-. exists x. repeat split; auto. intros j m' Hj. lia.
  - destruct (find_module name l) as [k|] eqn:Ek; simpl in H; [|discriminate].
    injection H as <-. destruct (IH k eq_refl) as (m & Hm & Hn & Hfirst).
    exists m. repeat split; auto.
    intros [|j] m' Hj Hm'; simpl in Hm'.
    + now injection Hm' as <-.
    + apply (Hfirst j m'); [lia|exact Hm'].
Qed.

Section Axis.

Variable py_float : string -> option Q.

Lemma map_step_mod (mods : list PCBmodule) (cur : option nat) (name : string)
    (rest : list string) (n : Z) (i : nat) :
  plain_token name = true ->
  find_module name mods = Some i ->
  map_step py_float
    (mods, cur, {| File := ("mod: " ++ name) :: rest; Lineno := n |})
  = Ok (Continue (mods, Some i, {| File := rest; Lineno := (n + 1)%Z |})).
Proof.
  intros Hname Hfind. unfold map_step.
  rewrite at_end_text by (now apply (@plain_token_not_blank "mod: " name)).
  change ("mod: " ++ name) with ("mod" ++ String ":" (" " ++ name)).
  rewrite (@get_string_plain false "mod" " " name rest n eq_refl eq_refl Hname).
  cbn [bind]. change (String.eqb (PyStr.strip "mod") "mod") with true.
  cbv iota. now rewrite Hfind.
Qed.

Lemma set_axis_spec (vec : vector) (ax : axis) (vtext : string) (v : Q)
    (m : PCBmodule) :
  py_float vtext = Some v ->
  List.length (get_vector vec m) = 3 ->
  set_axis py_float (get_vector vec) (set_vector vec)
    (vector_key vec ++ axis_letter ax) vtext m
  = Ok (set_vector vec
          (replace_nth (axis_position ax) v (get_vector vec m)) m).
Proof.
  intros Hv Hlen. unfold set_axis.
  destruct (get_vector vec m) as [|a [|b [|c [|? ?]]]] eqn:E;
    try discriminate Hlen.
  destruct vec, ax; cbn [vector_key axis_letter append axis_index String.get bind];
    rewrite Hv; reflexivity.
Qed.

Lemma map_step_axis (vec : vector) (ax : axis) (mods : list PCBmodule)
    (vtext : string) (v : Q) (rest : list string) (n : Z) (i : nat)
    (m : PCBmodule) :
  plain_token vtext = true ->
  py_float vtext = Some v ->
  nth_error mods i = Some m ->
  List.length (get_vector vec m) = 3 ->
  map_step py_float
    (mods, Some i,
     {| File := (vector_key vec ++ axis_letter ax ++ ": " ++ vtext) :: rest;
        Lineno := n |})
  = Ok (Continue
          (replace_nth i
             (set_vector vec
                (replace_nth (axis_position ax) v (get_vector vec m)) m) mods,
           Some i, {| File := rest; Lineno := (n + 1)%Z |})).
Proof.
  intros Htok Hv Hnth Hlen. unfold map_step.
  rewrite at_end_text
    by (rewrite <- !string_app_assoc; now apply plain_token_not_blank).
  pose proof (@set_axis_spec vec ax vtext v m Hv Hlen) as Hset.
  assert (Hkey : PyStr.mem ":" (vector_key vec ++ axis_letter ax) = false)
    by (destruct vec, ax; reflexivity).
  replace (vector_key vec ++ axis_letter ax ++ ": " ++ vtext)
    with ((vector_key vec ++ axis_letter ax) ++ String ":" (" " ++ vtext))
    by (now rewrite string_app_assoc).
  rewrite (@get_string_plain false _ " " vtext rest n Hkey eq_refl Htok).
  cbn [bind].
  destruct vec, ax;
    cbn [vector_key axis_letter append get_vector set_vector] in *;
    match goal with
    | |- context [PyStr.strip ?k] =>
        change (PyStr.strip k) with k
    end;
    match goal with
    | |- (if String.eqb ?k "mod" then _ else _) = _ =>
        change (String.eqb k "mod") with false;
        change (String.eqb k "3dmod") with false;
        try change (PyStr.startswith "rot" k) with true;
        try change (PyStr.startswith "rot" k) with false;
        try change (PyStr.startswith "sca" k) with true;
        try change (PyStr.startswith "sca" k) with false;
        try change (PyStr.startswith "off" k) with true
    end;
    cbv iota;
    rewrite (@with_module_nth i _ mods m _ Hnth Hset); reflexivity.
Qed.

(** X12: after the record that selects a module, a record whose key is rot,
    sca or off followed by x, y or z sets the component 0, 1 or 2 of the
    rotation, the scale or the offset of that module to the float its value
    reads as; the module selected is the first of the library that has the
    name, and no other module changes. *)
Theorem process_3dmap_sets_axis (vec : vector) (ax : axis)
    (name vtext : string) (v : Q) (lib : Library) (i : nat) (m : PCBmodule) :
  plain_token name = true ->
  plain_token vtext = true ->
  py_float vtext = Some v ->
  find_module name (Modules lib) = Some i ->
  nth_error (Modules lib) i = Some m ->
  List.length (get_vector vec m) = 3 ->
  process_3dmap py_float
    ["mod: " ++ name; vector_key vec ++ axis_letter ax ++ ": " ++ vtext] lib
  = Ok {| Modules :=
            replace_nth i
              (set_vector vec
                 (replace_nth (axis_position ax) v (get_vector vec m)) m)
              (Modules lib) |} /\
  Name m = name /\
  forall j m', j < i -> nth_error (Modules lib) j = Some m' -> Name m' <> name.
Proof.
  intros Hname Htok Hv Hfind Hnth Hlen.
  destruct (@find_module_nth name (Modules lib) i Hfind)
    as (m0 & Hm0 & Hn & Hfirst).
  rewrite Hnth in Hm0. injection Hm0 as <-.
  split; [|split; [exact Hn|exact Hfirst]].
  unfold process_3dmap, FreePCBfile_init. cbn [map].
  rewrite (@plain_token_rstrip "mod: " name Hname).
  replace (PyStr.rstrip (vector_key vec ++ axis_letter ax ++ ": " ++ vtext))
    with (vector_key vec ++ axis_letter ax ++ ": " ++ vtext)
    by (rewrite <- !string_app_assoc; symmetry;
        now apply plain_token_rstrip).
  change (budget _) with 3.
  rewrite while_unfold, (@map_step_mod _ None name _ 1%Z i Hname Hfind).
  cbn [bind].
  rewrite while_unfold,
    (@map_step_axis vec ax _ vtext v [] (1 + 1)%Z i m Htok Hv Hnth Hlen).
  cbn [bind]. reflexivity.
Qed.

End Axis.

(** X12 at the key rotx and the module M. *)
Lemma process_3dmap_sets_axis_witness :
  process_3dmap sample_float ["mod: " ++ "M"; "rot" ++ "x" ++ ": " ++ "90"]
    library_M
  = Ok {| Modules :=
            replace_nth 0
              (set_ThreeDRot (replace_nth 0 (inject_Z 90) (ThreeDRot module_M))
                 module_M)
              (Modules library_M) |} /\
  Name module_M = "M" /\
  forall j m', j < 0 -> nth_error (Modules library_M) j = Some m' ->
               Name m' <> "M".
Proof.
  apply (@process_3dmap_sets_axis sample_float Rot X_axis "M" "90"
           (inject_Z 90) library_M 0 module_M); reflexivity.
Defined.

(** ** Every loop of the program ends *)

Lemma for_each_no_timeout (g : PCBmodule -> result PCBmodule) (l : list PCBmodule) :
  (forall m, g m <> OutOfBudget) -> for_each g l <> OutOfBudget.
Proof.
  intros Hg. induction l as [|m l IH]; simpl; [discriminate|].
  specialize (Hg m). destruct (g m); simpl; try congruence.
  destruct (for_each g l); simpl; congruence.
Qed.

Lemma Pin_size_no_timeout (p : Pin) : Pin_size p <> OutOfBudget.
Proof.
  unfold Pin_size. destruct (TopPad p); [|discriminate].
  destruct (Angle p =? 90)%Z; [discriminate|].
  destruct (Angle p =? 0)%Z; discriminate.
Qed.

Lemma Pin_kicad_sexp_no_timeout (p : Pin) : Pin_kicad_sexp p <> OutOfBudget.
Proof.
  unfold Pin_kicad_sexp. pose proof (Pin_size_no_timeout p) as Hs.
  destruct (Pin_size p) as [[sx sy]| |]; try congruence;
    destruct (DrillDiam p =? 0)%Z; simpl; try discriminate.
  unfold Pin_smd_shape.
  repeat match goal with
         | |- context [match ?x with _ => _ end] => destruct x; simpl
         end; discriminate.
Qed.

Lemma pins_sexp_no_timeout (l : list Graphic) : pins_sexp l <> OutOfBudget.
Proof.
  induction l as [|[q|p] l IH]; simpl; [discriminate|exact IH|].
  pose proof (Pin_kicad_sexp_no_timeout p) as Hp.
  destruct (Pin_kicad_sexp p); simpl; try congruence.
  destruct (pins_sexp l); simpl; congruence.
Qed.

Lemma polylines_sexp_no_timeout (l : list Graphic) : polylines_sexp l <> OutOfBudget.
Proof.
  induction l as [|[q|p] l IH]; simpl; [discriminate| |exact IH].
  unfold Polyline_kicad_sexp. destruct (Points q); simpl; [discriminate|].
  destruct (polylines_sexp l); simpl; congruence.
Qed.

Lemma PCBmodule_kicad_sexp_no_timeout (m : PCBmodule) :
  PCBmodule_kicad_sexp m <> OutOfBudget.
Proof.
  unfold PCBmodule_kicad_sexp.
  pose proof (polylines_sexp_no_timeout (Graphics m)) as Hl.
  pose proof (pins_sexp_no_timeout (Graphics m)) as Hp.
  destruct (polylines_sexp (Graphics m)); simpl; try congruence.
  destruct (pins_sexp (Graphics m)); simpl; congruence.
Qed.

Lemma py_min_no_timeout (l : list Q) : py_min l <> OutOfBudget.
Proof. destruct l; discriminate. Qed.

Lemma py_max_no_timeout (l : list Q) : py_max l <> OutOfBudget.
Proof. destruct l; discriminate. Qed.

Lemma Graphic_bounding_box_no_timeout (g : Graphic) :
  Graphic_bounding_box g <> OutOfBudget.
Proof.
  destruct g as [q|p]; simpl.
  - unfold Polyline_bounding_box.
    destruct (Points q); simpl; discriminate.
  - unfold Pin_bounding_box. pose proof (Pin_size_no_timeout p) as Hs.
    destruct (Pin_size p) as [[sx sy]| |]; simpl; congruence.
Qed.

Lemma sub_boxes_no_timeout (l : list Graphic) : sub_boxes l <> OutOfBudget.
Proof.
  induction l as [|g l IH]; simpl; [discriminate|].
  pose proof (Graphic_bounding_box_no_timeout g) as Hg.
  destruct (Graphic_bounding_box g); simpl; try congruence.
  destruct (sub_boxes l); simpl; congruence.
Qed.

Lemma PCBmodule_add_courtyard_no_timeout (spacing : Q) (m : PCBmodule) :
  PCBmodule_add_courtyard spacing m <> OutOfBudget.
Proof.
  unfold PCBmodule_add_courtyard, PCBmodule_bounding_box.
  pose proof (sub_boxes_no_timeout (Graphics m)) as Hs.
  destruct (sub_boxes (Graphics m)) as [bs| |]; simpl; try congruence.
  destruct bs as [|b bs]; simpl; [discriminate|].
  repeat match goal with
         | |- context [let '(_, _) := ?x in _] => destruct x
         end.
  discriminate.
Qed.

Lemma PCBmodule_strip_lmn_no_timeout (m : PCBmodule) :
  PCBmodule_strip_lmn m <> OutOfBudget.
Proof.
  unfold PCBmodule_strip_lmn.
  destruct (PyStr.last_char (Name m)) as [c|]; [|discriminate].
  destruct (PyStr.mem c "LMNlmn"); discriminate.
Qed.

Lemma Library_strip_lmn_no_timeout (lib : Library) :
  Library_strip_lmn lib <> OutOfBudget.
Proof.
  unfold Library_strip_lmn.
  assert (H : Library_strip_lmn_list (Modules lib) <> OutOfBudget).
  { induction (Modules lib) as [|m l IH]; cbn [Library_strip_lmn_list];
      [discriminate|].
    pose proof (PCBmodule_strip_lmn_no_timeout m) as Hm.
    destruct (PCBmodule_strip_lmn m); cbn [bind]; try congruence.
    destruct (Library_strip_lmn_list l); cbn [bind]; congruence. }
  destruct (Library_strip_lmn_list (Modules lib)); cbn [bind]; congruence.
Qed.

Lemma Library_iadd_no_timeout (a b : Library) : Library_iadd a b <> OutOfBudget.
Proof. unfold Library_iadd. destruct (find_dup _ _); discriminate. Qed.

Lemma with_module_no_timeout (i : nat) (g : PCBmodule -> result PCBmodule)
    (l : list PCBmodule) :
  (forall m, g m <> OutOfBudget) -> with_module i g l <> OutOfBudget.
Proof.
  intros Hg. revert i. induction l as [|m l IH]; intros [|i]; simpl;
    try discriminate.
  - specialize (Hg m). destruct (g m); simpl; congruence.
  - specialize (IH i). destruct (with_module i g l); simpl; congruence.
Qed.

Section Terminates.

Variable py_float : string -> option Q.
Variable float_repr : Q -> string.
Variable str_repr : string -> string.
Variable md5 : string -> string.

Lemma set_axis_no_timeout get set (key value : string) (m : PCBmodule) :
  set_axis py_float get set key value m <> OutOfBudget.
Proof.
  unfold set_axis, axis_index, py_setitem.
  destruct (String.get 3 key); simpl; [|discriminate].
  destruct (py_float value); [|discriminate].
  destruct (_ || _)%bool; simpl; discriminate.
Qed.

Lemma map_step_continue (s s' : map_state) :
  map_step py_float s = Ok (Continue s') ->
  remaining (snd s') < remaining (snd s).
Proof.
  destruct s as [[mods cur] ff]. unfold map_step. intros H.
  inv_ok; simpl;
    match goal with
    | Ha : at_end _ = _, Hg : get_string _ _ = Ok _ |- _ =>
        apply at_end_length in Ha; apply get_string_length in Hg; lia
    end.
Qed.

Lemma map_step_no_timeout (s : map_state) : map_step py_float s <> OutOfBudget.
Proof.
  destruct s as [[mods cur] ff]. unfold map_step.
  destruct (at_end ff) as [e f0]. destruct e; [discriminate|].
  pose proof (get_string_no_timeout false f0) as Hg.
  destruct (get_string false f0) as [[[key value] f1]| |]; simpl;
    try congruence.
  destruct (String.eqb key "mod");
    [destruct (find_module value mods); discriminate|].
  assert (Hw : forall g, (forall m, g m <> OutOfBudget) ->
                 match cur with
                 | Some i =>
                     mods' <- with_module i g mods ;;
                     Ok (Continue (mods', cur, f1))
                 | None => Raise (no_module f1)
                 end <> OutOfBudget).
  { intros g Hgm. destruct cur as [i|]; [|discriminate].
    pose proof (@with_module_no_timeout i g mods Hgm) as Hi.
    destruct (with_module i g mods); simpl; congruence. }
  destruct (String.eqb key "3dmod"); [apply Hw; discriminate|].
  destruct (PyStr.startswith "rot" key);
    [apply Hw; intros; apply set_axis_no_timeout|].
  destruct (PyStr.startswith "sca" key);
    [apply Hw; intros; apply set_axis_no_timeout|].
  destruct (PyStr.startswith "off" key);
    [apply Hw; intros; apply set_axis_no_timeout|].
  discriminate.
Qed.

Lemma process_3dmap_no_timeout (mapfile : list string) (lib : Library) :
  process_3dmap py_float mapfile lib <> OutOfBudget.
Proof.
  unfold process_3dmap.
  pose proof (@while_no_timeout _ (map_step py_float)
                (fun s : map_state => remaining (snd s)) map_step_continue
                (budget (FreePCBfile_init mapfile))
                (Modules lib, None, FreePCBfile_init mapfile)
                map_step_no_timeout) as H.
  match goal with
  | |- bind ?w _ <> _ => destruct w as [[[mods cur] ff]| |]
  end; simpl; try discriminate.
  exfalso. apply H; [|reflexivity]. unfold budget, remaining. simpl. lia.
Qed.

Lemma load_no_timeout (opts : Options) (infiles : list (list string))
    (clock : nat -> nat -> Q) (k : nat) (lib : Library) :
  load opts infiles clock k lib <> OutOfBudget.
Proof.
  revert k lib. induction infiles as [|lines infiles IH]; intros k lib; simpl;
    [discriminate|].
  pose proof (@Library_init_no_timeout (FreePCBfile_init lines) opts (clock k)) as Hi.
  destruct (Library_init _ _ _) as [sub| |]; simpl; try congruence.
  pose proof (Library_iadd_no_timeout lib sub) as Ha.
  destruct (Library_iadd lib sub); simpl; [apply IH|discriminate|congruence].
Qed.

Lemma hash_time_no_timeout (m : PCBmodule) :
  hash_time float_repr str_repr md5 m <> OutOfBudget.
Proof.
  unfold hash_time.
  pose proof (PCBmodule_kicad_sexp_no_timeout (set_tedit 0%Q m)) as Hk.
  destruct (PCBmodule_kicad_sexp (set_tedit 0%Q m)); simpl; try congruence.
  unfold unpack_le32.
  repeat match goal with
         | |- context [match ?x with _ => _ end] => destruct x; simpl
         end; discriminate.
Qed.

Lemma on_modules_no_timeout (g : PCBmodule -> result PCBmodule) (lib : Library) :
  (forall m, g m <> OutOfBudget) -> on_modules g lib <> OutOfBudget.
Proof.
  intros Hg. unfold on_modules.
  pose proof (@for_each_no_timeout g (Modules lib) Hg) as H.
  destruct (for_each g (Modules lib)); simpl; congruence.
Qed.

Lemma convert_no_timeout (opts : Options) (infiles : list (list string))
    (clock : nat -> nat -> Q) :
  convert py_float float_repr str_repr md5 opts infiles clock <> OutOfBudget.
Proof.
  unfold convert, when.
  pose proof (@load_no_timeout opts infiles clock 0 Library_empty) as H1.
  destruct (load opts infiles clock 0 Library_empty) as [l1| |]; simpl;
    try congruence.
  assert (H2 : (if strip_lmn_opt opts then Library_strip_lmn l1 else Ok l1)
               <> OutOfBudget).
  { destruct (strip_lmn_opt opts);
      [apply Library_strip_lmn_no_timeout|discriminate]. }
  destruct (if strip_lmn_opt opts then _ else _) as [l2| |]; simpl;
    try congruence.
  assert (H3 : match threedmap opts with
               | Some mapfile => process_3dmap py_float mapfile l2
               | None => Ok l2
               end <> OutOfBudget).
  { destruct (threedmap opts);
      [apply process_3dmap_no_timeout|discriminate]. }
  destruct (match threedmap opts with Some _ => _ | None => _ end)
    as [l3| |]; simpl; try congruence.
  assert (H4 : match courtyard opts with
               | Some spacing => on_modules (PCBmodule_add_courtyard spacing) l3
               | None => Ok l3
               end <> OutOfBudget).
  { destruct (courtyard opts);
      [apply on_modules_no_timeout; intros;
       apply PCBmodule_add_courtyard_no_timeout|discriminate]. }
  destruct (match courtyard opts with Some _ => _ | None => _ end)
    as [l4| |]; simpl; try congruence.
  destruct (hashtime opts); [|discriminate].
  apply on_modules_no_timeout. apply hash_time_no_timeout.
Qed.

Lemma generate_no_timeout (l : list PCBmodule) :
  snd (generate float_repr l) <> OutOfBudget.
Proof.
  induction l as [|m l IH]; simpl; [discriminate|].
  pose proof (PCBmodule_kicad_sexp_no_timeout m) as Hk.
  destruct (PCBmodule_kicad_sexp m); simpl; [|discriminate|congruence].
  destruct (generate float_repr l). exact IH.
Qed.

(** X13: the program ends: no loop of the parser or of the reader of the 3D
    map runs out of its budget, a loop that pops a line in every round
    having the lines left as its budget. *)
Theorem main_terminates (opts : Options) (infiles : list (list string))
    (clock : nat -> nat -> Q) :
  ran_out (snd (main py_float float_repr str_repr md5 opts infiles clock))
  = false.
Proof.
  assert (H : snd (main py_float float_repr str_repr md5 opts infiles clock)
              <> OutOfBudget).
  { unfold main. pose proof (convert_no_timeout opts infiles clock) as Hc.
    destruct (convert _ _ _ _ _ _ _) as [lib| |]; simpl;
      [apply generate_no_timeout|discriminate|congruence]. }
  destruct (snd (main _ _ _ _ _ _ _)); [reflexivity..|congruence].
Qed.

End Terminates.

(** ** Loading several files *)

Lemma Library_iadd_distinct (a b c : Library) :
  distinct_names (Modules a) -> distinct_names (Modules b) ->
  Library_iadd a b = Ok c -> distinct_names (Modules c).
Proof.
  unfold Library_iadd, distinct_names. intros Ha Hb H.
  destruct (find_dup (Modules a) (Modules b)) as [n|] eqn:E; [discriminate|].
  injection H as <-. simpl. rewrite map_app.
  apply NoDup_app; [exact Ha|exact Hb|].
  intros n Hin Hin'. apply in_map_iff in Hin as (i & <- & Hi).
  apply in_map_iff in Hin' as (j & Ej & Hj).
  rewrite find_dup_none in E. apply (E i j Hi Hj). now symmetry.
Qed.

Lemma load_spec (opts : Options) (infiles : list (list string))
    (clock : nat -> nat -> Q) (k : nat) (lib0 lib : Library) :
  load opts infiles clock k lib0 = Ok lib ->
  exists subs,
    parsed_files opts infiles clock k subs /\
    Modules lib = (Modules lib0 ++ concat (map Modules subs))%list /\
    (distinct_names (Modules lib0) ->
     Forall (fun sub => distinct_names (Modules sub)) subs ->
     distinct_names (Modules lib)).
Proof.
  revert k lib0. induction infiles as [|lines infiles IH]; intros k lib0 H;
    simpl in H.
  - injection H as <-. exists []. simpl. rewrite app_nil_r. auto.
  - destruct (Library_init (FreePCBfile_init lines) opts (clock k))
      as [sub| |] eqn:Es; simpl in H; try discriminate.
    destruct (Library_iadd lib0 sub) as [lib1| |] eqn:Ea; simpl in H;
      try discriminate.
    destruct (IH (S k) lib1 H) as (subs & Hp & Hm & Hd).
    exists (sub :: subs). split; [simpl; auto|]. split.
    + rewrite Hm. simpl. rewrite app_assoc. f_equal.
      unfold Library_iadd in Ea. destruct (find_dup _ _); [discriminate|].
      now injection Ea as <-.
    + intros H0 Hall. inversion Hall as [|? ? Hsub Hrest]; subst.
      apply Hd; [|exact Hrest].
      exact (@Library_iadd_distinct lib0 sub lib1 H0 Hsub Ea).
Qed.

(** X14: the library [main] works on holds the modules of the input files
    in the order of the command line, the modules of a file in the order of
    the file; when no file names a module twice, no name occurs twice in
    the library. *)
Theorem load_merges_in_order (opts : Options) (infiles : list (list string))
    (clock : nat -> nat -> Q) (lib : Library) :
  load opts infiles clock 0 Library_empty = Ok lib ->
  exists subs,
    parsed_files opts infiles clock 0 subs /\
    Modules lib = concat (map Modules subs) /\
    (Forall (fun sub => distinct_names (Modules sub)) subs ->
     distinct_names (Modules lib)).
Proof.
  intros H. destruct (@load_spec opts infiles clock 0 Library_empty lib H) as (subs & Hp & Hm & Hd).
  exists subs. split; [exact Hp|]. split; [exact Hm|].
  apply Hd. constructor.
Qed.

(** X14 at the footprint source as the only file. *)
Lemma load_merges_in_order_witness :
  exists subs,
    parsed_files no_options [footprint_text] (fun _ => epoch) 0 subs /\
    Modules footprint_library = concat (map Modules subs) /\
    (Forall (fun sub => distinct_names (Modules sub)) subs ->
     distinct_names (Modules footprint_library)).
Proof.
  apply (@load_merges_in_order no_options [footprint_text] (fun _ => epoch)
           footprint_library).
  vm_compute. reflexivity.
Defined.

(** ** The files [main] writes *)

Section Generate.

Variable float_repr : Q -> string.

Lemma generate_all (l : list PCBmodule) :
  Forall (fun m => is_ok (PCBmodule_kicad_sexp m) = true) l ->
  generate float_repr l = (map (written float_repr) l, Ok tt).
Proof.
  induction 1 as [|m l Hm _ IH]; simpl; [reflexivity|].
  unfold written at 1. destruct (PCBmodule_kicad_sexp m); try discriminate.
  now rewrite IH.
Qed.

(** X15: the files are written in the order of the library, one for a module,
    called after it; the first module that cannot be emitted stops the
    program, its file being left empty and no later file being written. *)
Theorem generate_writes_in_order :
  (forall l,
      Forall (fun m => is_ok (PCBmodule_kicad_sexp m) = true) l ->
      generate float_repr l = (map (written float_repr) l, Ok tt)) /\
  (forall l m l' e,
      Forall (fun m => is_ok (PCBmodule_kicad_sexp m) = true) l ->
      PCBmodule_kicad_sexp m = Raise e ->
      generate float_repr (l ++ m :: l')%list
      = ((map (written float_repr) l
          ++ [((Name m ++ ".kicad_mod")%string, EmptyString)])%list,
         Raise e)).
Proof.
  split; [exact generate_all|].
  intros l m l' e Hl Hm. induction Hl as [|m0 l Hm0 _ IH]; simpl.
  - now rewrite Hm.
  - unfold written at 1.
    destruct (PCBmodule_kicad_sexp m0); try discriminate. now rewrite IH.
Qed.

End Generate.

(** ** The text of a file is printable ASCII *)

Lemma all_chars_app (P : ascii -> bool) (a b : string) :
  all_chars P (a ++ b) = all_chars P a && all_chars P b.
Proof.
  induction a as [|c a IH]; simpl; [reflexivity|].
  rewrite IH. now rewrite andb_assoc.
Qed.

Lemma join_all_chars (P : ascii -> bool) (sep : string) (l : list string) :
  all_chars P sep = true ->
  Forall (fun s => all_chars P s = true) l ->
  all_chars P (PyStr.join sep l) = true.
Proof.
  intros Hsep. induction 1 as [|s l Hs Hl IH]; [reflexivity|].
  destruct l as [|s' l]; [exact Hs|].
  change (PyStr.join sep (s :: s' :: l))
    with (s ++ sep ++ PyStr.join sep (s' :: l)).
  rewrite !all_chars_app, Hs, Hsep, IH. reflexivity.
Qed.


Lemma escape_char_printable (c : ascii) :
  all_chars printable (escape_char c) = true.
Proof. destruct c as [[] [] [] [] [] [] [] []]; reflexivity. Qed.

Lemma unicode_escape_printable (s : string) :
  all_chars printable (unicode_escape s) = true.
Proof.
  induction s as [|c s IH]; simpl; [reflexivity|].
  now rewrite all_chars_app, escape_char_printable, IH.
Qed.

Section Printable.

Variable float_repr : Q -> string.
Hypothesis float_repr_printable :
  forall q, all_chars printable (float_repr q) = true.

Lemma SexpDump_printable (x : sexp) :
  clean x = true -> all_chars printable (SexpDump float_repr x) = true.
Proof.
  induction x as [s|s|z|q|l IH] using sexp_induction; simpl; intros Hc; auto.
  - rewrite all_chars_app. simpl.
    now rewrite unicode_escape_printable.
  - rewrite all_chars_app. simpl. rewrite andb_true_r.
    apply join_all_chars; [reflexivity|].
    induction IH as [|a l Ha _ IHl]; simpl in *; [constructor|].
    apply andb_prop in Hc as [Hca Hcl]. constructor; auto.
Qed.

End Printable.

Lemma forallb_app_true {A} (P : A -> bool) (a b : list A) :
  forallb P a = true -> forallb P b = true -> forallb P (a ++ b) = true.
Proof. intros Ha Hb. now rewrite forallb_app, Ha, Hb. Qed.

Lemma Polyline_segments_clean (p : Polyline) (a : Q * Q) (l : list (Q * Q)) :
  forallb clean (Polyline_segments p a l) = true.
Proof.
  revert a. induction l as [|b l IH]; intros a; simpl; [reflexivity|].
  apply IH.
Qed.

Lemma polylines_sexp_clean (l : list Graphic) (x : list sexp) :
  polylines_sexp l = Ok x -> forallb clean x = true.
Proof.
  revert x. induction l as [|[q|p] l IH]; simpl; intros x H.
  - now injection H as <-.
  - unfold Polyline_kicad_sexp in H.
    destruct (Points q) as [|a rest]; simpl in H; [discriminate|].
    destruct (polylines_sexp l) as [r| |]; simpl in H; try discriminate.
    injection H as <-. apply forallb_app_true; [|now apply IH].
    apply Polyline_segments_clean.
  - now apply IH.
Qed.

Lemma Pin_smd_shape_clean (p : Pin) (s : string) :
  Pin_smd_shape p = Ok s -> all_chars printable s = true.
Proof.
  unfold Pin_smd_shape.
  repeat match goal with
         | |- context [match ?x with _ => _ end] => destruct x
         end; intros [= <-]; reflexivity.
Qed.

Lemma Pin_kicad_sexp_clean (p : Pin) (x : list sexp) :
  Pin_kicad_sexp p = Ok x -> forallb clean x = true.
Proof.
  unfold Pin_kicad_sexp.
  destruct (Pin_size p) as [[sx sy]| |];
    destruct (DrillDiam p =? 0)%Z; simpl; try discriminate.
  - destruct (Pin_smd_shape p) as [s| |] eqn:E; simpl; try discriminate.
    intros [= <-]. apply Pin_smd_shape_clean in E. simpl. now rewrite E.
  - intros [= <-]. destruct (String.eqb (PinName p) "1"); reflexivity.
Qed.

Lemma pins_sexp_clean (l : list Graphic) (x : list sexp) :
  pins_sexp l = Ok x -> forallb clean x = true.
Proof.
  revert x. induction l as [|[q|p] l IH]; simpl; intros x H.
  - now injection H as <-.
  - now apply IH.
  - destruct (Pin_kicad_sexp p) as [s| |] eqn:E; simpl in H; try discriminate.
    destruct (pins_sexp l) as [r| |]; simpl in H; try discriminate.
    injection H as <-. apply forallb_app_true; [|now apply IH].
    now apply Pin_kicad_sexp_clean in E.
Qed.

Lemma xyz_clean (v : list Q) : clean (xyz v) = true.
Proof. unfold xyz. simpl. induction v; simpl; auto. Qed.

Lemma PCBmodule_kicad_sexp_clean (m : PCBmodule) (x : list sexp) :
  PCBmodule_kicad_sexp m = Ok x -> clean (SList x) = true.
Proof.
  unfold PCBmodule_kicad_sexp.
  destruct (polylines_sexp (Graphics m)) as [lines| |] eqn:El; simpl;
    try discriminate.
  destruct (pins_sexp (Graphics m)) as [pads| |] eqn:Ep; simpl;
    try discriminate.
  intros [= <-]. apply polylines_sexp_clean in El.
  apply pins_sexp_clean in Ep.
  cbn [clean app forallb]. change (all_chars printable "module") with true.
  cbn [andb].
  repeat match goal with
         | |- context [all_chars printable ?s] =>
             change (all_chars printable s) with true
         end.
  cbn [andb].
  apply forallb_app_true; [exact El|].
  apply forallb_app_true; [exact Ep|].
  destruct (ThreeDName m); [|reflexivity].
  cbn [forallb clean]. rewrite !xyz_clean. reflexivity.
Qed.

Section Files.

Variable float_repr : Q -> string.
Hypothesis float_repr_printable :
  forall q, all_chars printable (float_repr q) = true.

(** X16: whatever characters the names and the descriptions of the modules
    hold, the text of every file [generate] writes consists of printable
    characters of ASCII only, provided the text of a float does: in
    particular the text is a single line that no line terminator ends. *)
Theorem written_text_printable (l : list PCBmodule) :
  Forall (fun file => all_chars printable (snd file) = true)
         (fst (generate float_repr l)).
Proof.
  induction l as [|m l IH]; [constructor|]. cbn [generate].
  destruct (PCBmodule_kicad_sexp m) as [x|e|] eqn:E.
  - destruct (generate float_repr l) as [files r]. cbn [fst snd] in *.
    constructor; [|exact IH]. cbn [snd].
    apply SexpDump_printable; [exact float_repr_printable|].
    now apply PCBmodule_kicad_sexp_clean in E.
  - repeat constructor.
  - constructor.
Qed.

End Files.

(** X16 at the module of the footprint source, every float written 0.0. *)
Lemma written_text_printable_witness :
  Forall (fun file => all_chars printable (snd file) = true)
         (fst (generate (fun _ => "0.0") [footprint_module])).
Proof.
  apply (@written_text_printable (fun _ => "0.0")).
  intros q. reflexivity.
Defined.

(** ** The text of the edit time *)

Lemma hex_digit_val_digit (k : N) :
  (k < 16)%N -> hex_digit_val (hex_digit k) = Some k.
Proof.
  intros H.
  assert (Hk : In k [0; 1; 2; 3; 4; 5; 6; 7; 8; 9; 10; 11; 12; 13; 14; 15]%N).
  { destruct k as [|p]; [simpl; auto|].
    do 4 (destruct p as [p|p|]; try (simpl; tauto); try lia). }
  simpl in Hk.
  repeat (destruct Hk as [<-|Hk]; [reflexivity|]). destruct Hk.
Qed.

Lemma hex_val_from_app (a b : string) (acc v : N) :
  hex_val_from acc a = Some v ->
  hex_val_from acc (a ++ b) = hex_val_from v b.
Proof.
  revert acc. induction a as [|c a IH]; intros acc; simpl.
  - now intros [= <-].
  - destruct (hex_digit_val c); [apply IH|discriminate].
Qed.

Lemma hex_val_from_snoc (a : string) (c : ascii) (acc v d : N) :
  hex_val_from acc a = Some v -> hex_digit_val c = Some d ->
  hex_val_from acc (a ++ String c EmptyString) = Some (v * 16 + d)%N.
Proof.
  intros Ha Hc. rewrite (@hex_val_from_app a _ acc v Ha). simpl.
  now rewrite Hc.
Qed.

Lemma hex_of_N_spec (fuel : nat) (n : N) (acc : string) :
  1 <= fuel ->
  (n < 2 ^ N.of_nat fuel)%N ->
  exists d,
    hex_of_N fuel n acc = d ++ acc /\
    hex_val d = Some n /\
    1 <= String.length d /\
    forall k, 1 <= k -> (n < 16 ^ N.of_nat k)%N -> String.length d <= k.
Proof.
  revert n acc. induction fuel as [|fuel IH]; intros n acc Hfuel Hn.
  - lia.
  - cbn [hex_of_N].
    assert (Hmod : (n mod 16 < 16)%N) by (apply N.mod_lt; lia).
    destruct (N.eqb_spec (n / 16) 0) as [E|E].
    + exists (String (hex_digit (n mod 16)) EmptyString).
      split; [reflexivity|]. split; [|split; [simpl; lia|simpl; lia]].
      unfold hex_val. simpl. rewrite (hex_digit_val_digit Hmod).
      f_equal. pose proof (N.div_mod n 16). lia.
    + assert (Hdiv : (n / 16 < 2 ^ N.of_nat fuel)%N).
      { apply N.Div0.div_lt_upper_bound.
        replace (N.of_nat (S fuel)) with (N.succ (N.of_nat fuel)) in Hn by lia.
        rewrite N.pow_succ_r' in Hn. revert Hn.
        generalize (2 ^ N.of_nat fuel)%N. intros X HX. lia. }
      assert (Hfuel' : 1 <= fuel).
      { destruct fuel; [|lia]. change (2 ^ N.of_nat 0)%N with 1%N in Hdiv.
        apply N.lt_1_r in Hdiv. contradiction. }
      destruct (IH (n / 16)%N (String (hex_digit (n mod 16)) acc) Hfuel' Hdiv)
        as (d & Ed & Hv & Hlen & Hk).
      exists (d ++ String (hex_digit (n mod 16)) EmptyString).
      split; [rewrite Ed, string_app_assoc; reflexivity|].
      split; [|split].
      * unfold hex_val in *.
        rewrite (@hex_val_from_snoc d _ 0%N (n / 16)%N (n mod 16)%N Hv
                   (hex_digit_val_digit Hmod)).
        f_equal. pose proof (N.div_mod n 16). lia.
      * rewrite string_length_app. simpl. lia.
      * intros k Hk1 Hnk. rewrite string_length_app. simpl.
        destruct k as [|k]; [lia|].
        destruct k as [|k].
        { simpl in Hnk. exfalso. apply E. apply N.div_small. exact Hnk. }
        assert (String.length d <= S k); [|lia].
        apply Hk; [lia|].
        apply N.Div0.div_lt_upper_bound.
        replace (N.of_nat (S (S k))) with (N.succ (N.of_nat (S k))) in Hnk
          by lia.
        rewrite N.pow_succ_r' in Hnk. revert Hnk.
        generalize (16 ^ N.of_nat (S k))%N. intros X HX. lia.
Qed.

Lemma zeros_length (n : nat) : String.length (zeros n) = n.
Proof. induction n; simpl; auto. Qed.

Lemma hex_val_from_zeros (n : nat) (s : string) :
  hex_val_from 0 (zeros n ++ s) = hex_val_from 0 s.
Proof. induction n as [|n IH]; simpl; [reflexivity|exact IH]. Qed.

Lemma format_08X_digits (z : Z) :
  (0 <= z)%Z ->
  exists d,
    format_08X z = zeros (8 - String.length d) ++ d /\
    hex_val d = Some (Z.to_N z) /\
    1 <= String.length d /\
    ((z < 2 ^ 32)%Z -> String.length d <= 8).
Proof.
  intros Hz. unfold format_08X.
  assert (Hneg : (z <? 0)%Z = false) by (apply Z.ltb_ge; exact Hz).
  rewrite Hneg.
  assert (Habs : Z.abs_N z = Z.to_N z) by (destruct z; [reflexivity..|lia]).
  rewrite Habs.
  assert (Hfuel : (Z.to_N z < 2 ^ N.of_nat (S (N.to_nat (N.log2 (Z.to_N z)))))%N).
  { replace (N.of_nat (S (N.to_nat (N.log2 (Z.to_N z)))))
      with (N.succ (N.log2 (Z.to_N z))) by lia.
    destruct (N.eq_dec (Z.to_N z) 0) as [->|Hnz]; [reflexivity|].
    apply N.log2_spec. lia. }
  destruct (@hex_of_N_spec _ _ EmptyString (le_n_S _ _ (Nat.le_0_l _)) Hfuel)
    as (d & -> & Hv & Hlen & Hk).
  replace (d ++ EmptyString) with d
    by (clear; induction d; simpl; congruence).
  exists d. split; [reflexivity|]. split; [exact Hv|]. split; [exact Hlen|].
  intros Hlt. apply Hk; [lia|]. change (16 ^ N.of_nat 8)%N with 4294967296%N.
  change (2 ^ 32)%Z with 4294967296%Z in Hlt. lia.
Qed.

(** X17: the text of the edit time, ["%08X" % int (tedit)], is the time in
    uppercase hexadecimal digits, at least eight of them and exactly eight
    below 2^32. *)
Theorem format_08X_decodes (z : Z) :
  (0 <= z)%Z ->
  hex_val (format_08X z) = Some (Z.to_N z) /\
  8 <= String.length (format_08X z) /\
  ((z < 2 ^ 32)%Z -> String.length (format_08X z) = 8).
Proof.
  intros Hz. destruct (format_08X_digits Hz) as (d & -> & Hv & Hlen & Hk).
  split; [|split].
  - unfold hex_val. rewrite hex_val_from_zeros. exact Hv.
  - rewrite string_length_app, zeros_length. lia.
  - intros Hlt. specialize (Hk Hlt).
    rewrite string_length_app, zeros_length. lia.
Qed.

(** X17 at the time 255. *)
Lemma format_08X_decodes_witness :
  hex_val (format_08X 255) = Some (Z.to_N 255) /\
  8 <= String.length (format_08X 255) /\
  ((255 < 2 ^ 32)%Z -> String.length (format_08X 255) = 8).
Proof. apply (@format_08X_decodes 255%Z). lia. Defined.




Section Hash.

Variable float_repr : Q -> string.
Variable str_repr : string -> string.
Variable md5 : string -> string.


End Hash.


(** ** The lines of a polyline *)




(** ** Through-hole pads *)






(** ** The courtyard in the output *)





(** ** [indent_string] works line by line *)

Lemma split_on_nonempty (c : ascii) (s : string) : split_on c s <> [].
Proof.
  induction s as [|d s IH]; simpl; [discriminate|].
  destruct (Ascii.eqb d c); [discriminate|].
  destruct (split_on c s); discriminate.
Qed.

Lemma join_cons (sep x : string) (l : list string) :
  l <> [] -> PyStr.join sep (x :: l) = x ++ sep ++ PyStr.join sep l.
Proof. destruct l; [congruence|reflexivity]. Qed.

Lemma join_split_on (c : ascii) (s : string) :
  PyStr.join (String c EmptyString) (split_on c s) = s.
Proof.
  induction s as [|d s IH]; simpl; [reflexivity|].
  destruct (Ascii.eqb_spec d c) as [->|Hd].
  - rewrite join_cons by apply split_on_nonempty. simpl. now rewrite IH.
  - pose proof (split_on_nonempty c s) as Hne.
    destruct (split_on c s) as [|x l]; [congruence|].
    destruct l as [|y l]; simpl in *; [now rewrite IH|].
    now rewrite <- IH.
Qed.

Lemma split_on_free (c : ascii) (s : string) :
  Forall (fun x => PyStr.mem c x = false) (split_on c s).
Proof.
  induction s as [|d s IH]; simpl; [repeat constructor|].
  destruct (Ascii.eqb d c) eqn:Hd; [constructor; [reflexivity|exact IH]|].
  destruct (split_on c s) as [|x l]; [repeat constructor; simpl; now rewrite Hd|].
  inversion IH; subst. constructor; [simpl; now rewrite Hd|assumption].
Qed.

Lemma split_on_app_sep (c : ascii) (x rest : string) :
  PyStr.mem c x = false ->
  split_on c (x ++ String c rest) = x :: split_on c rest.
Proof.
  induction x as [|d x IH]; simpl; intros H.
  - now rewrite Ascii.eqb_refl.
  - apply orb_false_iff in H as [Hd Hx]. rewrite Hd, (IH Hx). reflexivity.
Qed.

Lemma split_on_absent (c : ascii) (x : string) :
  PyStr.mem c x = false -> split_on c x = [x].
Proof.
  induction x as [|d x IH]; simpl; intros H; [reflexivity|].
  apply orb_false_iff in H as [Hd Hx]. now rewrite Hd, (IH Hx).
Qed.

Lemma split_on_join (c : ascii) (l : list string) :
  l <> [] -> Forall (fun x => PyStr.mem c x = false) l ->
  split_on c (PyStr.join (String c EmptyString) l) = l.
Proof.
  intros Hne Hall. induction Hall as [|x l Hx Hl IH]; [congruence|].
  destruct l as [|y l].
  - simpl. now apply split_on_absent.
  - rewrite join_cons by discriminate. simpl.
    rewrite (@split_on_app_sep c x _ Hx). f_equal. apply IH. discriminate.
Qed.

Lemma mem_indent_line (c : ascii) (i : string) :
  c <> " "%char -> PyStr.mem c i = false ->
  PyStr.mem c (indent_line i) = false.
Proof.
  intros Hc Hi. unfold indent_line.
  destruct (String.eqb ("  " ++ i) "  "); [reflexivity|].
  change ("  " ++ i) with (String " " (String " " i)). cbn [PyStr.mem].
  assert (H : Ascii.eqb " " c = false)
    by (apply Ascii.eqb_neq; congruence).
  rewrite H, Hi. reflexivity.
Qed.

Lemma drop_indent_line (i : string) : PyStr.drop 2 (indent_line i) = i.
Proof.
  unfold indent_line. destruct i as [|c i]; [reflexivity|].
  simpl. destruct (Ascii.eqb c " "); reflexivity.
Qed.

(** X22: [indent_string] works line by line: the lines of its result are the
    lines of the text, each with two spaces in front but for the empty
    lines, which stay empty; taking the two spaces away gives the text
    back. *)
Theorem indent_string_lines (s : string) :
  split_on PyStr.newline (indent_string s)
  = map indent_line (split_on PyStr.newline s) /\
  PyStr.join nl (map (PyStr.drop 2) (split_on PyStr.newline (indent_string s)))
  = s.
Proof.
  assert (E : split_on PyStr.newline (indent_string s)
              = map indent_line (split_on PyStr.newline s)).
  { unfold indent_string. rewrite map_map.
    change (fun x : string => if String.eqb ("  " ++ x) "  " then EmptyString else "  " ++ x)
      with indent_line.
    apply split_on_join.
    - pose proof (split_on_nonempty PyStr.newline s) as H.
      destruct (split_on PyStr.newline s); [congruence|discriminate].
    - pose proof (split_on_free PyStr.newline s) as H.
      induction H as [|x l Hx _ IH]; simpl; constructor; auto.
      apply mem_indent_line; [discriminate|exact Hx]. }
  split; [exact E|]. rewrite E, map_map.
  rewrite (map_ext _ (fun x => x) drop_indent_line), map_id.
  apply join_split_on.
Qed.

(** ** [Library.__str__] *)


(** ** The exception lists *)

Section Exception_lists.

Variable re_compile : string -> option (string -> bool).

Lemma read_exceptions_app_blank (l1 l2 : list string) (b : string) :
  is_blank b = true ->
  read_exceptions re_compile (l1 ++ b :: l2)
  = read_exceptions re_compile (l1 ++ l2).
Proof.
  intros Hb. induction l1 as [|x l1 IH]; simpl.
  - unfold is_blank in Hb. now rewrite Hb.
  - rewrite IH. reflexivity.
Qed.

Lemma read_exceptions_blank (lines : list string) :
  Forall (fun l => is_blank l = true) lines ->
  read_exceptions re_compile lines = Some [].
Proof.
  induction 1 as [|x l Hx _ IH]; simpl; [reflexivity|].
  unfold is_blank in Hx. now rewrite Hx.
Qed.

(** X24: blank lines of an exception file are ignored: a blank line more
    gives the same list of expressions, and a file of blank lines gives the
    empty list, as no file does; under the empty list every module may have
    its pads rounded. *)
Theorem exception_file_blank_lines :
  (forall l1 l2 b,
      is_blank b = true ->
      exceptions_of re_compile (Some (l1 ++ b :: l2)%list)
      = exceptions_of re_compile (Some (l1 ++ l2)%list)) /\
  (forall lines,
      Forall (fun l => is_blank l = true) lines ->
      exceptions_of re_compile (Some lines) = exceptions_of re_compile None) /\
  (forall modname, can_round [] modname = true).
Proof.
  split; [|split].
  - intros. now apply read_exceptions_app_blank.
  - intros. now apply read_exceptions_blank.
  - reflexivity.
Qed.

End Exception_lists.

(** ** [copyfile] copies everything *)

Lemma copyfile_loop (n : nat) (dest src : list Byte.byte) :
  List.length src < n ->
  while n copyfile_step (dest, src) = Ok ((dest ++ src)%list, []).
Proof.
  revert dest src. induction n as [|n IH]; intros dest src Hn; [lia|].
  rewrite while_unfold. unfold copyfile_step at 1.
  assert (Hpos : 0 < block_size) by (unfold block_size; lia).
  generalize dependent block_size. intros bs Hpos.
  destruct (Nat.ltb_spec (List.length (firstn bs src)) bs) as [Hlt|Hge];
    cbn [bind].
  - rewrite length_firstn in Hlt.
    assert (Hs : List.length src < bs) by lia.
    rewrite firstn_all2 by lia. rewrite skipn_all2 by lia. reflexivity.
  - rewrite length_firstn in Hge.
    rewrite IH.
    + rewrite <- app_assoc, firstn_skipn. reflexivity.
    + rewrite length_skipn. lia.
Qed.

(** X25: [copyfile] writes to [dest] all the bytes left in [src] and leaves
    [src] at its end, also when their number is a multiple of the block
    size, a last and empty block being read and written then. *)
Theorem copyfile_copies_all (dest src : list Byte.byte) :
  copyfile dest src = Ok ((dest ++ src)%list, []).
Proof. unfold copyfile. apply copyfile_loop. lia. Qed.

